(** * Qobuz label-catalog scraper (src/qobuzScraper/index.js)

    A shallow embedding of the crawler's pure core: the date parsers and
    formatters, the release-date extractor, the album-detail parser, the
    fetch/retry loop, the accept/reject filter and the deduplicator; and of
    the loaders of the input file and of the labels file.

    JavaScript strings are sequences of UTF-16 code units; a [Date] is its
    time value (milliseconds since the epoch, UTC).  Built-ins of the
    language ([String.prototype.trim], [Number], [Date.UTC], the [\s], [\d],
    [\w] and [\b] regular-expression atoms) follow ECMA-262. *)

From Stdlib Require Import ZArith List Bool Lia String Ascii.
Import ListNotations.
Local Open Scope Z_scope.

(** ** JavaScript strings *)

Module JS.

Definition str := list Z.

Definition lit (s : string) : str :=
  map (fun a => Z.of_N (N_of_ascii a)) (list_ascii_of_string s).

Fixpoint eqb (a b : str) : bool :=
  match a, b with
  | [], [] => true
  | x :: a', y :: b' => (x =? y) && eqb a' b'
  | _, _ => false
  end.

(** [WhiteSpace] and [LineTerminator] code units: what [\s] matches and
    what [trim] strips. *)
Definition isWhiteSpace (c : Z) : bool :=
  ((9 <=? c) && (c <=? 13)) || (c =? 32) || (c =? 160) || (c =? 5760)
  || ((8192 <=? c) && (c <=? 8202)) || (c =? 8232) || (c =? 8233)
  || (c =? 8239) || (c =? 8287) || (c =? 12288) || (c =? 65279).

(** [.] in a regular expression without the [s] flag. *)
Definition isLineTerminator (c : Z) : bool :=
  (c =? 10) || (c =? 13) || (c =? 8232) || (c =? 8233).

Definition isDigit (c : Z) : bool := (48 <=? c) && (c <=? 57).
Definition isUpper (c : Z) : bool := (65 <=? c) && (c <=? 90).
Definition isLower (c : Z) : bool := (97 <=? c) && (c <=? 122).
Definition isAsciiLetter (c : Z) : bool := isUpper c || isLower c.

(** [\w] *)
Definition isWordChar (c : Z) : bool :=
  isAsciiLetter c || isDigit c || (c =? 95).

(** Case folding of the Basic Latin letters.  This is what [toLowerCase]
    does on a string of ASCII letters, and what the [i] flag of a
    non-unicode regular expression does against an ASCII pattern (a code
    unit of 128 or more never canonicalizes to an ASCII one). *)
Definition lowerAscii (c : Z) : Z := if isUpper c then c + 32 else c.

Definition eqCI (p c : Z) : bool := lowerAscii p =? lowerAscii c.

Fixpoint dropWhile (f : Z -> bool) (s : str) : str :=
  match s with
  | [] => []
  | c :: r => if f c then dropWhile f r else s
  end.

Fixpoint takeWhile (f : Z -> bool) (s : str) : str :=
  match s with
  | [] => []
  | c :: r => if f c then c :: takeWhile f r else []
  end.

Definition trimStart (s : str) : str := dropWhile isWhiteSpace s.
Definition trimEnd (s : str) : str := rev (dropWhile isWhiteSpace (rev s)).
Definition trim (s : str) : str := trimEnd (trimStart s).

(** [s.replace(/\s+/g, " ")]: [inRun] tells that the previous code unit
    was white space, already replaced. *)
Fixpoint collapseFrom (inRun : bool) (s : str) : str :=
  match s with
  | [] => []
  | c :: r =>
      if isWhiteSpace c
      then (if inRun then collapseFrom true r else 32 :: collapseFrom true r)
      else c :: collapseFrom false r
  end.

Definition collapseWhiteSpace (s : str) : str := collapseFrom false s.

Fixpoint startsWith (s p : str) : bool :=
  match p, s with
  | [], _ => true
  | x :: p', y :: s' => (x =? y) && startsWith s' p'
  | _ :: _, [] => false
  end.

(** A literal of a pattern with the [i] flag, matched at the head of [s];
    the rest of [s] after the literal. *)
Fixpoint matchLitCI (p s : str) : option str :=
  match p, s with
  | [], _ => Some s
  | x :: p', y :: s' => if eqCI x y then matchLitCI p' s' else None
  | _ :: _, [] => None
  end.

Fixpoint matchLit (p s : str) : option str :=
  match p, s with
  | [], _ => Some s
  | x :: p', y :: s' => if x =? y then matchLit p' s' else None
  | _ :: _, [] => None
  end.

(** [s.includes(p)] *)
Fixpoint includes (s p : str) : bool :=
  startsWith s p ||
  match s with
  | [] => false
  | _ :: r => includes r p
  end.

(** [Number(s)] for a string of decimal digits. *)
Definition digitVal (c : Z) : Z := c - 48.

Definition numberOfDigits (s : str) : Z :=
  fold_left (fun acc c => acc * 10 + digitVal c) s 0.

(** [String(n)] for an integer [n] of fewer than 22 digits, which is
    printed in full. *)
Fixpoint digitsOf (fuel : nat) (n : Z) (acc : str) : str :=
  match fuel with
  | O => acc
  | S f =>
      let acc' := (48 + n mod 10) :: acc in
      if n / 10 =? 0 then acc' else digitsOf f (n / 10) acc'
  end.

Definition stringOfInt (n : Z) : str :=
  if n <? 0
  then 45 :: digitsOf (S (Z.to_nat (Z.log2 (- n)))) (- n) []
  else digitsOf (S (Z.to_nat (Z.log2 n))) n [].

(** [s.padStart(2, "0")] *)
Definition padStart2 (s : str) : str :=
  match s with
  | [] => [48; 48]
  | [c] => [48; c]
  | _ => s
  end.

(** [parts.join(sep)] *)
Fixpoint join (sep : str) (parts : list str) : str :=
  match parts with
  | [] => []
  | [p] => p
  | p :: rest => p ++ sep ++ join sep rest
  end.

End JS.

(** ** Dates (ECMA-262, "Time Values and Time Range") *)

Module JSDate.

Definition msPerDay : Z := 86400000.

Definition Day (t : Z) : Z := t / msPerDay.

Definition DayFromYear (y : Z) : Z :=
  365 * (y - 1970) + (y - 1969) / 4 - (y - 1901) / 100 + (y - 1601) / 400.

Definition DaysInYear (y : Z) : Z :=
  if negb (y mod 4 =? 0) then 365
  else if negb (y mod 100 =? 0) then 366
  else if negb (y mod 400 =? 0) then 365
  else 366.

(** The largest [y] with [DayFromYear y <= day], found from the estimate
    [day / 365.2425], which is off by at most one. *)
Definition YearFromDay (day : Z) : Z :=
  let y0 := 1970 + (400 * day) / 146097 in
  if DayFromYear (y0 + 1) <=? day then y0 + 1
  else if DayFromYear y0 <=? day then y0
  else y0 - 1.

Definition YearFromTime (t : Z) : Z := YearFromDay (Day t).

Definition InLeapYear (y : Z) : Z := if DaysInYear y =? 366 then 1 else 0.

(** Number of days of the year before month [m] (0 = January). *)
Definition monthStart (leap m : Z) : Z :=
  if m =? 0 then 0
  else if m =? 1 then 31
  else if m =? 2 then 59 + leap
  else if m =? 3 then 90 + leap
  else if m =? 4 then 120 + leap
  else if m =? 5 then 151 + leap
  else if m =? 6 then 181 + leap
  else if m =? 7 then 212 + leap
  else if m =? 8 then 243 + leap
  else if m =? 9 then 273 + leap
  else if m =? 10 then 304 + leap
  else 334 + leap.

Definition DayWithinYear (t : Z) : Z := Day t - DayFromYear (YearFromTime t).

Definition monthOfDayInYear (leap d : Z) : Z :=
  if d <? 31 then 0
  else if d <? 59 + leap then 1
  else if d <? 90 + leap then 2
  else if d <? 120 + leap then 3
  else if d <? 151 + leap then 4
  else if d <? 181 + leap then 5
  else if d <? 212 + leap then 6
  else if d <? 243 + leap then 7
  else if d <? 273 + leap then 8
  else if d <? 304 + leap then 9
  else if d <? 334 + leap then 10
  else 11.

Definition MonthFromTime (t : Z) : Z :=
  monthOfDayInYear (InLeapYear (YearFromTime t)) (DayWithinYear t).

Definition DateFromTime (t : Z) : Z :=
  let leap := InLeapYear (YearFromTime t) in
  DayWithinYear t - monthStart leap (MonthFromTime t) + 1.

Definition MakeDay (year month date : Z) : Z :=
  let ym := year + month / 12 in
  let mn := month mod 12 in
  DayFromYear ym + monthStart (InLeapYear ym) mn + date - 1.

Definition MakeDate (day time : Z) : Z := day * msPerDay + time.

(** [None] is NaN, the time value of an invalid [Date]. *)
Definition TimeClip (t : Z) : option Z :=
  if Z.abs t <=? 8640000000000000 then Some t else None.

(** [Date.UTC(year, month, date)]: a year from 0 to 99 means 1900 + year. *)
Definition UTC (year month date : Z) : option Z :=
  let yr := if (0 <=? year) && (year <=? 99) then 1900 + year else year in
  TimeClip (MakeDate (MakeDay yr month date) 0).

(** [d.getUTCFullYear() === y && d.getUTCMonth() === m && d.getUTCDate() === day]
    for [d = new Date(Date.UTC(y, m, day))]; the getters of an invalid
    date are NaN, which equals nothing. *)
Definition checkedUTC (year month date : Z) : option Z :=
  match UTC year month date with
  | None => None
  | Some t =>
      if (YearFromTime t =? year) && (MonthFromTime t =? month)
         && (DateFromTime t =? date)
      then Some t else None
  end.

End JSDate.

(** ** The scraper: dates and durations *)

Module Scraper.
Import JS JSDate.

(** Error codes of [makeError]. *)
Inductive ErrorCode :=
| INVALID_DATE_FORMAT
| INPUT_FILE_NOT_FOUND
| INVALID_INPUT_LINE
| MISSING_REQUIRED_KEYS
| INVALID_NUMERIC_VALUE
| VALUE_OUT_OF_RANGE
| LABELS_FILE_NOT_FOUND
| INVALID_LABELS_LINE.

Inductive result (A : Type) :=
| Ok (a : A)
| Throw (code : ErrorCode).
Arguments Ok {A} a.
Arguments Throw {A} code.

(** [value.match(/^(\d{2})\.(\d{2})\.(\d{4})$/)] *)
Definition matchPlDate (value : str) : option (str * str * str) :=
  match value with
  | [d1; d2; p1; m1; m2; p2; y1; y2; y3; y4] =>
      if forallb isDigit [d1; d2; m1; m2; y1; y2; y3; y4]
         && (p1 =? 46) && (p2 =? 46)
      then Some ([d1; d2], [m1; m2], [y1; y2; y3; y4])
      else None
  | _ => None
  end.

Definition parsePlDate (text : str) : result Z :=
  let value := trim text in
  match matchPlDate value with
  | None => Throw INVALID_DATE_FORMAT
  | Some (m1, m2, m3) =>
      let day := numberOfDigits m1 in
      let month := numberOfDigits m2 in
      let year := numberOfDigits m3 in
      match checkedUTC year (month - 1) day with
      | Some d => Ok d
      | None => Throw INVALID_DATE_FORMAT
      end
  end.

Definition formatPlDate (dateValue : Z) : str :=
  let day := padStart2 (stringOfInt (DateFromTime dateValue)) in
  let month := padStart2 (stringOfInt (MonthFromTime dateValue + 1)) in
  let year := stringOfInt (YearFromTime dateValue) in
  day ++ [46] ++ month ++ [46] ++ year.

(** [s.replace(/\./g, "")] *)
Definition normalizeMonthToken (s : str) : str :=
  filter (fun c => negb (c =? 46)) s.

(** The maximal run of one or two digits at the head of [s], which is
    what [\d{1,2}] takes when a non-digit has to follow. *)
Definition digits12 (s : str) : option (str * str) :=
  match s with
  | a :: b :: r =>
      if isDigit a
      then (if isDigit b then Some ([a; b], r) else Some ([a], b :: r))
      else None
  | [a] => if isDigit a then Some ([a], []) else None
  | [] => None
  end.

Definition digitsN (n : nat) (s : str) : option (str * str) :=
  let d := firstn n s in
  if (List.length d =? n)%nat && forallb isDigit d then Some (d, skipn n s) else None.

Definition monthIndex (month : str) : option Z :=
  if eqb month (lit "jan") then Some 0
  else if eqb month (lit "feb") then Some 1
  else if eqb month (lit "mar") then Some 2
  else if eqb month (lit "apr") then Some 3
  else if eqb month (lit "may") then Some 4
  else if eqb month (lit "jun") then Some 5
  else if eqb month (lit "jul") then Some 6
  else if eqb month (lit "aug") then Some 7
  else if eqb month (lit "sep") then Some 8
  else if eqb month (lit "oct") then Some 9
  else if eqb month (lit "nov") then Some 10
  else if eqb month (lit "dec") then Some 11
  else None.

(** [s.replace(/^Sept\s/i, "Sep ")] *)
Definition replaceSept (s : str) : str :=
  match matchLitCI (lit "Sept") s with
  | Some (c :: r) => if isWhiteSpace c then lit "Sep " ++ r else s
  | _ => s
  end.

(** The part of [s] before its first space, and the rest from that space
    on ([s.indexOf(" ")], [s.slice(0, idx)], [s.slice(idx)]). *)
Fixpoint splitAtSpace (s : str) : option (str * str) :=
  match s with
  | [] => None
  | c :: r =>
      if c =? 32 then Some ([], s)
      else match splitAtSpace r with
           | Some (a, b) => Some (c :: a, b)
           | None => None
           end
  end.

(** [s.match(/^([A-Za-z]+)\s+(\d{1,2}),\s*(\d{4})$/)] *)
Definition matchEnglishDate (s : str) : option (str * str * str) :=
  let name := takeWhile isAsciiLetter s in
  let r1 := dropWhile isAsciiLetter s in
  match name, r1 with
  | _ :: _, w :: r2 =>
      if isWhiteSpace w then
        match digits12 (dropWhile isWhiteSpace r2) with
        | Some (d, c :: r3) =>
            if c =? 44 then
              match digitsN 4 (dropWhile isWhiteSpace r3) with
              | Some (y, []) => Some (name, d, y)
              | _ => None
              end
            else None
        | _ => None
        end
      else None
  | _, _ => None
  end.

Definition parseEnglishMonthDate (text : str) : option Z :=
  let s := collapseWhiteSpace (trim text) in
  match s with
  | [] => None
  | _ =>
      let s := replaceSept s in
      let s := match splitAtSpace s with
               | Some (tok, rest) => normalizeMonthToken tok ++ rest
               | None => s
               end in
      match matchEnglishDate s with
      | None => None
      | Some (m1, m2, m3) =>
          let month := map lowerAscii (firstn 3 m1) in
          match monthIndex month with
          | None => None
          | Some mi =>
              let day := numberOfDigits m2 in
              let year := numberOfDigits m3 in
              checkedUTC year mi day
          end
      end
  end.

(** [s.match(/^(\d{1,2})\/(\d{1,2})\/(\d{2,4})$/)] *)
Definition matchNumericDate (s : str) : option (str * str * str) :=
  match digits12 s with
  | Some (a, c1 :: r1) =>
      if c1 =? 47 then
        match digits12 r1 with
        | Some (b, c2 :: y) =>
            if (c2 =? 47) && forallb isDigit y
               && (2 <=? List.length y)%nat && (List.length y <=? 4)%nat
            then Some (a, b, y) else None
        | _ => None
        end
      else None
  | _ => None
  end.

Definition parseNumericUsDate (text : str) : option Z :=
  let s := collapseWhiteSpace (trim text) in
  match s with
  | [] => None
  | _ =>
      match matchNumericDate s with
      | None => None
      | Some (m1, m2, m3) =>
          let year := if numberOfDigits m3 <? 100
                      then 2000 + numberOfDigits m3 else numberOfDigits m3 in
          let v1 := (numberOfDigits m1, numberOfDigits m2) in
          let v2 := (numberOfDigits m2, numberOfDigits m1) in
          match checkedUTC year (fst v1 - 1) (snd v1) with
          | Some d => Some d
          | None => checkedUTC year (fst v2 - 1) (snd v2)
          end
      end
  end.

(** The three templates that [RELEASE_PATTERNS_MONTH] and
    [RELEASE_PATTERNS_NUM] share; the arrays differ in the date group that
    follows the template. *)
Inductive ReleaseTemplate := ReleasedByOn | ReleasedOn | ToBeReleasedOn.

Definition RELEASE_PATTERNS_MONTH : list ReleaseTemplate :=
  [ReleasedByOn; ReleasedOn; ToBeReleasedOn].

Definition RELEASE_PATTERNS_NUM : list ReleaseTemplate :=
  [ReleasedByOn; ReleasedOn; ToBeReleasedOn].

(** The group [([A-Za-z.]+ \d{1,2}, \d{4})] at the head of [s]. *)
Definition isMonthTokenChar (c : Z) : bool := isAsciiLetter c || (c =? 46).

Definition groupMonthDate (s : str) : option str :=
  let name := takeWhile isMonthTokenChar s in
  match name, dropWhile isMonthTokenChar s with
  | _ :: _, sp :: r1 =>
      if sp =? 32 then
        match digits12 r1 with
        | Some (d, c :: sp2 :: r2) =>
            if (c =? 44) && (sp2 =? 32) then
              match digitsN 4 r2 with
              | Some (y, _) => Some (name ++ [32] ++ d ++ [44; 32] ++ y)
              | None => None
              end
            else None
        | _ => None
        end
      else None
  | _, _ => None
  end.

(** The group [(\d{1,2}\/\d{1,2}\/\d{2,4})] at the head of [s]; the last
    quantifier is greedy. *)
Definition digits24 (s : str) : option str :=
  let d := firstn 4 (takeWhile isDigit s) in
  if (2 <=? List.length d)%nat then Some d else None.

Definition groupNumDate (s : str) : option str :=
  match digits12 s with
  | Some (a, c1 :: r1) =>
      if c1 =? 47 then
        match digits12 r1 with
        | Some (b, c2 :: r2) =>
            if c2 =? 47 then
              match digits24 r2 with
              | Some y => Some (a ++ [47] ++ b ++ [47] ++ y)
              | None => None
              end
            else None
        | _ => None
        end
      else None
  | _ => None
  end.

(** The lazy [.*?] followed by [ on ] and the date group. *)
Fixpoint lazyOn (group : str -> option str) (s : str) : option str :=
  let here := match matchLitCI (lit " on ") s with
              | Some r => group r
              | None => None
              end in
  match here with
  | Some c => Some c
  | None =>
      match s with
      | [] => None
      | c :: r => if isLineTerminator c then None else lazyOn group r
      end
  end.

(** A template after its leading [\b], at the head of [s]. *)
Definition matchTemplate (group : str -> option str) (tpl : ReleaseTemplate)
    (s : str) : option str :=
  match tpl with
  | ReleasedByOn =>
      match matchLitCI (lit "Released by ") s with
      | Some r => lazyOn group r
      | None => None
      end
  | ReleasedOn =>
      match matchLitCI (lit "Released on ") s with
      | Some r => group r
      | None => None
      end
  | ToBeReleasedOn =>
      match matchLitCI (lit "To be released on ") s with
      | Some r => group r
      | None => None
      end
  end.

(** [\b] between a previous code unit (word or not; none at the start of
    the input) and the head of [s]. *)
Definition wordBoundary (prevWord : bool) (s : str) : bool :=
  xorb prevWord match s with
                | [] => false
                | c :: _ => isWordChar c
                end.

(** [normalized.match(rx)]: the leftmost position where the template
    matches; the result is the captured group, [match[1]]. *)
Fixpoint searchTemplate (group : str -> option str) (tpl : ReleaseTemplate)
    (prevWord : bool) (s : str) : option str :=
  let here := if wordBoundary prevWord s then matchTemplate group tpl s
              else None in
  match here with
  | Some c => Some c
  | None =>
      match s with
      | [] => None
      | c :: r => searchTemplate group tpl (isWordChar c) r
      end
  end.

(** One [for (const rx of ...)] loop of [extractReleaseDateFromText]. *)
Fixpoint tryPatterns (group : str -> option str) (parse : str -> option Z)
    (patterns : list ReleaseTemplate) (normalized : str) : option Z :=
  match patterns with
  | [] => None
  | rx :: rest =>
      let next := tryPatterns group parse rest normalized in
      match searchTemplate group rx false normalized with
      | Some m1 =>
          match parse m1 with
          | Some parsed => Some parsed
          | None => next
          end
      | None => next
      end
  end.

Definition extractReleaseDateFromText (text : str) : option Z :=
  match text with
  | [] => None
  | _ =>
      let normalized := trim (collapseWhiteSpace text) in
      match tryPatterns groupMonthDate parseEnglishMonthDate
              RELEASE_PATTERNS_MONTH normalized with
      | Some parsed => Some parsed
      | None =>
          tryPatterns groupNumDate parseNumericUsDate
            RELEASE_PATTERNS_NUM normalized
      end
  end.

(** [value.match(/^(\d{1,2}):(\d{2})(?::(\d{2}))?$/)] *)
Definition matchHms (s : str) : option (str * str * option str) :=
  match digits12 s with
  | Some (a, c :: r) =>
      if c =? 58 then
        match digitsN 2 r with
        | Some (b, []) => Some (a, b, None)
        | Some (b, c2 :: r2) =>
            if c2 =? 58 then
              match digitsN 2 r2 with
              | Some (d, []) => Some (a, b, Some d)
              | _ => None
              end
            else None
        | None => None
        end
      else None
  | _ => None
  end.

Definition hmsToSeconds (value : str) : option Z :=
  match matchHms (trim value) with
  | None => None
  | Some (m1, m2, None) => Some (numberOfDigits m1 * 60 + numberOfDigits m2)
  | Some (m1, m2, Some m3) =>
      Some (numberOfDigits m1 * 3600 + numberOfDigits m2 * 60
            + numberOfDigits m3)
  end.

(** ** Text helpers of the album-page parsers *)

(** [s.split(/X+/)] for a class [X] of code units: [inRun] tells that the
    previous code unit was a separator; [acc] is the current piece,
    reversed. *)
Fixpoint splitRunsFrom (f : Z -> bool) (inRun : bool) (acc s : str)
    : list str :=
  match s with
  | [] => [rev acc]
  | c :: r =>
      if f c
      then (if inRun then splitRunsFrom f true acc r
            else rev acc :: splitRunsFrom f true [] r)
      else splitRunsFrom f false (c :: acc) r
  end.

Definition splitRuns (f : Z -> bool) (s : str) : list str :=
  splitRunsFrom f false [] s.

Definition nonEmpty (s : str) : bool :=
  match s with [] => false | _ => true end.

(** [s.split(sep, 1)[0]]: the part of [s] before the first occurrence of a
    non-empty [sep]. *)
Fixpoint beforeFirst (sep s : str) : str :=
  match s with
  | [] => []
  | c :: r => if startsWith s sep then [] else c :: beforeFirst sep r
  end.

(** [s.split(":").slice(1).join(":")]: what follows the first colon. *)
Fixpoint afterFirstColon (s : str) : str :=
  match s with
  | [] => []
  | c :: r => if c =? 58 then r else afterFirstColon r
  end.

Definition endsWithColon (s : str) : bool :=
  match rev s with
  | c :: _ => c =? 58
  | [] => false
  end.

(** [l.replace(/^[\s#*\-•]+/, "")] *)
Definition isBulletChar (c : Z) : bool :=
  isWhiteSpace c || (c =? 35) || (c =? 42) || (c =? 45) || (c =? 8226).

(** [/^(main artists|composer|label|total length|available in)\b/i.test(n)] *)
Definition headingWords : list str :=
  [lit "main artists"; lit "composer"; lit "label"; lit "total length";
   lit "available in"].

Definition looksLikeHeading (n : str) : bool :=
  existsb (fun w => match matchLitCI w n with
                    | Some r => wordBoundary true r
                    | None => false
                    end) headingWords.

(** [/\b(released|to be released)\b/i.test(line)] *)
Definition releasedWords : list str := [lit "released"; lit "to be released"].

Fixpoint testReleased (prevWord : bool) (s : str) : bool :=
  (wordBoundary prevWord s &&
   existsb (fun w => match matchLitCI w s with
                     | Some r => wordBoundary true r
                     | None => false
                     end) releasedWords)
  || match s with
     | [] => false
     | c :: r => testReleased (isWordChar c) r
     end.

(** The group [([0-9]{1,2}:[0-9]{2}(?::[0-9]{2})?)] at the head of [s]. *)
Definition groupHms (s : str) : option str :=
  match digits12 s with
  | Some (a, c :: r) =>
      if c =? 58 then
        match digitsN 2 r with
        | Some (b, r2) =>
            match r2 with
            | c2 :: r3 =>
                if c2 =? 58 then
                  match digitsN 2 r3 with
                  | Some (d, _) => Some (a ++ [58] ++ b ++ [58] ++ d)
                  | None => Some (a ++ [58] ++ b)
                  end
                else Some (a ++ [58] ++ b)
            | [] => Some (a ++ [58] ++ b)
            end
        | None => None
        end
      else None
  | _ => None
  end.

(** [pageText.match(/Total length:\s*([0-9]{1,2}:[0-9]{2}(?::[0-9]{2})?)/i)]:
    the group of the leftmost match. *)
Fixpoint matchTotalLength (s : str) : option str :=
  let here := match matchLitCI (lit "Total length:") s with
              | Some r => groupHms (dropWhile isWhiteSpace r)
              | None => None
              end in
  match here with
  | Some g => Some g
  | None =>
      match s with
      | [] => None
      | _ :: r => matchTotalLength r
      end
  end.

(** ** Data model *)

(** The fields of the loaded configuration that the code below reads.
    [delay_listing] and [delay_album] only set the pace of the two rate
    limiters, and [labels_file] names a file read before the run starts. *)
Record Config := {
  date_from : Z;
  date_to : Z;
  min_minutes : Z;
  max_pages_per_label : Z;
  retries : Z;
  timeout_ms : Z;
  genre_root : str;
  accept_language : str;
  user_agent : str
}.

Record Stats := {
  labelsTotal : Z;
  labelsProcessed : Z;
  candidatesTotal : Z;
  albumsFetched : Z;
  accepted : Z;
  rejectedByGenre : Z;
  rejectedByLength : Z;
  rejectedByDateMismatch : Z;
  missingAlbumDate : Z;
  duplicatesRemoved : Z;
  httpErrors : Z;
  parseErrors : Z
}.

Definition initialStats : Stats :=
  {| labelsTotal := 0; labelsProcessed := 0; candidatesTotal := 0;
     albumsFetched := 0; accepted := 0; rejectedByGenre := 0;
     rejectedByLength := 0; rejectedByDateMismatch := 0;
     missingAlbumDate := 0; duplicatesRemoved := 0; httpErrors := 0;
     parseErrors := 0 |}.

Record Label := { name : str; url : str }.

Record Candidate := {
  album_url : str;
  label_name : str;
  release_date_listing : Z
}.

Record AlbumDetails := {
  title : str;
  main_artists : str;
  total_length_hms : str;
  total_seconds : Z;
  release_date_album : option Z;
  genre_first : option str
}.

(** The objects pushed to [accepted]; the fields [album_title],
    [main_artists], [label], [album_url] and [release_date] carry a prefix
    here, apart from the fields of the other records. *)
Record AcceptedRecord := {
  rec_album_title : str;
  rec_main_artists : str;
  rec_label : str;
  rec_album_url : str;
  rec_release_date : Z
}.

(** What the parsers read of an album page through cheerio:
    [$("h1").first().text()] (empty without a heading), the elements of
    [$("li, p, div")] in document order, each with its [text()] and the
    [text()] of every [a] inside it, and [$.root().text()]. *)
Record Block := { block_text : str; block_anchor_texts : list str }.

Record AlbumPage := {
  h1_text : str;
  blocks : list Block;
  root_text : str
}.

(** What the listing parser reads of a listing page.  A container is one
    node of the walk from a link up through its parents; [inner_links] are
    the [a[href]] elements inside it, each with its [href] and with
    [new URL(href, pageUrl).toString().split("#", 1)[0]] ([None] when the
    URL constructor throws). *)
Record Container := {
  inner_links : list (str * option str);
  container_text : str
}.

(** One element of [$("a[href]")].  [page2_path] is the test of
    [listingHasPage2] on the resolved path of the link ([None] when the
    URL constructor throws there). *)
Record Anchor := {
  href : str;
  resolved : option str;
  climb : list Container;
  page2_path : option bool
}.

Record ListingPage := { anchors : list Anchor }.

(** A response body.  [html_empty] is [html === ""]; a view is [None] when
    cheerio throws on the document. *)
Record Html := {
  html_empty : bool;
  as_listing : option ListingPage;
  as_album : option AlbumPage
}.

(** What one call of [fetch] does: it rejects (network error, or abort at
    [timeout_ms]), or resolves with a status and a body ([None] when
    [response.text()] rejects). *)
Inductive FetchOutcome :=
| Rejects
| Responds (status : Z) (body : option Html).

(** The remote side: the outcome of the [n]-th request of the run, sent
    to the given URL. *)
Definition Network := nat -> str -> FetchOutcome.

Inductive Event :=
| Request (url : str)
| Sleep (ms : Z).

(** The state a run threads through its calls: the counters, the number
    of requests sent so far and the requests and sleeps in order. *)
Record RunState := {
  stats : Stats;
  sent : nat;
  events : list Event
}.

Definition updStats (f : Stats -> Stats) (st : RunState) : RunState :=
  {| stats := f (stats st); sent := sent st; events := events st |}.

Definition incLabelsProcessed (s : Stats) : Stats :=
  {| labelsTotal := labelsTotal s; labelsProcessed := labelsProcessed s + 1;
     candidatesTotal := candidatesTotal s; albumsFetched := albumsFetched s;
     accepted := accepted s; rejectedByGenre := rejectedByGenre s;
     rejectedByLength := rejectedByLength s;
     rejectedByDateMismatch := rejectedByDateMismatch s;
     missingAlbumDate := missingAlbumDate s;
     duplicatesRemoved := duplicatesRemoved s; httpErrors := httpErrors s;
     parseErrors := parseErrors s |}.

Definition incAlbumsFetched (s : Stats) : Stats :=
  {| labelsTotal := labelsTotal s; labelsProcessed := labelsProcessed s;
     candidatesTotal := candidatesTotal s; albumsFetched := albumsFetched s + 1;
     accepted := accepted s; rejectedByGenre := rejectedByGenre s;
     rejectedByLength := rejectedByLength s;
     rejectedByDateMismatch := rejectedByDateMismatch s;
     missingAlbumDate := missingAlbumDate s;
     duplicatesRemoved := duplicatesRemoved s; httpErrors := httpErrors s;
     parseErrors := parseErrors s |}.

Definition incRejectedByGenre (s : Stats) : Stats :=
  {| labelsTotal := labelsTotal s; labelsProcessed := labelsProcessed s;
     candidatesTotal := candidatesTotal s; albumsFetched := albumsFetched s;
     accepted := accepted s; rejectedByGenre := rejectedByGenre s + 1;
     rejectedByLength := rejectedByLength s;
     rejectedByDateMismatch := rejectedByDateMismatch s;
     missingAlbumDate := missingAlbumDate s;
     duplicatesRemoved := duplicatesRemoved s; httpErrors := httpErrors s;
     parseErrors := parseErrors s |}.

Definition incRejectedByLength (s : Stats) : Stats :=
  {| labelsTotal := labelsTotal s; labelsProcessed := labelsProcessed s;
     candidatesTotal := candidatesTotal s; albumsFetched := albumsFetched s;
     accepted := accepted s; rejectedByGenre := rejectedByGenre s;
     rejectedByLength := rejectedByLength s + 1;
     rejectedByDateMismatch := rejectedByDateMismatch s;
     missingAlbumDate := missingAlbumDate s;
     duplicatesRemoved := duplicatesRemoved s; httpErrors := httpErrors s;
     parseErrors := parseErrors s |}.

Definition incRejectedByDateMismatch (s : Stats) : Stats :=
  {| labelsTotal := labelsTotal s; labelsProcessed := labelsProcessed s;
     candidatesTotal := candidatesTotal s; albumsFetched := albumsFetched s;
     accepted := accepted s; rejectedByGenre := rejectedByGenre s;
     rejectedByLength := rejectedByLength s;
     rejectedByDateMismatch := rejectedByDateMismatch s + 1;
     missingAlbumDate := missingAlbumDate s;
     duplicatesRemoved := duplicatesRemoved s; httpErrors := httpErrors s;
     parseErrors := parseErrors s |}.

Definition incMissingAlbumDate (s : Stats) : Stats :=
  {| labelsTotal := labelsTotal s; labelsProcessed := labelsProcessed s;
     candidatesTotal := candidatesTotal s; albumsFetched := albumsFetched s;
     accepted := accepted s; rejectedByGenre := rejectedByGenre s;
     rejectedByLength := rejectedByLength s;
     rejectedByDateMismatch := rejectedByDateMismatch s;
     missingAlbumDate := missingAlbumDate s + 1;
     duplicatesRemoved := duplicatesRemoved s; httpErrors := httpErrors s;
     parseErrors := parseErrors s |}.

Definition incDuplicatesRemoved (s : Stats) : Stats :=
  {| labelsTotal := labelsTotal s; labelsProcessed := labelsProcessed s;
     candidatesTotal := candidatesTotal s; albumsFetched := albumsFetched s;
     accepted := accepted s; rejectedByGenre := rejectedByGenre s;
     rejectedByLength := rejectedByLength s;
     rejectedByDateMismatch := rejectedByDateMismatch s;
     missingAlbumDate := missingAlbumDate s;
     duplicatesRemoved := duplicatesRemoved s + 1; httpErrors := httpErrors s;
     parseErrors := parseErrors s |}.

Definition incHttpErrors (s : Stats) : Stats :=
  {| labelsTotal := labelsTotal s; labelsProcessed := labelsProcessed s;
     candidatesTotal := candidatesTotal s; albumsFetched := albumsFetched s;
     accepted := accepted s; rejectedByGenre := rejectedByGenre s;
     rejectedByLength := rejectedByLength s;
     rejectedByDateMismatch := rejectedByDateMismatch s;
     missingAlbumDate := missingAlbumDate s;
     duplicatesRemoved := duplicatesRemoved s; httpErrors := httpErrors s + 1;
     parseErrors := parseErrors s |}.

Definition incParseErrors (s : Stats) : Stats :=
  {| labelsTotal := labelsTotal s; labelsProcessed := labelsProcessed s;
     candidatesTotal := candidatesTotal s; albumsFetched := albumsFetched s;
     accepted := accepted s; rejectedByGenre := rejectedByGenre s;
     rejectedByLength := rejectedByLength s;
     rejectedByDateMismatch := rejectedByDateMismatch s;
     missingAlbumDate := missingAlbumDate s;
     duplicatesRemoved := duplicatesRemoved s; httpErrors := httpErrors s;
     parseErrors := parseErrors s + 1 |}.

Definition setLabelsTotal (n : Z) (s : Stats) : Stats :=
  {| labelsTotal := n; labelsProcessed := labelsProcessed s;
     candidatesTotal := candidatesTotal s; albumsFetched := albumsFetched s;
     accepted := accepted s; rejectedByGenre := rejectedByGenre s;
     rejectedByLength := rejectedByLength s;
     rejectedByDateMismatch := rejectedByDateMismatch s;
     missingAlbumDate := missingAlbumDate s;
     duplicatesRemoved := duplicatesRemoved s; httpErrors := httpErrors s;
     parseErrors := parseErrors s |}.

Definition setCandidatesTotal (n : Z) (s : Stats) : Stats :=
  {| labelsTotal := labelsTotal s; labelsProcessed := labelsProcessed s;
     candidatesTotal := n; albumsFetched := albumsFetched s;
     accepted := accepted s; rejectedByGenre := rejectedByGenre s;
     rejectedByLength := rejectedByLength s;
     rejectedByDateMismatch := rejectedByDateMismatch s;
     missingAlbumDate := missingAlbumDate s;
     duplicatesRemoved := duplicatesRemoved s; httpErrors := httpErrors s;
     parseErrors := parseErrors s |}.

Definition setAccepted (n : Z) (s : Stats) : Stats :=
  {| labelsTotal := labelsTotal s; labelsProcessed := labelsProcessed s;
     candidatesTotal := candidatesTotal s; albumsFetched := albumsFetched s;
     accepted := n; rejectedByGenre := rejectedByGenre s;
     rejectedByLength := rejectedByLength s;
     rejectedByDateMismatch := rejectedByDateMismatch s;
     missingAlbumDate := missingAlbumDate s;
     duplicatesRemoved := duplicatesRemoved s; httpErrors := httpErrors s;
     parseErrors := parseErrors s |}.

(** A call that may throw. *)
Inductive exn (A : Type) :=
| Returns (a : A)
| Throws.
Arguments Returns {A} a.
Arguments Throws {A}.

(** [x || null] for a string [x]. *)
Definition orNull (s : str) : option str :=
  if nonEmpty s then Some s else None.

(** ** Fetch layer *)

Definition request (net : Network) (u : str) (st : RunState)
    : FetchOutcome * RunState :=
  (net (sent st) u,
   {| stats := stats st; sent := S (sent st);
      events := events st ++ [Request u] |}).

Definition sleep (ms : Z) (st : RunState) : RunState :=
  {| stats := stats st; sent := sent st; events := events st ++ [Sleep ms] |}.

(** The loop of [fetchHtml], [remaining] iterations before
    [attempt <= config.retries] fails; the code after the loop is the
    case [O]. *)
Fixpoint fetchAttempts (config : Config) (net : Network) (u : str)
    (remaining : nat) (attempt : Z) (st : RunState)
    : option Html * RunState :=
  let giveUp (st : RunState) := (@None Html, updStats incHttpErrors st) in
  match remaining with
  | O => giveUp st
  | S k =>
      let (outcome, st1) := request net u st in
      let caught (st : RunState) :=
        if attempt >? retries config then giveUp st
        else fetchAttempts config net u k (attempt + 1)
               (sleep (1000 * 2 ^ (attempt - 1)) st) in
      match outcome with
      | Rejects => caught st1
      | Responds status body =>
          if status =? 429 then
            fetchAttempts config net u k (attempt + 1)
              (sleep (2000 * 2 ^ (attempt - 1)) st1)
          else if (500 <=? status) && (status <? 600) then
            fetchAttempts config net u k (attempt + 1)
              (sleep (1000 * 2 ^ (attempt - 1)) st1)
          else if negb (status =? 200) then
            (None, updStats incHttpErrors st1)
          else
            match body with
            | Some html => (Some html, st1)
            | None => caught st1
            end
      end
  end.

Definition fetchHtml (config : Config) (net : Network) (u : str)
    (st : RunState) : option Html * RunState :=
  fetchAttempts config net u (Z.to_nat (retries config)) 1 st.

(** ** Listing pages *)

Definition albumPath : str := lit "/album/".

(** The [albumLinks] set of one container, as the list of its members in
    insertion order with repetitions. *)
Fixpoint albumLinksOf (links : list (str * option str)) : exn (list str) :=
  match links with
  | [] => Returns []
  | (h, full) :: rest =>
      if negb (includes h albumPath) then albumLinksOf rest
      else match full with
           | None => Throws
           | Some f =>
               match albumLinksOf rest with
               | Throws => Throws
               | Returns l => Returns (f :: l)
               end
           end
  end.

(** [albumLinks.size === 1 && albumLinks.has(albumUrl)] *)
Definition onlyLinkIs (albumUrl : str) (links : list str) : bool :=
  match links with
  | [] => false
  | _ => forallb (eqb albumUrl) links
  end.

Fixpoint extractListingReleaseDateForLink (chain : list Container)
    (albumUrl : str) (maxHops : nat) : exn (option Z) :=
  match maxHops, chain with
  | O, _ => Returns None
  | _, [] => Returns None
  | S hops, container :: parents =>
      match albumLinksOf (inner_links container) with
      | Throws => Throws
      | Returns albumLinks =>
          let up := extractListingReleaseDateForLink parents albumUrl hops in
          if onlyLinkIs albumUrl albumLinks then
            let txt := trim (collapseWhiteSpace (container_text container)) in
            match extractReleaseDateFromText txt with
            | Some rel => Returns (Some rel)
            | None => up
            end
          else up
      end
  end.

Fixpoint listingHasPage2 (links : list Anchor) : exn bool :=
  match links with
  | [] => Returns false
  | a :: rest =>
      match page2_path a with
      | None => Throws
      | Some true => Returns true
      | Some false =>
          if includes (href a) (lit "/page/2") then Returns true
          else listingHasPage2 rest
      end
  end.

(** The [each] loop of [extractAlbumCandidatesFromListing].  The counters
    are shared with the caller, so what was counted before an exception
    stays counted. *)
Fixpoint candidatesLoop (links : list Anchor) (labelName : str)
    (startDate endDate : Z) (candidates : list Candidate) (seen : list str)
    (st : Stats) : exn (list Candidate) * Stats :=
  match links with
  | [] => (Returns candidates, st)
  | link :: rest =>
      if negb (includes (href link) albumPath)
      then candidatesLoop rest labelName startDate endDate candidates seen st
      else
        match resolved link with
        | None => (Throws, st)
        | Some albumUrl =>
            if existsb (eqb albumUrl) seen
            then candidatesLoop rest labelName startDate endDate
                   candidates seen st
            else
              let seen := seen ++ [albumUrl] in
              let (rel, st) :=
                match extractListingReleaseDateForLink (climb link)
                        albumUrl 10 with
                | Returns r => (r, st)
                | Throws => (None, incParseErrors st)
                end in
              match rel with
              | None => candidatesLoop rest labelName startDate endDate
                          candidates seen st
              | Some rel =>
                  if (rel >=? startDate) && (rel <=? endDate)
                  then candidatesLoop rest labelName startDate endDate
                         (candidates ++
                          [{| album_url := albumUrl; label_name := labelName;
                              release_date_listing := rel |}]) seen st
                  else candidatesLoop rest labelName startDate endDate
                         candidates seen st
              end
        end
  end.

Definition extractAlbumCandidatesFromListing (page : ListingPage)
    (labelName : str) (startDate endDate : Z) (st : Stats)
    : exn (list Candidate * bool) * Stats :=
  match candidatesLoop (anchors page) labelName startDate endDate [] [] st with
  | (Throws, st) => (Throws, st)
  | (Returns candidates, st) =>
      match listingHasPage2 (anchors page) with
      | Throws => (Throws, st)
      | Returns hasPage2 => (Returns (candidates, hasPage2), st)
      end
  end.

(** ** Album pages, the filter, the deduplicator and the run

    [String.prototype.toLowerCase] follows the Unicode case tables, which
    are not part of the repository: it is a parameter of what follows.
    So are the two URL helpers, which only use the [URL] class. *)

Section Pipeline.

Variable toLowerCase : str -> str.
Variable normalizeLabelBase : str -> option str.
Variable buildLabelPageUrl : str -> Z -> str.

Definition normalizeKey (s : str) : str :=
  toLowerCase (collapseWhiteSpace (trim s)).

(** The [lines] of [parseAlbumReleaseDate]. *)
Definition textLines (text : str) : list str :=
  filter nonEmpty (map trim (splitRuns (fun c => c =? 10) text)).

(** The [lines] of [parseAlbumFirstGenre]. *)
Definition genreLines (text : str) : list str :=
  filter nonEmpty
    (map (fun l => trim (dropWhile isBulletChar l)) (textLines text)).

Definition aboutTheAlbum : str := lit "about the album".

(** [lines.slice(aboutIdx)] for the [aboutIdx] of [findIndex]. *)
Fixpoint fromAboutLine (lines : list str) : option (list str) :=
  match lines with
  | [] => None
  | line :: rest =>
      if eqb (toLowerCase line) aboutTheAlbum
         || includes (toLowerCase line) aboutTheAlbum
      then Some lines
      else fromAboutLine rest
  end.

(** The [raw] value of a line that mentions a genre; [None] is
    [continue]. *)
Definition genreRaw (line : str) : option str :=
  let cf := toLowerCase line in
  if includes line [58] then
    let left := beforeFirst [58] line in
    if negb (eqb (toLowerCase (trim left)) (lit "genre")) then None
    else Some (trim (collapseWhiteSpace (afterFirstColon line)))
  else
    if negb (startsWith cf (lit "genre")) then None
    else Some (trim (join [32] (tl (splitRuns isWhiteSpace line)))).

(** The [tags] collected from the lines after a genre line without a
    value. *)
Fixpoint collectTags (nexts : list str) : list str :=
  match nexts with
  | [] => []
  | next :: rest =>
      let n := trim next in
      if negb (nonEmpty n) then collectTags rest
      else if looksLikeHeading n || endsWithColon n then []
      else n :: collectTags rest
  end.

Definition genreDelimiters : list Z := [47; 44; 124; 8250; 62].

Fixpoint cutAtDelimiter (delims : list Z) (raw : str) : option str :=
  match delims with
  | [] => orNull (trim (beforeFirst [32] raw))
  | delim :: rest =>
      if includes raw [delim] then orNull (trim (beforeFirst [delim] raw))
      else cutAtDelimiter rest raw
  end.

(** What the loop returns for a non-empty [raw]. *)
Definition normalizeGenre (raw : str) : option str :=
  if startsWith (toLowerCase raw) (lit "classical") then Some (lit "Classical")
  else cutAtDelimiter genreDelimiters raw.

(** The [for] loop over [window], from the line at its head. *)
Fixpoint genreLoop (window : list str) : option str :=
  match window with
  | [] => None
  | line :: rest =>
      if negb (includes (toLowerCase line) (lit "genre")) then genreLoop rest
      else
        match genreRaw line with
        | None => genreLoop rest
        | Some [] =>
            match collectTags (firstn 9 rest) with
            | tag :: _ => orNull tag
            | [] => None
            end
        | Some raw => normalizeGenre raw
        end
  end.

Definition parseAlbumFirstGenre (rootText : str) : option str :=
  match fromAboutLine (genreLines rootText) with
  | None => None
  | Some fromAbout => genreLoop (firstn 160 fromAbout)
  end.

Fixpoint firstReleasedLine (lines : list str) : option Z :=
  match lines with
  | [] => None
  | line :: rest =>
      if testReleased false line then
        match extractReleaseDateFromText line with
        | Some parsed => Some parsed
        | None => firstReleasedLine rest
        end
      else firstReleasedLine rest
  end.

Definition parseAlbumReleaseDate (rootText : str) : option Z :=
  let lines := textLines rootText in
  match firstReleasedLine (firstn 120 lines) with
  | Some parsed => Some parsed
  | None => extractReleaseDateFromText (join [32] lines)
  end.

Definition extractTitle (page : AlbumPage) : str :=
  let h1 := trim (collapseWhiteSpace (h1_text page)) in
  if nonEmpty h1 then
    (if includes h1 (lit " by ") then trim (beforeFirst (lit " by ") h1)
     else h1)
  else [].

Definition isMainArtistsBlock (b : Block) : bool :=
  startsWith (toLowerCase (trim (collapseWhiteSpace (block_text b))))
    (lit "main artists:").

Definition extractMainArtists (page : AlbumPage) : str :=
  match find isMainArtistsBlock (blocks page) with
  | None => []
  | Some mainBlock =>
      let artists :=
        filter nonEmpty
          (map (fun a => trim (collapseWhiteSpace a))
             (block_anchor_texts mainBlock)) in
      match artists with
      | _ :: _ => join (lit ", ") artists
      | [] => trim (collapseWhiteSpace (afterFirstColon (block_text mainBlock)))
      end
  end.

Definition parseAlbumDetails (page : AlbumPage) : option AlbumDetails :=
  let title := extractTitle page in
  let mainArtists := extractMainArtists page in
  let pageText := root_text page in
  match matchTotalLength pageText with
  | None => None
  | Some m1 =>
      let totalHms := trim m1 in
      match hmsToSeconds totalHms with
      | None => None
      | Some totalSeconds =>
          if negb (nonEmpty title) && negb (nonEmpty mainArtists) then None
          else Some {| title := title;
                       main_artists := mainArtists;
                       total_length_hms := totalHms;
                       total_seconds := totalSeconds;
                       release_date_album := parseAlbumReleaseDate pageText;
                       genre_first := parseAlbumFirstGenre pageText |}
      end
  end.

(** *** The album loop *)

(** What the album loop keeps between candidates. *)
Record AlbumAcc := {
  acc_state : RunState;
  acc_accepted : list AcceptedRecord;
  acc_missingRows : list str
}.

Definition missingRow (cand : Candidate) (det : AlbumDetails) : str :=
  label_name cand ++ [9] ++ album_url cand ++ [9]
  ++ formatPlDate (release_date_listing cand) ++ [9]
  ++ title det ++ [9] ++ main_artists det.

Definition genreMatchesRoot (config : Config) (det : AlbumDetails) : bool :=
  let genre :=
    toLowerCase (trim (match genre_first det with
                       | Some g => g
                       | None => []
                       end)) in
  startsWith genre (toLowerCase (genre_root config)).

(** The genre and length stages and the push of the record, for a
    candidate whose final release date is settled. *)
Definition laterStages (config : Config) (cand : Candidate)
    (det : AlbumDetails) (finalRelease : Z) (acc : AlbumAcc) : AlbumAcc :=
  if negb (genreMatchesRoot config det) then
    {| acc_state := updStats incRejectedByGenre (acc_state acc);
       acc_accepted := acc_accepted acc;
       acc_missingRows := acc_missingRows acc |}
  else if total_seconds det <? min_minutes config * 60 then
    {| acc_state := updStats incRejectedByLength (acc_state acc);
       acc_accepted := acc_accepted acc;
       acc_missingRows := acc_missingRows acc |}
  else
    {| acc_state := acc_state acc;
       acc_accepted :=
         acc_accepted acc ++
         [{| rec_album_title := title det;
             rec_main_artists := main_artists det;
             rec_label := label_name cand;
             rec_album_url := album_url cand;
             rec_release_date := finalRelease |}];
       acc_missingRows := acc_missingRows acc |}.

(** The body of the album loop from [let finalRelease] on, for a
    candidate with parsed details. *)
Definition filterCandidate (config : Config) (cand : Candidate)
    (det : AlbumDetails) (acc : AlbumAcc) : AlbumAcc :=
  match release_date_album det with
  | None =>
      let finalRelease := release_date_listing cand in
      laterStages config cand det finalRelease
        {| acc_state := updStats incMissingAlbumDate (acc_state acc);
           acc_accepted := acc_accepted acc;
           acc_missingRows := acc_missingRows acc ++ [missingRow cand det] |}
  | Some finalRelease =>
      if (finalRelease <? date_from config) || (finalRelease >? date_to config)
      then
        {| acc_state := updStats incRejectedByDateMismatch (acc_state acc);
           acc_accepted := acc_accepted acc;
           acc_missingRows := acc_missingRows acc |}
      else laterStages config cand det finalRelease acc
  end.

Definition withState (st : RunState) (acc : AlbumAcc) : AlbumAcc :=
  {| acc_state := st; acc_accepted := acc_accepted acc;
     acc_missingRows := acc_missingRows acc |}.

(** [!html] *)
Definition usable (html : option Html) : option Html :=
  match html with
  | Some h => if html_empty h then None else Some h
  | None => None
  end.

Definition albumStep (config : Config) (net : Network) (cand : Candidate)
    (acc : AlbumAcc) : AlbumAcc :=
  let st := updStats incAlbumsFetched (acc_state acc) in
  let (html, st) := fetchHtml config net (album_url cand) st in
  let acc := withState st acc in
  match usable html with
  | None => acc
  | Some html =>
      match as_album html with
      | None => withState (updStats incParseErrors st) acc
      | Some page =>
          match parseAlbumDetails page with
          | None => acc
          | Some det => filterCandidate config cand det acc
          end
      end
  end.

Definition albumLoop (config : Config) (net : Network)
    (candidates : list Candidate) (acc : AlbumAcc) : AlbumAcc :=
  fold_left (fun acc cand => albumStep config net cand acc) candidates acc.

(** *** The listing loop *)

Record ListingAcc := {
  lst_state : RunState;
  lst_candidates : list Candidate;
  lst_seen : list str
}.

Definition candidateKey (cand : Candidate) : str :=
  album_url cand ++ lit "||" ++ label_name cand.

(** [extracted.candidates.forEach(...)] *)
Fixpoint mergeCandidates (extracted : list Candidate)
    (candidates : list Candidate) (seen : list str)
    : list Candidate * list str :=
  match extracted with
  | [] => (candidates, seen)
  | cand :: rest =>
      let key := candidateKey cand in
      if existsb (eqb key) seen then mergeCandidates rest candidates seen
      else mergeCandidates rest (candidates ++ [cand]) (seen ++ [key])
  end.

(** The loop over the pages of one label, [remaining] iterations before
    [page <= config.max_pages_per_label] fails. *)
Fixpoint pagesLoop (config : Config) (net : Network) (label : Label)
    (normalized : str) (remaining : nat) (page : Z) (acc : ListingAcc)
    : ListingAcc :=
  match remaining with
  | O => acc
  | S k =>
      if (page >? 1) && (max_pages_per_label config <=? 1) then acc
      else
        let pageUrl := buildLabelPageUrl normalized page in
        let (html, st) := fetchHtml config net pageUrl (lst_state acc) in
        let acc := {| lst_state := st; lst_candidates := lst_candidates acc;
                      lst_seen := lst_seen acc |} in
        let next := pagesLoop config net label normalized k (page + 1) in
        match usable html with
        | None => next acc
        | Some html =>
            let failed (s : Stats) :=
              next {| lst_state :=
                        {| stats := incParseErrors s; sent := sent st;
                           events := events st |};
                      lst_candidates := lst_candidates acc;
                      lst_seen := lst_seen acc |} in
            match as_listing html with
            | None => failed (stats st)
            | Some listing =>
                match extractAlbumCandidatesFromListing listing (name label)
                        (date_from config) (date_to config) (stats st) with
                | (Throws, s) => failed s
                | (Returns (extracted, hasPage2), s) =>
                    let (candidates, seen) :=
                      mergeCandidates extracted (lst_candidates acc)
                        (lst_seen acc) in
                    let acc := {| lst_state :=
                                    {| stats := s; sent := sent st;
                                       events := events st |};
                                  lst_candidates := candidates;
                                  lst_seen := seen |} in
                    if (page =? 1) && negb hasPage2 then acc else next acc
                end
            end
        end
  end.

(** The loop over the labels; [None] when [normalizeLabelBase] throws,
    which nothing catches. *)
Fixpoint labelsLoop (config : Config) (net : Network) (labels : list Label)
    (acc : ListingAcc) : option ListingAcc :=
  match labels with
  | [] => Some acc
  | label :: rest =>
      let acc := {| lst_state := updStats incLabelsProcessed (lst_state acc);
                    lst_candidates := lst_candidates acc;
                    lst_seen := lst_seen acc |} in
      match normalizeLabelBase (url label) with
      | None => None
      | Some normalized =>
          labelsLoop config net rest
            (pagesLoop config net label normalized
               (Z.to_nat (max_pages_per_label config)) 1 acc)
      end
  end.

(** *** Deduplication and output *)

Definition recordKey (record : AcceptedRecord) : str :=
  normalizeKey (rec_album_title record) ++ lit "||"
  ++ normalizeKey (rec_main_artists record) ++ lit "||"
  ++ normalizeKey (rec_label record).

(** [accepted.forEach(...)] of the deduplication. *)
Fixpoint dedupLoop (records : list AcceptedRecord)
    (dedup : list AcceptedRecord) (seen : list str) (st : Stats)
    : list AcceptedRecord * Stats :=
  match records with
  | [] => (dedup, st)
  | record :: rest =>
      let key := recordKey record in
      if existsb (eqb key) seen
      then dedupLoop rest dedup seen (incDuplicatesRemoved st)
      else dedupLoop rest (dedup ++ [record]) (seen ++ [key]) st
  end.

Definition deduplicate (records : list AcceptedRecord) (st : Stats)
    : list AcceptedRecord * Stats :=
  dedupLoop records [] [] st.

(** The files of a run that is not a dry run: the text of the link list,
    the rows of the sheet and the text of the missing-date report
    ([None]: the file is not written, and removed if it exists). *)
Record Outputs := {
  linksTxt : str;
  xlsxRows : list (list str);
  missingDatesTxt : option str
}.

Definition writeLinksTxt (links : list str) : str :=
  match links with
  | [] => []
  | _ => join [10] links ++ [10]
  end.

Definition writeXlsx (records : list AcceptedRecord) : list (list str) :=
  map (fun r => [rec_album_title r; rec_main_artists r; rec_label r;
                 rec_album_url r; formatPlDate (rec_release_date r)])
    records.

Definition missingHeader : str :=
  lit "label" ++ [9] ++ lit "album_url" ++ [9] ++ lit "listing_release_date"
  ++ [9] ++ lit "album_title" ++ [9] ++ lit "main_artists".

Definition writeMissing (missingRows : list str) : option str :=
  match missingRows with
  | [] => None
  | _ => Some (missingHeader ++ [10] ++ join [10] missingRows ++ [10])
  end.

Record RunResult := {
  run_stats : Stats;
  run_candidates : list Candidate;
  run_accepted : list AcceptedRecord;
  run_records : list AcceptedRecord;
  run_missingRows : list str;
  run_outputs : option Outputs;
  run_events : list Event
}.

(** [runQobuzScraper] from the loaded configuration and labels on;
    [None] when the run ends in an exception. *)
Definition runQobuzScraper (config : Config) (labels : list Label)
    (net : Network) (dryRun : bool) : option RunResult :=
  let st := {| stats := setLabelsTotal (Z.of_nat (List.length labels))
                          initialStats;
               sent := O; events := [] |} in
  match labelsLoop config net labels
          {| lst_state := st; lst_candidates := []; lst_seen := [] |} with
  | None => None
  | Some listed =>
      let candidates := lst_candidates listed in
      let st := updStats
                  (setCandidatesTotal (Z.of_nat (List.length candidates)))
                  (lst_state listed) in
      let acc := albumLoop config net candidates
                   {| acc_state := st; acc_accepted := [];
                      acc_missingRows := [] |} in
      let (dedup, s) := deduplicate (acc_accepted acc)
                          (stats (acc_state acc)) in
      let s := setAccepted (Z.of_nat (List.length dedup)) s in
      let outputs :=
        if dryRun then None
        else Some {| linksTxt := writeLinksTxt (map rec_album_url dedup);
                     xlsxRows := writeXlsx dedup;
                     missingDatesTxt := writeMissing (acc_missingRows acc) |} in
      Some {| run_stats := s;
              run_candidates := candidates;
              run_accepted := acc_accepted acc;
              run_records := dedup;
              run_missingRows := acc_missingRows acc;
              run_outputs := outputs;
              run_events := events (acc_state acc) |}
  end.

End Pipeline.

(** [toLowerCase] on strings of Basic Latin code units, for the concrete
    runs below. *)
Definition asciiToLowerCase (s : str) : str := map lowerAscii s.

End Scraper.

Import JS JSDate Scraper.

(** ** Vocabulary of the statements *)

(** *** The calendar *)

Definition isLeapYear (y : Z) : bool :=
  ((y mod 4 =? 0) && negb (y mod 100 =? 0)) || (y mod 400 =? 0).

(** Days of the month [m] (1 = January) of year [y]. *)
Definition daysInMonth (y m : Z) : Z :=
  if m =? 2 then (if isLeapYear y then 29 else 28)
  else if (m =? 4) || (m =? 6) || (m =? 9) || (m =? 11) then 30
  else 31.

(** [y]-[m]-[d] is a date of the calendar. *)
Definition validDate (y m d : Z) : bool :=
  (1 <=? m) && (m <=? 12) && (1 <=? d) && (d <=? daysInMonth y m).

(** The time value of midnight UTC of the calendar date [y]-[m]-[d]. *)
Definition civil (y m d : Z) : Z := MakeDate (MakeDay y (m - 1) d) 0.

(** Number of days of the year before the end of month [m] (0 = January). *)
Definition monthEnd (leap m : Z) : Z :=
  if m =? 11 then 365 + leap else monthStart leap (m + 1).

(** The day, month and year that a string of the form DD.MM.YYYY denotes. *)
Definition plFields (s : str) : option (Z * Z * Z) :=
  match s with
  | [d1; d2; p1; m1; m2; p2; y1; y2; y3; y4] =>
      if forallb isDigit [d1; d2; m1; m2; y1; y2; y3; y4]
         && (p1 =? 46) && (p2 =? 46)
      then Some (10 * (d1 - 48) + (d2 - 48),
                 10 * (m1 - 48) + (m2 - 48),
                 1000 * (y1 - 48) + 100 * (y2 - 48) + 10 * (y3 - 48)
                 + (y4 - 48))
      else None
  | _ => None
  end.

(** *** Groups of digits *)

Definition isDigits (n : nat) (s : str) : Prop :=
  List.length s = n /\ Forall (fun c => isDigit c = true) s.

Definition isDigits12 (s : str) : Prop := isDigits 1 s \/ isDigits 2 s.

(** The texts a duration can have, [a:b] or [a:b:c], with their groups. *)
Inductive HmsShape : str -> str -> str -> option str -> Prop :=
| Hms2 a b :
    isDigits12 a -> isDigits 2 b -> HmsShape (a ++ [58] ++ b) a b None
| Hms3 a b c :
    isDigits12 a -> isDigits 2 b -> isDigits 2 c ->
    HmsShape (a ++ [58] ++ b ++ [58] ++ c) a b (Some c).

(** The page text has the duration [g] after the words "Total length:",
    in any letter case, and optional white space. *)
Definition durationIn (text g : str) : Prop :=
  exists pre label ws post,
    text = pre ++ label ++ ws ++ g ++ post /\
    map lowerAscii label = lit "total length:" /\
    forallb isWhiteSpace ws = true.

(** The year group of a numeric date, and the year it means. *)
Definition isYearDigits (y : str) : Prop :=
  (2 <= List.length y <= 4)%nat /\ Forall (fun c => isDigit c = true) y.

Definition numericYear (y : str) : Z :=
  if numberOfDigits y <? 100 then 2000 + numberOfDigits y
  else numberOfDigits y.

(** The text [a/b/y]. *)
Definition numericDateText (a b y : str) : str :=
  a ++ [47] ++ b ++ [47] ++ y.

Definition isDateChar (c : Z) : bool := isDigit c || (c =? 47).

(** *** Release phrases *)

(** [p] occurs in [s] at offset [i], in any letter case. *)
Definition occursCI (p s : str) (i : nat) : Prop :=
  matchLitCI p (skipn i s) <> None.

(** Whether the code unit before the rest of a text is a word character,
    having read [pre] after a previous one that was or was not. *)
Fixpoint wordBefore (prevWord : bool) (pre : str) : bool :=
  match pre with
  | [] => prevWord
  | c :: r => wordBefore (isWordChar c) r
  end.

Definition phraseMay : str := lit "Released on May 3, 2024".

Definition releasedOn : str := lit "Released on ".

(** A date "Month D, YYYY" stands at the head of [s]: a token of letters
    and points, a space, one or two digits, a comma, a space and four
    digits. *)
Definition monthDateAt (s : str) : Prop :=
  exists tok d y rest,
    s = tok ++ [32] ++ d ++ [44; 32] ++ y ++ rest /\
    tok <> [] /\ Forall (fun c => isMonthTokenChar c = true) tok /\
    isDigits12 d /\ isDigits 4 y.

(** [s] has a phrase "Released by ... on Month D, YYYY", in any letter
    case: "released by ", somewhere after it " on ", and a date right
    after that. *)
Definition releasedByOnDate (s : str) : Prop :=
  exists i j,
    occursCI (lit "released by ") s i /\ (i + 12 <= j)%nat /\
    occursCI (lit " on ") s j /\ monthDateAt (skipn (j + 4) s).

(** *** Genres *)





(** *** The run *)

Definition inRange (config : Config) (d : Z) : Prop :=
  date_from config <= d <= date_to config.

(** The conditions of the three filter stages. *)
Definition dateMismatch (config : Config) (det : AlbumDetails) : bool :=
  match release_date_album det with
  | Some d => (d <? date_from config) || (d >? date_to config)
  | None => false
  end.

Definition tooShort (config : Config) (det : AlbumDetails) : bool :=
  total_seconds det <? min_minutes config * 60.

Definition finalReleaseOf (cand : Candidate) (det : AlbumDetails) : Z :=
  match release_date_album det with
  | Some d => d
  | None => release_date_listing cand
  end.

Definition acceptedRecordOf (cand : Candidate) (det : AlbumDetails)
    : AcceptedRecord :=
  {| rec_album_title := title det; rec_main_artists := main_artists det;
     rec_label := label_name cand; rec_album_url := album_url cand;
     rec_release_date := finalReleaseOf cand det |}.

(** How much the three rejection counters grew from [s] to [s']: date
    mismatch, genre, length. *)
Definition rejections (s s' : Stats) : Z * Z * Z :=
  (rejectedByDateMismatch s' - rejectedByDateMismatch s,
   rejectedByGenre s' - rejectedByGenre s,
   rejectedByLength s' - rejectedByLength s).

(** [s'] has the value of [s] at every counter of [fields]. *)
Definition keeps (fields : list (Stats -> Z)) (s s' : Stats) : Prop :=
  forall f, In f fields -> f s' = f s.

(** Counters that the fetch layer leaves alone. *)
Definition notHttp : list (Stats -> Z) :=
  [labelsTotal; labelsProcessed; candidatesTotal; albumsFetched; accepted;
   rejectedByGenre; rejectedByLength; rejectedByDateMismatch;
   missingAlbumDate; duplicatesRemoved; parseErrors].

(** Counters that only the album loop and the deduplicator change. *)
Definition albumCounters : list (Stats -> Z) :=
  [rejectedByGenre; rejectedByLength; rejectedByDateMismatch;
   missingAlbumDate; duplicatesRemoved].

(** What the album loop maintains: the count of duplicates stays what it
    was, and the missing-date report has one line per counted fallback. *)
Definition albumInvariant (dups : Z) (acc : AlbumAcc) : Prop :=
  duplicatesRemoved (stats (acc_state acc)) = dups /\
  missingAlbumDate (stats (acc_state acc))
  = Z.of_nat (List.length (acc_missingRows acc)).

Section StatementsOverCase.

Variable toLowerCase : str -> str.

(** The deduplication as the specification words it: a record is kept
    exactly when no earlier record of the list has its key. *)
Fixpoint keepFirst (earlier records : list AcceptedRecord)
    : list AcceptedRecord :=
  match records with
  | [] => []
  | r :: rest =>
      if existsb (fun e => eqb (recordKey toLowerCase r)
                             (recordKey toLowerCase e)) earlier
      then keepFirst (earlier ++ [r]) rest
      else r :: keepFirst (earlier ++ [r]) rest
  end.

(** The keys in [seen] are the keys of the records in [earlier]. *)
Definition sameKeys (seen : list str) (earlier : list AcceptedRecord) : Prop :=
  forall k, existsb (eqb k) seen
            = existsb (fun e => eqb k (recordKey toLowerCase e)) earlier.


(** The details pass the genre stage: their first genre, the empty string
    when there is none, trimmed and in lower case, starts with the genre
    root in lower case. *)
Definition genreInRoot (config : Config) (det : AlbumDetails) : Prop :=
  exists rest,
    toLowerCase (trim (match genre_first det with
                       | Some g => g
                       | None => []
                       end))
    = toLowerCase (genre_root config) ++ rest.

End StatementsOverCase.

(** ** A small run

    One label, one listing page with two albums dated 2024-01-10 and
    2024-02-15, a range of January 2024, and an album page without a
    release date. *)

Definition exConfig : Config :=
  {| date_from := civil 2024 1 1; date_to := civil 2024 1 31;
     min_minutes := 15; max_pages_per_label := 2; retries := 3;
     timeout_ms := 20000; genre_root := lit "Classical";
     accept_language := lit "en-US,en;q=0.9";
     user_agent := lit "ElectronQobuzScraper/1.0" |}.

Definition exLabels : list Label :=
  [{| name := lit "Alpha"; url := lit "https://example.com/label/alpha" |}].

Definition exAnchor (path text : string) : Anchor :=
  let full := lit "https://example.com" ++ lit path in
  {| href := lit path;
     resolved := Some full;
     climb := [ {| inner_links := []; container_text := lit "Album" |};
                {| inner_links := [(lit path, Some full)];
                   container_text := lit text |} ];
     page2_path := Some false |}.

Definition exListing : ListingPage :=
  {| anchors :=
       [ exAnchor "/album/a1" "Album  one Released on January 10, 2024";
         exAnchor "/album/a2" "Album two Released on 2/15/24" ] |}.

Definition exAlbumText : str :=
  lit "Sonatas" ++ [10] ++ lit "Total length: 00:45:10" ++ [10]
  ++ lit "About the album" ++ [10] ++ lit "Genre: Classical/Chamber Music"
  ++ [10] ++ lit "Label: Alpha".

Definition exAlbum : AlbumPage :=
  {| h1_text := lit "Sonatas by Someone";
     blocks := [ {| block_text := lit "Main artists: Someone";
                    block_anchor_texts := [lit "Someone"] |} ];
     root_text := exAlbumText |}.

Definition exHtml : Html :=
  {| html_empty := false; as_listing := Some exListing;
     as_album := Some exAlbum |}.

(** A remote side that answers every request with status 200. *)
Definition exNet : Network := fun _ _ => Responds 200 (Some exHtml).

Definition exNormalize (u : str) : option str := Some u.

Definition exBuildPage (base : str) (page : Z) : str :=
  if page >? 1 then base ++ lit "/page/" ++ stringOfInt page else base.

Definition exCandidate : Candidate :=
  {| album_url := lit "https://example.com/album/a1";
     label_name := lit "Alpha";
     release_date_listing := civil 2024 1 10 |}.

Definition exState : RunState :=
  {| stats := initialStats; sent := O; events := [] |}.

Definition exAcc : AlbumAcc :=
  {| acc_state := exState; acc_accepted := []; acc_missingRows := [] |}.

(** Album pages with a two-part duration, and with a genre on the line
    after the genre line. *)
Definition exShortAlbum : AlbumPage :=
  {| h1_text := lit "Preludes"; blocks := [];
     root_text := lit "Total length: 1:30" |}.


(** A text with an earlier release phrase before the phrase of May. *)
Definition exTwoPhrases : str :=
  lit "Released by X on Jan 1, 2020. Released on May 3, 2024".

Definition exRun : option RunResult :=
  runQobuzScraper asciiToLowerCase exNormalize exBuildPage exConfig exLabels
    exNet false.

(** What [parseAlbumDetails] makes of [exAlbum]. *)
Definition exDetails : AlbumDetails :=
  {| title := lit "Sonatas";
     main_artists := lit "Someone";
     total_length_hms := lit "00:45:10";
     total_seconds := 2710;
     release_date_album := None;
     genre_first := Some (lit "Classical") |}.

(** Details with a release date, a genre and a length of choice, and what
    the filter counts for details from the empty state of the small
    run. *)
Definition exDetailsOf (date : option Z) (genre : string) (secs : Z)
    : AlbumDetails :=
  {| title := lit "Sonatas";
     main_artists := lit "Someone";
     total_length_hms := lit "00:10:00";
     total_seconds := secs;
     release_date_album := date;
     genre_first := Some (lit genre) |}.

Definition exFiltered (det : AlbumDetails) : AlbumAcc :=
  filterCandidate asciiToLowerCase exConfig exCandidate det exAcc.

Definition exCounted (det : AlbumDetails) : Z * Z * Z :=
  rejections (stats (acc_state exAcc)) (stats (acc_state (exFiltered det))).

(** A text with the phrase of May before a phrase "Released by ... on"
    that has no date. *)
Definition exPhraseThenLabel : str :=
  lit "New:  Released on May 3, 2024. Released by Alpha on vinyl.".

(** An album page with a duration and neither a title nor artists. *)
Definition exUntitledAlbum : AlbumPage :=
  {| h1_text := []; blocks := [];
     root_text := lit "Total length: 00:45:10" |}.

(** The configuration of the small run with [retries = 0]. *)
Definition exConfigNoRetries : Config :=
  {| date_from := date_from exConfig; date_to := date_to exConfig;
     min_minutes := min_minutes exConfig;
     max_pages_per_label := max_pages_per_label exConfig;
     retries := 0;
     timeout_ms := timeout_ms exConfig; genre_root := genre_root exConfig;
     accept_language := accept_language exConfig;
     user_agent := user_agent exConfig |}.

(** Two records that differ in letter case and white space only, and a
    third one. *)
Definition exRecord (t a : string) : AcceptedRecord :=
  {| rec_album_title := lit t; rec_main_artists := lit a;
     rec_label := lit "Alpha";
     rec_album_url := lit "https://example.com/album/a1";
     rec_release_date := civil 2024 1 10 |}.

Definition exRecords : list AcceptedRecord :=
  [ exRecord "Piano Sonatas" "Someone"; exRecord "Other" "Someone";
    exRecord "  PIANO   SONATAS " "someone"; exRecord " piano sonatas" "SOMEONE " ].

(** ** Vocabulary of the further statements *)

(** [t] is midnight UTC of a date of the calendar with a year from 100 to
    9999. *)
Definition isCalendarDate (t : Z) : Prop :=
  exists y m d, validDate y m d = true /\ 100 <= y <= 9999 /\ t = civil y m d.

(** *** The fetch layer *)

(** The base delay of an outcome after which [fetchHtml] tries again:
    2000 ms for status 429, 1000 ms for a status 5xx and for a rejected
    [fetch] or [text()]; [None] for an outcome that ends the call. *)
Definition backoffBase (o : FetchOutcome) : option Z :=
  match o with
  | Rejects => Some 1000
  | Responds status body =>
      if status =? 429 then Some 2000
      else if (500 <=? status) && (status <? 600) then Some 1000
      else if status =? 200 then
        match body with
        | Some _ => None
        | None => Some 1000
        end
      else None
  end.

(** The outcomes of the requests from the [from]-th on are retried, with
    the base delays [bases]. *)
Definition retried (net : Network) (u : str) (from : nat) (bases : list Z)
    : Prop :=
  forall j b, nth_error bases j = Some b ->
              backoffBase (net (from + j)%nat u) = Some b.

(** A request and a sleep of [b * 2 ^ k] for each base [b], [k] counting
    up from [k0]. *)
Fixpoint backoffSchedule (u : str) (k0 : Z) (bases : list Z) : list Event :=
  match bases with
  | [] => []
  | b :: rest =>
      Request u :: Sleep (b * 2 ^ k0) :: backoffSchedule u (k0 + 1) rest
  end.

Definition isRequest (e : Event) : bool :=
  match e with
  | Request _ => true
  | Sleep _ => false
  end.

(** Number of requests among the events. *)
Definition requestsIn (events : list Event) : nat :=
  List.length (filter isRequest events).

(** A remote side that answers 429 twice, then 503, then 200, then 404. *)
Definition exNet429 : Network :=
  fun n _ => if (n <? 2)%nat then Responds 429 None
             else if (n =? 2)%nat then Responds 503 None
             else if (n =? 3)%nat then Responds 200 (Some exHtml)
             else Responds 404 None.


(** *** Counters of a run *)

(** Counters that the listing phase changes only through
    [labelsProcessed]: all but the two error counters. *)
Definition listingKept : list (Stats -> Z) :=
  [labelsTotal; labelsProcessed; candidatesTotal; albumsFetched; accepted;
   rejectedByGenre; rejectedByLength; rejectedByDateMismatch;
   missingAlbumDate; duplicatesRemoved].

(** Counters that the listing loop over the labels leaves alone. *)
Definition labelsKept : list (Stats -> Z) :=
  [labelsTotal; candidatesTotal; albumsFetched; accepted;
   rejectedByGenre; rejectedByLength; rejectedByDateMismatch;
   missingAlbumDate; duplicatesRemoved].

(** Counters that the album loop leaves alone. *)
Definition albumKept : list (Stats -> Z) :=
  [labelsTotal; labelsProcessed; candidatesTotal; accepted;
   duplicatesRemoved].

(** The verdicts counted so far: records accepted and candidates
    rejected at one of the three stages. *)
Definition verdicts (acc : AlbumAcc) : Z :=
  Z.of_nat (List.length (acc_accepted acc))
  + rejectedByGenre (stats (acc_state acc))
  + rejectedByLength (stats (acc_state acc))
  + rejectedByDateMismatch (stats (acc_state acc)).

(** What the album loop maintains about its counters, [n] candidates
    after a start from zero. *)
Definition albumTally (n : Z) (acc : AlbumAcc) : Prop :=
  albumsFetched (stats (acc_state acc)) = n /\
  verdicts acc <= n /\
  Z.of_nat (List.length (acc_missingRows acc)) <= n /\
  0 <= rejectedByGenre (stats (acc_state acc)) /\
  0 <= rejectedByLength (stats (acc_state acc)) /\
  0 <= rejectedByDateMismatch (stats (acc_state acc)).

(** The keys in [seen] are the keys of [candidates], each once. *)
Definition candidatesSeen (candidates : list Candidate) (seen : list str)
    : Prop :=
  (forall k, existsb (eqb k) seen = true
             <-> In k (map candidateKey candidates)) /\
  NoDup (map candidateKey candidates).

(** The events hold as many requests as the count of requests sent. *)
Definition tracked (st : RunState) : Prop := requestsIn (events st) = sent st.

(** What the listing loops do to the state from [base] to [acc], over at
    most [pages] fetched pages. *)
Definition listingInv (config : Config) (base : ListingAcc) (pages : nat)
    (acc : ListingAcc) : Prop :=
  keeps listingKept (stats (lst_state base)) (stats (lst_state acc)) /\
  (tracked (lst_state base) -> tracked (lst_state acc)) /\
  (sent (lst_state acc)
   <= sent (lst_state base) + pages * Z.to_nat (retries config))%nat /\
  (candidatesSeen (lst_candidates base) (lst_seen base) ->
   candidatesSeen (lst_candidates acc) (lst_seen acc)).

(** *** Listing pages *)

(** The listing date [rel] of the album at [u] was read under the link
    [a]: from the text of one of the ten nearest containers of [a], in
    which every album link resolves to [u]. *)
Definition datedBy (a : Anchor) (u : str) (rel : Z) : Prop :=
  exists c links,
    In c (firstn 10 (climb a)) /\
    albumLinksOf (inner_links c) = Returns links /\
    onlyLinkIs u links = true /\
    extractReleaseDateFromText (trim (collapseWhiteSpace (container_text c)))
    = Some rel.

(** What a candidate of a listing page is: an album link of the page, the
    label of the page, and a listing date read under that link, inside
    the range. *)
Definition candidateOf (page : ListingPage) (labelName : str) (lo hi : Z)
    (c : Candidate) : Prop :=
  label_name c = labelName /\
  lo <= release_date_listing c <= hi /\
  exists a, In a (anchors page) /\
            includes (href a) albumPath = true /\
            resolved a = Some (album_url c) /\
            datedBy a (album_url c) (release_date_listing c).

(** Each line of a text file followed by a line feed. *)
Definition linesOf (lines : list str) : str :=
  List.concat (map (fun l => l ++ [10]) lines).

(** *** Where the records of a run come from *)

(** A candidate found for one of [labels], with a date of the calendar
    as its listing date. *)
Definition candidateFrom (labels : list Label) (c : Candidate) : Prop :=
  In (label_name c) (map name labels) /\
  isCalendarDate (release_date_listing c).

(** A record made from one of [candidates]: it has the URL and the label
    of a candidate, the label is one of [labels], its release date is a
    date of the calendar, and it has a title or main artists. *)
Definition recordFrom (labels : list Label) (candidates : list Candidate)
    (record : AcceptedRecord) : Prop :=
  (exists cand, In cand candidates /\
                rec_album_url record = album_url cand /\
                rec_label record = label_name cand) /\
  In (rec_label record) (map name labels) /\
  isCalendarDate (rec_release_date record) /\
  (rec_album_title record <> [] \/ rec_main_artists record <> []).

(** *** Dates with the month in letters *)

(** A month token: letters and points, a letter among them. *)
Definition isMonthToken (tok : str) : Prop :=
  Forall (fun c => isMonthTokenChar c = true) tok /\
  normalizeMonthToken tok <> [].

(** The text "token d, y". *)
Definition englishDateText (tok d y : str) : str :=
  tok ++ [32] ++ d ++ [44; 32] ++ y.

(** The month that a token stands for, from 0: the one whose English
    name starts with the first three letters of the token, in any letter
    case. *)
Definition monthOfToken (tok : str) : option Z :=
  monthIndex (map lowerAscii (firstn 3 (normalizeMonthToken tok))).

(** ** The loaders of the labels and of the configuration

    [parseLabelsFile] and [parseInputConfig] from the text of the file on;
    a file that does not exist is [None]. *)

(** What [makeError] attaches to an error: nothing, the number of a line,
    or the name of a key or field. *)
Inductive Details :=
| NoDetails
| AtLine (line : nat)
| AtKey (key : str).

Inductive loaded (A : Type) :=
| Loaded (a : A)
| Failed (code : ErrorCode) (details : Details).
Arguments Loaded {A} a.
Arguments Failed {A} code details.

Definition consHead (c : Z) (parts : list str) : list str :=
  match parts with
  | [] => [[c]]
  | p :: rest => (c :: p) :: rest
  end.

(** [raw.split(/\r?\n/)]: a line feed ends a piece, and takes a carriage
    return just before it along. *)
Fixpoint splitLines (s : str) : list str :=
  match s with
  | [] => [[]]
  | c :: r =>
      if c =? 10 then [] :: splitLines r
      else if (c =? 13) && startsWith r [10] then splitLines r
      else consHead c (splitLines r)
  end.

(** [s.indexOf(sep)]; [None] is [-1]. *)
Fixpoint indexOf (s sep : str) : option nat :=
  if startsWith s sep then Some O
  else match s with
       | [] => None
       | _ :: r => option_map S (indexOf r sep)
       end.

Definition isSome {A : Type} (o : option A) : bool :=
  match o with
  | Some _ => true
  | None => false
  end.

(** [/^https?:\/\//i.test(u)] *)
Definition isHttpUrl (u : str) : bool :=
  isSome (matchLitCI (lit "https://") u)
  || isSome (matchLitCI (lit "http://") u).

(** [line.split("#", 1)[0].trim()] *)
Definition cleanLine (line : str) : str := trim (beforeFirst [35] line).

(** What the callback of [forEach] does with a line: it returns early,
    adds an entry, or throws. *)
Inductive LineOutcome (A : Type) :=
| Skipped
| Entry (a : A)
| Invalid.
Arguments Skipped {A}.
Arguments Entry {A} a.
Arguments Invalid {A}.

Definition labelOfLine (line : str) : LineOutcome Label :=
  let clean := cleanLine line in
  if negb (nonEmpty clean) then Skipped
  else
    match indexOf clean (lit " - ") with
    | None => Invalid
    | Some pos =>
        let trimmedName := trim (firstn pos clean) in
        let trimmedUrl := trim (skipn (pos + 3) clean) in
        if negb (nonEmpty trimmedName) || negb (isHttpUrl trimmedUrl)
        then Invalid
        else Entry {| name := trimmedName; url := trimmedUrl |}
    end.

(** [lines.forEach(...)] of [parseLabelsFile], from the line at [index]. *)
Fixpoint labelsOfLines (lines : list str) (index : nat) (labels : list Label)
    : loaded (list Label) :=
  match lines with
  | [] => Loaded labels
  | line :: rest =>
      match labelOfLine line with
      | Skipped => labelsOfLines rest (S index) labels
      | Entry label => labelsOfLines rest (S index) (labels ++ [label])
      | Invalid => Failed INVALID_LABELS_LINE (AtLine (index + 1))
      end
  end.

Definition parseLabelsFile (file : option str) : loaded (list Label) :=
  match file with
  | None => Failed LABELS_FILE_NOT_FOUND NoDetails
  | Some raw => labelsOfLines (splitLines raw) 0 []
  end.

(** [clean.match(/^([^=]+?)\s*=\s*(.+)$/)]: the two groups.  Neither
    [[^=]] nor [\s] matches "=", so the "=" of the pattern is the first
    one of [clean].  The lazy first group is the shortest non-empty prefix
    that only white space separates from it.  After it, the greedy [\s*]
    takes all the white space and [(.+)] the rest, which must be free of
    line terminators; when nothing is left for [(.+)], [\s*] gives the
    last white-space unit back. *)
Definition matchKeyValue (clean : str) : option (str * str) :=
  match indexOf clean [61] with
  | None => None
  | Some O => None
  | Some i =>
      let before := firstn i clean in
      let m1 := match trimEnd before with
                | [] => firstn 1 before
                | p => p
                end in
      let after := skipn (S i) clean in
      match dropWhile isWhiteSpace after with
      | [] =>
          match rev after with
          | c :: _ => if isLineTerminator c then None else Some (m1, [c])
          | [] => None
          end
      | v => if existsb isLineTerminator v then None else Some (m1, v)
      end
  end.

(** [parsed[key]]: the object [parsed] as the list of its assignments,
    the latest first.  (An assignment to ["__proto__"] stores nothing in
    JavaScript; no key that the code reads is that one.) *)
Fixpoint lookup (key : str) (parsed : list (str * str)) : option str :=
  match parsed with
  | [] => None
  | (k, v) :: rest => if eqb key k then Some v else lookup key rest
  end.

(** [x || d] for a value [x] that is a string or [undefined]. *)
Definition orElse (x : option str) (d : str) : str :=
  match x with
  | Some (c :: v) => c :: v
  | _ => d
  end.

(** [!x] for a value [x] that is a string or [undefined]. *)
Definition falsy (x : option str) : bool :=
  match x with
  | Some (_ :: _) => false
  | _ => true
  end.

(** [s.replace(",", ".")] *)
Fixpoint replaceComma (s : str) : str :=
  match s with
  | [] => []
  | c :: r => if c =? 44 then 46 :: r else c :: replaceComma r
  end.

(** What the code asks of the result of [Number.parseFloat]: whether it
    is finite and whether it is below zero. *)
Inductive FloatClass :=
| NotFinite
| BelowZero
| AtLeastZero.

(** The configuration that [parseInputConfig] returns: the fields that
    the run reads and the name of the labels file. *)
Record InputConfig := {
  run_config : Config;
  labels_file : str
}.

Section Loaders.

(** [toNumber n] is the Number value of the integer [n], [None] when it
    is an infinity; [parseFloat] classifies the result of
    [Number.parseFloat]. *)
Variable toLowerCase : str -> str.
Variable toNumber : Z -> option Z.
Variable parseFloat : str -> FloatClass.

(** [raw.split(/\r?\n/).forEach(...)] of [parseInputConfig], from the
    line at [idx]. *)
Fixpoint parsedOfLines (lines : list str) (idx : nat)
    (parsed : list (str * str)) : loaded (list (str * str)) :=
  match lines with
  | [] => Loaded parsed
  | line :: rest =>
      let clean := cleanLine line in
      if negb (nonEmpty clean) then parsedOfLines rest (S idx) parsed
      else
        match matchKeyValue clean with
        | None => Failed INVALID_INPUT_LINE (AtLine (idx + 1))
        | Some (m1, m2) =>
            parsedOfLines rest (S idx)
              ((toLowerCase (trim m1), trim m2) :: parsed)
        end
  end.

(** [Number.parseInt(s, 10)]; [None] is NaN or an infinity. *)
Definition parseInt (s : str) : option Z :=
  let s := trimStart s in
  let (sign, s) := match s with
                   | c :: r => if c =? 45 then (-1, r)
                               else if c =? 43 then (1, r)
                               else (1, s)
                   | [] => (1, s)
                   end in
  match takeWhile isDigit s with
  | [] => None
  | digits => toNumber (sign * numberOfDigits digits)
  end.

(** [config[key]] for a key with the default [default]. *)
Definition rawValue (parsed : list (str * str)) (key default : string)
    : str :=
  match lookup (lit key) parsed with
  | Some v => v
  | None => lit default
  end.

(** One turn of the loop over [numSpec] for a key with [isInt]. *)
Definition intValue (parsed : list (str * str)) (key default : string)
    (min : Z) : loaded Z :=
  match parseInt (rawValue parsed key default) with
  | None => Failed INVALID_NUMERIC_VALUE (AtKey (lit key))
  | Some parsedValue =>
      if parsedValue <? min then Failed VALUE_OUT_OF_RANGE (AtKey (lit key))
      else Loaded parsedValue
  end.

(** One turn of the loop over [numSpec] for a key without [isInt], whose
    [min] is 0. *)
Definition floatValue (parsed : list (str * str)) (key default : string)
    : loaded unit :=
  match parseFloat (replaceComma (rawValue parsed key default)) with
  | NotFinite => Failed INVALID_NUMERIC_VALUE (AtKey (lit key))
  | BelowZero => Failed VALUE_OUT_OF_RANGE (AtKey (lit key))
  | AtLeastZero => Loaded tt
  end.

(** [String(config[key] || d).trim() || d] *)
Definition textValue (parsed : list (str * str)) (key default : string)
    : str :=
  orElse (Some (trim (orElse (Some (rawValue parsed key default))
                        (lit default))))
    (lit default).

(** [parsePlDate(parsed[key], key)] *)
Definition dateValue (parsed : list (str * str)) (key : string)
    : loaded Z :=
  match parsePlDate (orElse (lookup (lit key) parsed) []) with
  | Ok d => Loaded d
  | Throw code => Failed code (AtKey (lit key))
  end.

Definition bind {A B : Type} (x : loaded A) (f : A -> loaded B) : loaded B :=
  match x with
  | Loaded a => f a
  | Failed code details => Failed code details
  end.

Definition parseInputConfig (file : option str) : loaded InputConfig :=
  match file with
  | None => Failed INPUT_FILE_NOT_FOUND NoDetails
  | Some raw =>
      bind (parsedOfLines (splitLines raw) 0 []) (fun parsed =>
      if falsy (lookup (lit "date_from") parsed)
         || falsy (lookup (lit "date_to") parsed)
      then Failed MISSING_REQUIRED_KEYS NoDetails
      else
        bind (dateValue parsed "date_from") (fun from =>
        bind (dateValue parsed "date_to") (fun to =>
        let (from, to) := if from >? to then (to, from) else (from, to) in
        bind (intValue parsed "min_minutes" "15" 1) (fun minutes =>
        bind (floatValue parsed "delay_listing" "0.35") (fun _ =>
        bind (floatValue parsed "delay_album" "0.55") (fun _ =>
        bind (intValue parsed "max_pages_per_label" "2" 1) (fun pages =>
        bind (intValue parsed "retries" "3" 0) (fun tries =>
        bind (intValue parsed "timeout_ms" "20000" 1000) (fun timeout =>
        Loaded
          {| run_config :=
               {| date_from := from; date_to := to;
                  min_minutes := minutes;
                  max_pages_per_label := pages;
                  retries := tries;
                  timeout_ms := timeout;
                  genre_root := textValue parsed "genre_root" "Classical";
                  accept_language :=
                    textValue parsed "accept_language" "en-US,en;q=0.9";
                  user_agent :=
                    textValue parsed "user_agent" "ElectronQobuzScraper/1.0"
               |};
             labels_file :=
               textValue parsed "labels_file" "labels_scrapper.txt" |}
        )))))))))
  end.

End Loaders.

(** ** Vocabulary of the statements on the loaders *)

(** [s] does not start with white space. *)
Definition headOk (s : str) : Prop :=
  match s with
  | [] => True
  | c :: _ => isWhiteSpace c = false
  end.

(** A label as [parseLabelsFile] returns it: a name that is not empty, a
    URL that starts with "http://" or "https://" in any letter case,
    both without white space around them, without "#" and without a line
    feed. *)
Definition wellFormedLabel (l : Label) : Prop :=
  name l <> [] /\ trim (name l) = name l /\
  isHttpUrl (url l) = true /\ trim (url l) = url l /\
  (forall c, In c (name l ++ url l) -> c <> 35 /\ c <> 10).

(** A line that [parseLabelsFile] rejects: it is not blank once its
    comment is cut off, and it has no " - ", or what follows the first
    " - " does not start with "http://" or "https://". *)
Definition malformedLabelLine (line : str) : Prop :=
  cleanLine line <> [] /\
  forall pos, indexOf (cleanLine line) (lit " - ") = Some pos ->
              isHttpUrl (trim (skipn (pos + 3) (cleanLine line))) = false.

(** The line of the labels file for a label. *)
Definition renderLabel (l : Label) : str := name l ++ lit " - " ++ url l.

(** A label that its line determines: it is well formed, has no carriage
    return, and the first " - " of its line is the one after the name. *)
Definition printableLabel (l : Label) : Prop :=
  wellFormedLabel l /\
  (forall c, In c (name l ++ url l) -> c <> 13) /\
  includes (name l ++ lit " -") (lit " - ") = false.

(** A labels file with a comment, a blank line and two labels. *)
Definition exLabelsFile : str :=
  lit "# labels" ++ [13; 10] ++ [10]
  ++ lit "Alpha - https://example.com/label/alpha # main" ++ [10]
  ++ lit "  Harmonia Mundi  -  HTTP://example.com/label/hm".

(** The same file with a line that lacks the separator. *)
Definition exBadLabelsFile : str :=
  exLabelsFile ++ [10] ++ lit "Beta https://example.com/label/beta".

(** A line "key = value" of the input file, comment cut off and trimmed:
    a "=" after a key that is not empty, and after it a value that is
    more than white space and has no line terminator. *)
Definition keyValueLine (clean : str) : Prop :=
  exists key value,
    clean = key ++ [61] ++ value /\ key <> [] /\ ~ In 61 key /\
    trimStart value <> [] /\
    (forall c, In c (trimStart value) -> isLineTerminator c = false).

(** A line that [parseInputConfig] rejects. *)
Definition malformedInputLine (line : str) : Prop :=
  cleanLine line <> [] /\ ~ keyValueLine (cleanLine line).

(** The [n]-th of [lines] is the first that satisfies [bad]. *)
Definition firstWith (bad : str -> Prop) (lines : list str) (n : nat) : Prop :=
  (exists line, nth_error lines n = Some line /\ bad line) /\
  (forall i earlier, (i < n)%nat -> nth_error lines i = Some earlier ->
                     ~ bad earlier).

(** The Number value of an integer of magnitude up to 2^53, which is the
    integer; the examples have no larger one. *)
Definition smallToNumber (n : Z) : option Z :=
  if Z.abs n <=? 2 ^ 53 then Some n else None.

(** The class of [Number.parseFloat] on a plain numeral, as the examples
    have them: digits with at most one point after the first digit, maybe
    after a minus sign, and few enough not to round to zero. *)
Definition plainParseFloat (s : str) : FloatClass :=
  match s with
  | [] => NotFinite
  | c :: r =>
      if isDigit c then AtLeastZero
      else if (c =? 45) && isSome (hd_error (takeWhile isDigit r)) then
        if existsb (fun d => (49 <=? d) && (d <=? 57))
             (takeWhile (fun d => isDigit d || (d =? 46)) r)
        then BelowZero else AtLeastZero
      else NotFinite
  end.

(** An input file with the dates in reverse order, a key in capitals and
    a comment. *)
Definition exInputFile : str :=
  lit "# dates" ++ [10]
  ++ lit "date_from = 31.01.2024" ++ [13; 10]
  ++ lit "DATE_TO=01.01.2024" ++ [10]
  ++ lit "retries = 5 # more than the default" ++ [10]
  ++ lit "delay_album = 0,75".

(** The same file with a line without "=". *)
Definition exBadInputFile : str :=
  lit "min_minutes = none" ++ [10] ++ [10] ++ lit "retries 5" ++ [10]
  ++ exInputFile.

(** * Proofs *)

(** ** The calendar *)

Ltac zdiv := Z.to_euclidean_division_equations; lia.

Lemma DayFromYear_step y : DayFromYear (y + 1) = DayFromYear y + DaysInYear y.
Proof.
  unfold DayFromYear, DaysInYear.
  destruct (Z.eqb_spec (y mod 4) 0); destruct (Z.eqb_spec (y mod 100) 0);
  destruct (Z.eqb_spec (y mod 400) 0); cbn [negb]; zdiv.
Qed.

Lemma InLeapYear_isLeapYear y : InLeapYear y = if isLeapYear y then 1 else 0.
Proof.
  unfold InLeapYear, DaysInYear, isLeapYear.
  destruct (Z.eqb_spec (y mod 4) 0); destruct (Z.eqb_spec (y mod 100) 0);
  destruct (Z.eqb_spec (y mod 400) 0); cbn; try reflexivity; zdiv.
Qed.

Lemma DaysInYear_leap y : DaysInYear y = 365 + InLeapYear y.
Proof.
  unfold InLeapYear, DaysInYear.
  destruct (Z.eqb_spec (y mod 4) 0); destruct (Z.eqb_spec (y mod 100) 0);
  destruct (Z.eqb_spec (y mod 400) 0); cbn; reflexivity.
Qed.

Lemma InLeapYear_range y : InLeapYear y = 0 \/ InLeapYear y = 1.
Proof. unfold InLeapYear. destruct (DaysInYear y =? 366); auto. Qed.

Lemma DayFromYear_mono y1 y2 : y1 <= y2 -> DayFromYear y1 <= DayFromYear y2.
Proof. unfold DayFromYear. intros. zdiv. Qed.

Lemma YearFromDay_bounds d :
  DayFromYear (YearFromDay d) <= d < DayFromYear (YearFromDay d + 1).
Proof.
  unfold YearFromDay.
  set (y0 := 1970 + 400 * d / 146097).
  assert (H1: DayFromYear (y0 - 1) <= d) by (unfold DayFromYear, y0; zdiv).
  assert (H2: d < DayFromYear (y0 + 2)) by (unfold DayFromYear, y0; zdiv).
  destruct (Z.leb_spec (DayFromYear (y0 + 1)) d).
  - replace (y0 + 1 + 1) with (y0 + 2) by lia. lia.
  - destruct (Z.leb_spec (DayFromYear y0) d).
    + lia.
    + replace (y0 - 1 + 1) with y0 by lia. lia.
Qed.

Lemma YearFromDay_unique d y :
  DayFromYear y <= d < DayFromYear (y + 1) -> YearFromDay d = y.
Proof.
  intros H. pose proof (YearFromDay_bounds d) as B.
  destruct (Z.lt_trichotomy (YearFromDay d) y) as [L | [E | G]]; [ | exact E | ].
  - pose proof (DayFromYear_mono (YearFromDay d + 1) y ltac:(lia)). lia.
  - pose proof (DayFromYear_mono (y + 1) (YearFromDay d) ltac:(lia)). lia.
Qed.

Lemma Day_of_midnight day : Day (MakeDate day 0) = day.
Proof. unfold Day, MakeDate, msPerDay. zdiv. Qed.

Lemma month_cases m : 0 <= m <= 11 ->
  m = 0 \/ m = 1 \/ m = 2 \/ m = 3 \/ m = 4 \/ m = 5 \/ m = 6 \/
  m = 7 \/ m = 8 \/ m = 9 \/ m = 10 \/ m = 11.
Proof. lia. Qed.

Ltac split_ltb :=
  repeat match goal with
         | |- context [?a <? ?b] => destruct (Z.ltb_spec a b); try lia
         end.

Ltac split_eqb :=
  repeat match goal with
         | H : context [?a =? ?b] |- _ => destruct (Z.eqb_spec a b); try lia
         | |- context [?a =? ?b] => destruct (Z.eqb_spec a b); try lia
         end.

Lemma monthOfDayInYear_inv leap m x :
  (leap = 0 \/ leap = 1) -> 0 <= m <= 11 ->
  monthStart leap m <= x < monthEnd leap m ->
  monthOfDayInYear leap x = m.
Proof.
  intros Hl Hm Hx.
  unfold monthOfDayInYear, monthEnd, monthStart in *.
  split_eqb; split_ltb.
Qed.

Lemma monthOfDayInYear_range leap x :
  (leap = 0 \/ leap = 1) -> 0 <= x < 365 + leap ->
  let m := monthOfDayInYear leap x in
  0 <= m <= 11 /\ monthStart leap m <= x < monthEnd leap m.
Proof.
  intros Hl Hx. cbv zeta.
  unfold monthOfDayInYear, monthEnd, monthStart.
  split_ltb; split_eqb.
Qed.

Lemma monthEnd_daysInMonth y m :
  0 <= m <= 11 ->
  monthEnd (InLeapYear y) m = monthStart (InLeapYear y) m + daysInMonth y (m + 1).
Proof.
  intros Hm. rewrite InLeapYear_isLeapYear.
  unfold monthEnd, monthStart, daysInMonth.
  destruct (isLeapYear y); split_eqb; cbn [orb]; lia.
Qed.

(** Getters of a valid civil date. *)
Lemma getters_MakeDay y m d :
  0 <= m <= 11 -> 1 <= d <= daysInMonth y (m + 1) ->
  let t := MakeDate (MakeDay y m d) 0 in
  YearFromTime t = y /\ MonthFromTime t = m /\ DateFromTime t = d.
Proof.
  intros Hm Hd t.
  assert (Hday : Day t = DayFromYear y + monthStart (InLeapYear y) m + d - 1).
  { unfold t. rewrite Day_of_midnight. unfold MakeDay.
    replace (m / 12) with 0 by zdiv. replace (m mod 12) with m by zdiv.
    rewrite Z.add_0_r. reflexivity. }
  pose proof (monthEnd_daysInMonth y m Hm) as He.
  pose proof (InLeapYear_range y) as Hl.
  assert (Hs : 0 <= monthStart (InLeapYear y) m /\ monthEnd (InLeapYear y) m <= 365 + InLeapYear y).
  { unfold monthEnd, monthStart. split_eqb. }
  assert (Hy : YearFromTime t = y).
  { unfold YearFromTime. apply YearFromDay_unique.
    rewrite DayFromYear_step, DaysInYear_leap, Hday. lia. }
  assert (Hmo : MonthFromTime t = m).
  { unfold MonthFromTime, DayWithinYear. rewrite Hy, Hday.
    apply monthOfDayInYear_inv; auto. lia. }
  repeat split; auto.
  unfold DateFromTime, DayWithinYear. rewrite Hmo, Hy, Hday. lia.
Qed.

Lemma getters_range t :
  let y := YearFromTime t in
  let m := MonthFromTime t in
  0 <= m <= 11 /\ 1 <= DateFromTime t <= daysInMonth y (m + 1).
Proof.
  cbv zeta.
  pose proof (YearFromDay_bounds (Day t)) as B.
  rewrite DayFromYear_step, DaysInYear_leap in B.
  pose proof (InLeapYear_range (YearFromTime t)) as Hl.
  pose proof (monthOfDayInYear_range (InLeapYear (YearFromTime t)) (DayWithinYear t) Hl) as R.
  cbv zeta in R. fold (MonthFromTime t) in R.
  destruct R as [R1 R2].
  { unfold DayWithinYear, YearFromTime. lia. }
  split; [exact R1|].
  rewrite monthEnd_daysInMonth in R2 by exact R1.
  unfold DateFromTime. lia.
Qed.

(** ** Checked dates *)

Lemma isDigit_iff c : isDigit c = true <-> 48 <= c <= 57.
Proof. unfold isDigit. rewrite andb_true_iff, !Z.leb_le. tauto. Qed.

Lemma digit_not_space c : isDigit c = true -> isWhiteSpace c = false.
Proof.
  rewrite isDigit_iff. intros H. unfold isWhiteSpace.
  repeat match goal with
         | |- context [?a <=? ?b] => destruct (Z.leb_spec a b); try lia
         | |- context [?a =? ?b] => destruct (Z.eqb_spec a b); try lia
         end; reflexivity.
Qed.

Lemma checkedUTC_valid y mi d :
  100 <= y <= 9999 -> validDate y (mi + 1) d = true ->
  let t := MakeDate (MakeDay y mi d) 0 in
  checkedUTC y mi d = Some t /\
  YearFromTime t = y /\ MonthFromTime t = mi /\ DateFromTime t = d.
Proof.
  intros Hy Hv t. unfold validDate in Hv.
  rewrite !andb_true_iff, !Z.leb_le in Hv.
  destruct (getters_MakeDay y mi d) as (G1 & G2 & G3); [lia | lia |].
  fold t in G1, G2, G3. split; [| auto].
  unfold checkedUTC, UTC.
  replace ((0 <=? y) && (y <=? 99)) with false
    by (symmetry; apply andb_false_iff; right; apply Z.leb_gt; lia).
  fold t. unfold TimeClip.
  assert (Hb : Z.abs t <= 8640000000000000).
  { unfold t, MakeDate, MakeDay.
    replace (mi / 12) with 0 by zdiv. replace (mi mod 12) with mi by zdiv.
    rewrite !Z.add_0_r.
    assert (0 <= monthStart (InLeapYear y) mi <= 335).
    { pose proof (InLeapYear_range y). unfold monthStart. split_eqb. }
    assert (daysInMonth y (mi + 1) <= 31).
    { unfold daysInMonth. destruct (isLeapYear y); split_eqb; cbn [orb]; lia. }
    unfold msPerDay, DayFromYear. zdiv. }
  apply Z.leb_le in Hb. rewrite Hb, G1, G2, G3, !Z.eqb_refl. reflexivity.
Qed.

Lemma checkedUTC_some y mi d t :
  checkedUTC y mi d = Some t ->
  validDate y (mi + 1) d = true /\ ~ (0 <= y <= 99) /\
  t = MakeDate (MakeDay y mi d) 0 /\
  YearFromTime t = y /\ MonthFromTime t = mi /\ DateFromTime t = d.
Proof.
  unfold checkedUTC, UTC, TimeClip.
  set (yr := if (0 <=? y) && (y <=? 99) then 1900 + y else y).
  set (t0 := MakeDate (MakeDay yr mi d) 0).
  intros H.
  destruct (Z.abs t0 <=? 8640000000000000); [| discriminate].
  destruct ((YearFromTime t0 =? y) && (MonthFromTime t0 =? mi)
            && (DateFromTime t0 =? d)) eqn:E; [| discriminate].
  injection H as <-.
  rewrite !andb_true_iff, !Z.eqb_eq in E. destruct E as [[E1 E2] E3].
  pose proof (getters_range t0) as R. cbv zeta in R.
  rewrite E1, E2, E3 in R. destruct R as [R1 R2].
  assert (Hyr : yr = y).
  { pose proof (YearFromDay_bounds (Day t0)) as B.
    fold (YearFromTime t0) in B. rewrite E1 in B.
    unfold t0 in B. rewrite Day_of_midnight in B. unfold MakeDay in B.
    replace (mi / 12) with 0 in B by zdiv.
    replace (mi mod 12) with mi in B by zdiv. rewrite !Z.add_0_r in B.
    assert (0 <= monthStart (InLeapYear yr) mi).
    { pose proof (InLeapYear_range yr). unfold monthStart. split_eqb. }
    subst yr. destruct ((0 <=? y) && (y <=? 99)); [| reflexivity].
    pose proof (DayFromYear_mono (y + 1) (1900 + y) ltac:(lia)). lia. }
  assert (Hn : ~ (0 <= y <= 99)).
  { subst yr. destruct (Z.leb_spec 0 y); destruct (Z.leb_spec y 99);
      cbn [andb] in Hyr; lia. }
  unfold validDate. rewrite !andb_true_iff, !Z.leb_le.
  subst t0. rewrite Hyr in *. repeat split; auto; lia.
Qed.

Lemma checkedUTC_invalid y mi d :
  validDate y (mi + 1) d = false -> checkedUTC y mi d = None.
Proof.
  intros H. destruct (checkedUTC y mi d) eqn:E; [| reflexivity].
  apply checkedUTC_some in E. destruct E as [E _]. congruence.
Qed.

Lemma checkedUTC_two_digit_year y mi d :
  0 <= y <= 99 -> checkedUTC y mi d = None.
Proof.
  intros H. destruct (checkedUTC y mi d) eqn:E; [| reflexivity].
  apply checkedUTC_some in E. tauto.
Qed.

(** ** Digits and the format DD.MM.YYYY *)

Lemma digitsOf_lt10 f n acc :
  0 <= n < 10 -> digitsOf (S f) n acc = (48 + n) :: acc.
Proof.
  intros H. cbn [digitsOf].
  replace (n / 10) with 0 by zdiv. replace (n mod 10) with n by zdiv.
  reflexivity.
Qed.

Lemma digitsOf_ge10 f n acc :
  10 <= n -> digitsOf (S f) n acc = digitsOf f (n / 10) ((48 + n mod 10) :: acc).
Proof.
  intros H. cbn [digitsOf].
  destruct (Z.eqb_spec (n / 10) 0) as [E | E]; [exfalso; zdiv | reflexivity].
Qed.

Lemma stringOfInt_pad2 n :
  0 <= n <= 99 -> padStart2 (stringOfInt n) = [48 + n / 10; 48 + n mod 10].
Proof.
  intros H. unfold stringOfInt.
  destruct (Z.ltb_spec n 0); [lia |].
  destruct (Z_lt_le_dec n 10).
  - rewrite digitsOf_lt10 by lia. cbn [padStart2].
    replace (n / 10) with 0 by zdiv. replace (n mod 10) with n by zdiv.
    reflexivity.
  - pose proof (Z.log2_le_mono 10 n ltac:(lia)) as L.
    change (Z.log2 10) with 3 in L.
    destruct (Z.to_nat (Z.log2 n)) as [| f] eqn:E; [lia |].
    rewrite digitsOf_ge10 by lia. rewrite digitsOf_lt10 by zdiv.
    reflexivity.
Qed.

Lemma stringOfInt_4 n :
  1000 <= n <= 9999 ->
  stringOfInt n =
  [48 + n / 1000; 48 + (n / 100) mod 10; 48 + (n / 10) mod 10; 48 + n mod 10].
Proof.
  intros H. unfold stringOfInt.
  destruct (Z.ltb_spec n 0); [lia |].
  pose proof (Z.log2_le_mono 1000 n ltac:(lia)) as L.
  change (Z.log2 1000) with 9 in L.
  destruct (Z.to_nat (Z.log2 n)) as [| [| [| f]]] eqn:E; try lia.
  rewrite digitsOf_ge10 by lia.
  rewrite digitsOf_ge10 by zdiv.
  rewrite digitsOf_ge10 by zdiv.
  rewrite digitsOf_lt10 by zdiv.
  repeat (apply f_equal2; [zdiv |]). reflexivity.
Qed.

Lemma plFields_inv s d m y :
  plFields s = Some (d, m, y) ->
  exists d1 d2 m1 m2 y1 y2 y3 y4,
    s = [d1; d2; 46; m1; m2; 46; y1; y2; y3; y4] /\
    Forall (fun c => 48 <= c <= 57) [d1; d2; m1; m2; y1; y2; y3; y4] /\
    d = 10 * (d1 - 48) + (d2 - 48) /\
    m = 10 * (m1 - 48) + (m2 - 48) /\
    y = 1000 * (y1 - 48) + 100 * (y2 - 48) + 10 * (y3 - 48) + (y4 - 48).
Proof.
  unfold plFields.
  destruct s as [| d1 [| d2 [| p1 [| m1 [| m2 [| p2 [| y1 [| y2 [| y3 [| y4 [| ? ?]]]]]]]]]]];
    try discriminate.
  destruct (forallb isDigit _ && _ && _) eqn:E; [| discriminate].
  intros H; injection H as <- <- <-.
  rewrite !andb_true_iff, !Z.eqb_eq in E. destruct E as [[E1 ->] ->].
  exists d1, d2, m1, m2, y1, y2, y3, y4. repeat split; auto.
  rewrite forallb_forall in E1. apply Forall_forall.
  intros c Hc. apply isDigit_iff. auto.
Qed.

Lemma trimEnd_keep s c :
  isWhiteSpace c = false -> trimEnd (s ++ [c]) = s ++ [c].
Proof.
  intros H. unfold trimEnd. rewrite rev_app_distr. cbn [rev app dropWhile].
  rewrite H. cbn [rev]. rewrite rev_involutive. reflexivity.
Qed.

Lemma matchPlDate_fields s d m y :
  plFields s = Some (d, m, y) ->
  trim s = s /\
  exists a b c, matchPlDate s = Some (a, b, c) /\
    numberOfDigits a = d /\ numberOfDigits b = m /\ numberOfDigits c = y.
Proof.
  intros H. apply plFields_inv in H.
  destruct H as (d1 & d2 & m1 & m2 & y1 & y2 & y3 & y4 & -> & F & -> & -> & ->).
  assert (D : forallb isDigit [d1; d2; m1; m2; y1; y2; y3; y4] = true).
  { apply forallb_forall. rewrite Forall_forall in F. intros c Hc.
    apply isDigit_iff. auto. }
  split.
  - unfold trim, trimStart. cbn [dropWhile].
    rewrite digit_not_space
      by (apply isDigit_iff; inversion F; assumption).
    change [d1; d2; 46; m1; m2; 46; y1; y2; y3; y4]
      with ([d1; d2; 46; m1; m2; 46; y1; y2; y3] ++ [y4]).
    apply trimEnd_keep. apply digit_not_space, isDigit_iff.
    rewrite Forall_forall in F. apply F. cbn. tauto.
  - unfold matchPlDate. rewrite D. cbn [andb Z.eqb Pos.eqb].
    do 3 eexists. split; [reflexivity |].
    unfold numberOfDigits, digitVal. cbn [fold_left]. lia.
Qed.

(** ** Round trip of the configuration dates *)

Lemma formatPlDate_fields s d m y t :
  plFields s = Some (d, m, y) -> 1000 <= y ->
  YearFromTime t = y -> MonthFromTime t = m - 1 -> DateFromTime t = d ->
  formatPlDate t = s.
Proof.
  intros H Hy G1 G2 G3. apply plFields_inv in H.
  destruct H as (d1 & d2 & m1 & m2 & y1 & y2 & y3 & y4 & -> & F & -> & -> & ->).
  repeat match goal with
         | H : Forall _ (_ :: _) |- _ => inversion H; clear H; subst
         | H : Forall _ [] |- _ => clear H
         end.
  unfold formatPlDate. rewrite G1, G2, G3.
  rewrite !stringOfInt_pad2 by lia. rewrite stringOfInt_4 by lia.
  cbn [app].
  repeat (apply f_equal2; [zdiv |]). reflexivity.
Qed.

(** C8, amended: a string in the format DD.MM.YYYY that denotes a date of
    the calendar with a year from 1000 on is parsed to that date, formatting
    the result gives the string back, and parsing that again gives the same
    date; a string in the format that denotes no date of the calendar is
    rejected with an error. *)
Theorem parsePlDate_round_trip s d m y :
  plFields s = Some (d, m, y) ->
  (validDate y m d = true -> 1000 <= y ->
   exists t, parsePlDate s = Ok t /\
     YearFromTime t = y /\ MonthFromTime t = m - 1 /\ DateFromTime t = d /\
     formatPlDate t = s /\ parsePlDate (formatPlDate t) = Ok t) /\
  (validDate y m d = false -> parsePlDate s = Throw INVALID_DATE_FORMAT).
Proof.
  intros H.
  destruct (matchPlDate_fields s d m y H) as (Ht & a & b & c & Hm & <- & <- & <-).
  assert (Hp : parsePlDate s =
               match checkedUTC (numberOfDigits c) (numberOfDigits b - 1)
                       (numberOfDigits a) with
               | Some t => Ok t
               | None => Throw INVALID_DATE_FORMAT
               end).
  { unfold parsePlDate. rewrite Ht, Hm. reflexivity. }
  split.
  - intros Hv Hy.
    assert (Hy2 : numberOfDigits c <= 9999).
    { apply plFields_inv in H.
      destruct H as (d1 & d2 & m1 & m2 & y1 & y2 & y3 & y4 & _ & F & _ & _ & ->).
      repeat match goal with
             | H : Forall _ (_ :: _) |- _ => inversion H; clear H; subst
             end. lia. }
    destruct (checkedUTC_valid (numberOfDigits c) (numberOfDigits b - 1)
                (numberOfDigits a)) as (C & G1 & G2 & G3); [lia | |].
    { replace (numberOfDigits b - 1 + 1) with (numberOfDigits b) by lia.
      exact Hv. }
    set (t := MakeDate _ 0) in *.
    assert (Hf : formatPlDate t = s)
      by (eapply formatPlDate_fields; eauto).
    exists t. rewrite Hf, Hp, C. repeat split; auto.
  - intros Hv. rewrite Hp, checkedUTC_invalid; [reflexivity |].
    replace (numberOfDigits b - 1 + 1) with (numberOfDigits b) by lia.
    exact Hv.
Qed.

Lemma parsePlDate_round_trip_witness :
  exists t, parsePlDate (lit "29.02.2024") = Ok t /\
     YearFromTime t = 2024 /\ MonthFromTime t = 2 - 1 /\ DateFromTime t = 29 /\
     formatPlDate t = lit "29.02.2024" /\ parsePlDate (formatPlDate t) = Ok t.
Proof.
  apply (proj1 (parsePlDate_round_trip (lit "29.02.2024") 29 2 2024 eq_refl));
    [reflexivity | lia].
Defined.

(** C8 as stated fails below the year 1000: the year is printed without
    padding, and a year below 100 is taken by [Date.UTC] as 1900 + year. *)
Lemma parsePlDate_year_below_1000 :
  plFields (lit "01.01.0500") = Some (1, 1, 500) /\
  validDate 500 1 1 = true /\
  (exists t, parsePlDate (lit "01.01.0500") = Ok t /\
             formatPlDate t = lit "01.01.500" /\
             formatPlDate t <> lit "01.01.0500" /\
             parsePlDate (formatPlDate t) = Throw INVALID_DATE_FORMAT) /\
  plFields (lit "01.01.0050") = Some (1, 1, 50) /\
  validDate 50 1 1 = true /\
  parsePlDate (lit "01.01.0050") = Throw INVALID_DATE_FORMAT.
Proof.
  repeat split; try reflexivity.
  eexists. split; [vm_compute; reflexivity |].
  repeat split; try (vm_compute; reflexivity). vm_compute. discriminate.
Qed.

(** ** Durations and album details *)

Ltac app_norm := repeat (progress (rewrite <- ?app_assoc; cbn [app])).

Lemma isDigits_1 s : isDigits 1 s -> exists x, s = [x] /\ isDigit x = true.
Proof.
  intros [L F]. destruct s as [| x [| ? ?]]; try discriminate.
  exists x. inversion F; auto.
Qed.

Lemma isDigits_2 s :
  isDigits 2 s -> exists x y, s = [x; y] /\ isDigit x = true /\ isDigit y = true.
Proof.
  intros [L F]. destruct s as [| x [| y [| ? ?]]]; try discriminate.
  exists x, y. inversion F as [| ? ? ? F2]; inversion F2; auto.
Qed.

Lemma colon_not_digit : isDigit 58 = false.
Proof. reflexivity. Qed.

Lemma digits12_inv s a r :
  digits12 s = Some (a, r) ->
  s = a ++ r /\ isDigits12 a /\
  (isDigits 1 a -> match r with [] => True | c :: _ => isDigit c = false end).
Proof.
  unfold digits12, isDigits12, isDigits.
  destruct s as [| x [| y s']].
  - discriminate.
  - destruct (isDigit x) eqn:Ex; [| discriminate].
    intros H; injection H as <- <-. cbn. repeat split; auto.
  - destruct (isDigit x) eqn:Ex; [| discriminate].
    destruct (isDigit y) eqn:Ey; intros H; injection H as <- <-; cbn.
    + repeat split; auto. intros [? _]. discriminate.
    + repeat split; auto.
Qed.

Lemma digits12_app a c r :
  isDigits12 a -> isDigit c = false -> digits12 (a ++ c :: r) = Some (a, c :: r).
Proof.
  intros [H | H] Hc.
  - apply isDigits_1 in H. destruct H as (x & -> & Hx).
    cbn. rewrite Hx, Hc. reflexivity.
  - apply isDigits_2 in H. destruct H as (x & y & -> & Hx & Hy).
    cbn. rewrite Hx, Hy. reflexivity.
Qed.

Lemma digitsN_inv n s d r :
  digitsN n s = Some (d, r) -> s = d ++ r /\ isDigits n d.
Proof.
  unfold digitsN, isDigits.
  destruct ((List.length (firstn n s) =? n)%nat && forallb isDigit (firstn n s)) eqn:E;
    [| discriminate].
  intros H; injection H as <- <-.
  apply andb_true_iff in E. destruct E as [E1 E2].
  apply Nat.eqb_eq in E1. rewrite forallb_forall in E2.
  rewrite firstn_skipn. repeat split; auto. apply Forall_forall. auto.
Qed.

Lemma digitsN_app n d r :
  isDigits n d -> digitsN n (d ++ r) = Some (d, r).
Proof.
  intros [L F]. subst n. unfold digitsN.
  assert (E1 : firstn (List.length d) (d ++ r) = d).
  { rewrite firstn_app, Nat.sub_diag, firstn_all. cbn. apply app_nil_r. }
  assert (E2 : skipn (List.length d) (d ++ r) = r).
  { rewrite skipn_app, Nat.sub_diag, skipn_all. reflexivity. }
  rewrite E1, E2, Nat.eqb_refl.
  replace (forallb isDigit d) with true
    by (symmetry; apply forallb_forall; rewrite Forall_forall in F; auto).
  reflexivity.
Qed.

Lemma groupHms_inv s g :
  groupHms s = Some g ->
  exists post a b c, s = g ++ post /\ HmsShape g a b c.
Proof.
  unfold groupHms.
  destruct (digits12 s) as [[a r] |] eqn:D; [| discriminate].
  destruct r as [| c r]; [discriminate |].
  destruct (Z.eqb_spec c 58) as [-> | ?]; [| discriminate].
  apply digits12_inv in D. destruct D as (-> & Ha & _).
  destruct (digitsN 2 r) as [[b r2] |] eqn:D2; [| discriminate].
  apply digitsN_inv in D2. destruct D2 as (-> & Hb).
  assert (Two : exists post a0 b0 c0,
             a ++ 58 :: b ++ r2 = (a ++ [58] ++ b) ++ post /\
             HmsShape (a ++ [58] ++ b) a0 b0 c0).
  { exists r2, a, b, None. split; [| constructor; auto].
    app_norm. reflexivity. }
  destruct r2 as [| c2 r3].
  { intros H; injection H as <-. exact Two. }
  destruct (Z.eqb_spec c2 58) as [-> | ?].
  2:{ intros H; injection H as <-. exact Two. }
  destruct (digitsN 2 r3) as [[d r4] |] eqn:D3.
  2:{ intros H; injection H as <-. exact Two. }
  apply digitsN_inv in D3. destruct D3 as (-> & Hd).
  intros H; injection H as <-.
  exists r4, a, b, (Some d). split; [| constructor; auto].
  app_norm. reflexivity.
Qed.

Lemma isDigits12_head a : isDigits12 a -> exists x r, a = x :: r /\ isDigit x = true.
Proof.
  intros [H | H].
  - apply isDigits_1 in H. destruct H as (x & -> & ?). eauto.
  - apply isDigits_2 in H. destruct H as (x & y & -> & ? & ?). eauto.
Qed.

Lemma isDigits2_last b : isDigits 2 b -> exists r x, b = r ++ [x] /\ isDigit x = true.
Proof.
  intros H. apply isDigits_2 in H. destruct H as (x & y & -> & ? & ?).
  exists [x], y. auto.
Qed.

Lemma trim_keep x mid y :
  isWhiteSpace x = false -> isWhiteSpace y = false ->
  trim (x :: mid ++ [y]) = x :: mid ++ [y].
Proof.
  intros Hx Hy. unfold trim, trimStart. cbn [dropWhile]. rewrite Hx.
  change (x :: mid ++ [y]) with ((x :: mid) ++ [y]).
  apply trimEnd_keep. exact Hy.
Qed.

Lemma HmsShape_trim g a b c : HmsShape g a b c -> trim g = g.
Proof.
  intros H. destruct H as [a b Ha Hb | a b c Ha Hb Hc].
  - apply isDigits12_head in Ha. destruct Ha as (x & r & -> & Hx).
    apply isDigits2_last in Hb. destruct Hb as (r' & y & -> & Hy).
    replace ((x :: r) ++ [58] ++ r' ++ [y]) with (x :: (r ++ [58] ++ r') ++ [y])
      by (app_norm; reflexivity).
    apply trim_keep; apply digit_not_space; assumption.
  - apply isDigits12_head in Ha. destruct Ha as (x & r & -> & Hx).
    apply isDigits2_last in Hc. destruct Hc as (r' & y & -> & Hy).
    replace ((x :: r) ++ [58] ++ b ++ [58] ++ r' ++ [y])
      with (x :: (r ++ [58] ++ b ++ [58] ++ r') ++ [y])
      by (app_norm; reflexivity).
    apply trim_keep; apply digit_not_space; assumption.
Qed.

Lemma matchHms_shape g a b c :
  HmsShape g a b c -> matchHms g = Some (a, b, c).
Proof.
  intros H. destruct H as [a b Ha Hb | a b c Ha Hb Hc]; unfold matchHms.
  - cbn [app]. rewrite digits12_app by (auto; reflexivity).
    cbn [Z.eqb Pos.eqb].
    rewrite <- (app_nil_r b) at 1. rewrite digitsN_app by assumption.
    reflexivity.
  - cbn [app]. rewrite digits12_app by (auto; reflexivity).
    cbn [Z.eqb Pos.eqb].
    rewrite digitsN_app by assumption. cbn [Z.eqb Pos.eqb].
    rewrite <- (app_nil_r c) at 1. rewrite digitsN_app by assumption.
    reflexivity.
Qed.

Lemma hmsToSeconds_shape g a b c :
  HmsShape g a b c ->
  hmsToSeconds g =
  Some match c with
       | None => numberOfDigits a * 60 + numberOfDigits b
       | Some c => numberOfDigits a * 3600 + numberOfDigits b * 60
                   + numberOfDigits c
       end.
Proof.
  intros H. unfold hmsToSeconds.
  rewrite (HmsShape_trim _ _ _ _ H), (matchHms_shape _ _ _ _ H).
  destruct c; reflexivity.
Qed.

Lemma matchLitCI_inv p s r :
  matchLitCI p s = Some r ->
  exists l, s = l ++ r /\ map lowerAscii l = map lowerAscii p.
Proof.
  revert s. induction p as [| x p IH]; intros s H.
  - cbn in H. injection H as <-. exists []. auto.
  - destruct s as [| y s]; [discriminate |]. cbn in H.
    destruct (eqCI x y) eqn:E; [| discriminate].
    apply IH in H. destruct H as (l & -> & Hl).
    exists (y :: l). split; [reflexivity |]. cbn. rewrite Hl.
    unfold eqCI in E. apply Z.eqb_eq in E. rewrite E. reflexivity.
Qed.

Lemma takeWhile_dropWhile f s : takeWhile f s ++ dropWhile f s = s.
Proof.
  induction s as [| c s IH]; [reflexivity |]. cbn.
  destruct (f c); [cbn; rewrite IH |]; reflexivity.
Qed.

Lemma takeWhile_all f s : forallb f (takeWhile f s) = true.
Proof.
  induction s as [| c s IH]; [reflexivity |]. cbn.
  destruct (f c) eqn:E; [cbn; rewrite E, IH |]; reflexivity.
Qed.

Lemma matchTotalLength_inv s g :
  matchTotalLength s = Some g ->
  durationIn s g /\ exists a b c, HmsShape g a b c.
Proof.
  induction s as [| x s IH].
  - cbn. discriminate.
  - cbn [matchTotalLength].
    destruct (matchLitCI (lit "Total length:") (x :: s)) as [r |] eqn:M.
    + destruct (groupHms (dropWhile isWhiteSpace r)) as [g' |] eqn:G.
      * intros H; injection H as <-.
        apply matchLitCI_inv in M. destruct M as (l & -> & Hl).
        apply groupHms_inv in G. destruct G as (post & a & b & c & Hs & Sh).
        split; [| eauto].
        exists [], l, (takeWhile isWhiteSpace r), post.
        cbn [app]. rewrite <- Hs, takeWhile_dropWhile.
        repeat split; auto using takeWhile_all.
      * intros H. apply IH in H. destruct H as [(pre & label & ws & post & -> & ? & ?) ?].
        split; [| assumption]. exists (x :: pre), label, ws, post. auto.
    + intros H. apply IH in H. destruct H as [(pre & label & ws & post & -> & ? & ?) ?].
      split; [| assumption]. exists (x :: pre), label, ws, post. auto.
Qed.

Section AlbumDetails.
Variable toLowerCase : str -> str.

Lemma parseAlbumDetails_inv page det :
  parseAlbumDetails toLowerCase page = Some det ->
  exists m1 secs,
    matchTotalLength (root_text page) = Some m1 /\
    hmsToSeconds (trim m1) = Some secs /\
    (nonEmpty (extractTitle page) = true \/
     nonEmpty (extractMainArtists toLowerCase page) = true) /\
    det = {| title := extractTitle page;
             main_artists := extractMainArtists toLowerCase page;
             total_length_hms := trim m1;
             total_seconds := secs;
             release_date_album := parseAlbumReleaseDate (root_text page);
             genre_first := parseAlbumFirstGenre toLowerCase (root_text page) |}.
Proof.
  unfold parseAlbumDetails.
  destruct (matchTotalLength (root_text page)) as [m1 |] eqn:M; [| discriminate].
  destruct (hmsToSeconds (trim m1)) as [secs |] eqn:S; [| discriminate].
  destruct (nonEmpty (extractTitle page)) eqn:T;
    destruct (nonEmpty (extractMainArtists toLowerCase page)) eqn:A;
    cbn [negb andb]; try discriminate;
    intros H; injection H as <-; exists m1, secs; repeat split; auto.
Qed.

(** C7, amended: [parseAlbumDetails] returns nothing when the page text has
    no duration after "Total length:"; when it returns details, their
    duration text stands in the page text after "Total length:" and the
    seconds are first * 3600 + second * 60 + third for a duration of three
    parts, and first * 60 + second (minutes and seconds) for one of two
    parts. *)
Theorem parseAlbumDetails_duration page :
  (matchTotalLength (root_text page) = None ->
   parseAlbumDetails toLowerCase page = None) /\
  (forall det, parseAlbumDetails toLowerCase page = Some det ->
   durationIn (root_text page) (total_length_hms det) /\
   exists a b c, HmsShape (total_length_hms det) a b c /\
     total_seconds det =
     match c with
     | None => numberOfDigits a * 60 + numberOfDigits b
     | Some c => numberOfDigits a * 3600 + numberOfDigits b * 60
                 + numberOfDigits c
     end).
Proof.
  split.
  - intros H. unfold parseAlbumDetails. rewrite H. reflexivity.
  - intros det H. apply parseAlbumDetails_inv in H.
    destruct H as (m1 & secs & M & S & _ & ->). cbn.
    apply matchTotalLength_inv in M. destruct M as (D & a & b & c & Sh).
    rewrite (HmsShape_trim _ _ _ _ Sh) in *.
    split; [exact D |]. exists a, b, c. split; [exact Sh |].
    rewrite (hmsToSeconds_shape _ _ _ _ Sh) in S. congruence.
Qed.

(** C10: [parseAlbumDetails] returns nothing when the extracted title and
    the extracted main artists are both empty, whatever the duration; so
    the details it returns have a title or main artists that is not empty,
    and a parsed duration. *)
Theorem parseAlbumDetails_title_or_artists page :
  (extractTitle page = [] -> extractMainArtists toLowerCase page = [] ->
   parseAlbumDetails toLowerCase page = None) /\
  (forall det, parseAlbumDetails toLowerCase page = Some det ->
   (title det <> [] \/ main_artists det <> []) /\
   title det = extractTitle page /\
   main_artists det = extractMainArtists toLowerCase page /\
   exists m1, matchTotalLength (root_text page) = Some m1 /\
              total_length_hms det = trim m1 /\
              hmsToSeconds (trim m1) = Some (total_seconds det)).
Proof.
  split.
  - intros T A. unfold parseAlbumDetails. rewrite T, A. cbn.
    destruct (matchTotalLength _); [| reflexivity].
    destruct (hmsToSeconds _); reflexivity.
  - intros det H. apply parseAlbumDetails_inv in H.
    destruct H as (m1 & secs & M & S & N & ->). cbn.
    repeat split; eauto.
    destruct N as [N | N]; [left | right]; intros E; rewrite E in N;
      discriminate.
Qed.

End AlbumDetails.

Lemma parseAlbumDetails_duration_witness :
  parseAlbumDetails asciiToLowerCase
    {| h1_text := lit "Preludes"; blocks := []; root_text := lit "Preludes" |}
  = None /\
  durationIn (root_text exAlbum) (total_length_hms exDetails) /\
  exists a b c, HmsShape (total_length_hms exDetails) a b c /\
    total_seconds exDetails =
    match c with
    | None => numberOfDigits a * 60 + numberOfDigits b
    | Some c => numberOfDigits a * 3600 + numberOfDigits b * 60
                + numberOfDigits c
    end.
Proof.
  split.
  - apply (proj1 (parseAlbumDetails_duration asciiToLowerCase _)).
    reflexivity.
  - apply (proj2 (parseAlbumDetails_duration asciiToLowerCase exAlbum) exDetails).
    vm_compute. reflexivity.
Defined.

(** C7 as stated fails on a duration of two parts: 1:30 is 90 seconds, not
    1 * 3600 + 30 * 60. *)
Lemma two_part_duration_is_minutes_and_seconds :
  exists det, parseAlbumDetails asciiToLowerCase exShortAlbum = Some det /\
    total_length_hms det = lit "1:30" /\
    total_seconds det = 90 /\
    total_seconds det <> 1 * 3600 + 30 * 60.
Proof.
  eexists. split; [vm_compute; reflexivity |].
  repeat split; try reflexivity. cbn. lia.
Qed.

Lemma parseAlbumDetails_title_or_artists_witness :
  parseAlbumDetails asciiToLowerCase exUntitledAlbum = None /\
  ((title exDetails <> [] \/ main_artists exDetails <> []) /\
   title exDetails = extractTitle exAlbum /\
   main_artists exDetails = extractMainArtists asciiToLowerCase exAlbum /\
   exists m1, matchTotalLength (root_text exAlbum) = Some m1 /\
              total_length_hms exDetails = trim m1 /\
              hmsToSeconds (trim m1) = Some (total_seconds exDetails)).
Proof.
  split.
  - apply (proj1 (parseAlbumDetails_title_or_artists asciiToLowerCase
                    exUntitledAlbum)); reflexivity.
  - apply (proj2 (parseAlbumDetails_title_or_artists asciiToLowerCase exAlbum)
             exDetails).
    vm_compute. reflexivity.
Defined.

(** ** Deduplication *)

Lemma eqb_eq a b : eqb a b = true <-> a = b.
Proof.
  revert b. induction a as [| x a IH]; intros [| y b]; cbn; try (split; congruence).
  rewrite andb_true_iff, Z.eqb_eq, IH. split; [intros [-> ->] | intros H; injection H]; auto.
Qed.

Lemma existsb_app_one {A} (f : A -> bool) l x :
  existsb f (l ++ [x]) = existsb f l || f x.
Proof. rewrite existsb_app. cbn. rewrite orb_false_r. reflexivity. Qed.

Section Dedup.
Variable toLowerCase : str -> str.

Lemma dedupLoop_keepFirst records : forall dedup seen st earlier,
  sameKeys toLowerCase seen earlier ->
  let out := dedupLoop toLowerCase records dedup seen st in
  fst out = dedup ++ keepFirst toLowerCase earlier records /\
  duplicatesRemoved (snd out) =
    duplicatesRemoved st
    + (Z.of_nat (List.length records)
       - Z.of_nat (List.length (keepFirst toLowerCase earlier records))) /\
  (forall f, In f [labelsTotal; labelsProcessed; candidatesTotal;
                   albumsFetched; accepted; rejectedByGenre;
                   rejectedByLength; rejectedByDateMismatch;
                   missingAlbumDate; httpErrors; parseErrors] ->
             f (snd out) = f st).
Proof.
  induction records as [| r rest IH]; intros dedup seen st earlier K; cbv zeta.
  - cbn. rewrite app_nil_r. repeat split; auto. lia.
  - cbn [dedupLoop keepFirst]. rewrite (K (recordKey toLowerCase r)).
    destruct (existsb (fun e => eqb (recordKey toLowerCase r)
                                  (recordKey toLowerCase e)) earlier) eqn:E.
    + specialize (IH dedup seen (incDuplicatesRemoved st) (earlier ++ [r])).
      destruct IH as (I1 & I2 & I3).
      { intros k. rewrite existsb_app_one, (K k).
        destruct (eqb k (recordKey toLowerCase r)) eqn:Ek; [| rewrite orb_false_r; reflexivity].
        apply eqb_eq in Ek. subst k. rewrite E. reflexivity. }
      repeat split; auto.
      * rewrite I2. cbn [duplicatesRemoved incDuplicatesRemoved List.length]. lia.
      * intros f Hf. rewrite (I3 f Hf).
        cbn in Hf. repeat (destruct Hf as [<- | Hf]; [reflexivity |]). contradiction.
    + specialize (IH (dedup ++ [r]) (seen ++ [recordKey toLowerCase r]) st
                   (earlier ++ [r])).
      destruct IH as (I1 & I2 & I3).
      { intros k. rewrite !existsb_app_one, (K k). reflexivity. }
      repeat split; auto.
      * rewrite I1. rewrite <- app_assoc. reflexivity.
      * rewrite I2. cbn [List.length]. lia.
Qed.

Lemma keepFirst_sublist earlier records r :
  In r (keepFirst toLowerCase earlier records) -> In r records.
Proof.
  revert earlier. induction records as [| x rest IH]; intros earlier; cbn; [auto |].
  destruct (existsb _ earlier); cbn; intros H.
  - right. eapply IH; eauto.
  - destruct H; [auto | right; eapply IH; eauto].
Qed.

Lemma keepFirst_length earlier records :
  (List.length (keepFirst toLowerCase earlier records) <= List.length records)%nat.
Proof.
  revert earlier. induction records as [| x rest IH]; intros earlier; cbn; [lia |].
  destruct (existsb _ earlier); cbn; specialize (IH (earlier ++ [x])); lia.
Qed.

Lemma deduplicate_keepFirst records st :
  let out := deduplicate toLowerCase records st in
  fst out = keepFirst toLowerCase [] records /\
  duplicatesRemoved (snd out) =
    duplicatesRemoved st
    + (Z.of_nat (List.length records) - Z.of_nat (List.length (fst out))) /\
  (List.length (fst out) <= List.length records)%nat.
Proof.
  cbv zeta. unfold deduplicate.
  destruct (dedupLoop_keepFirst records [] [] st []) as (I1 & I2 & _).
  { intros k. reflexivity. }
  cbn [app] in I1. rewrite I1 at 2 3. rewrite I2.
  repeat split; auto. apply keepFirst_length.
Qed.

End Dedup.

(** ** Release dates of candidates and accepted records *)

Lemma candidatesLoop_inRange links labelName lo hi :
  forall candidates seen st out st',
  candidatesLoop links labelName lo hi candidates seen st = (Returns out, st') ->
  Forall (fun c => lo <= release_date_listing c <= hi) candidates ->
  Forall (fun c => lo <= release_date_listing c <= hi) out.
Proof.
  induction links as [| link rest IH]; intros candidates seen st out st' H F.
  - cbn in H. injection H as <- <-. exact F.
  - cbn [candidatesLoop] in H.
    destruct (negb (includes (href link) albumPath)); [eapply IH; eauto |].
    destruct (resolved link) as [albumUrl |]; [| discriminate].
    destruct (existsb (eqb albumUrl) seen); [eapply IH; eauto |].
    destruct (extractListingReleaseDateForLink (climb link) albumUrl 10)
      as [[rel |] |]; try (eapply IH; eauto; fail).
    destruct ((rel >=? lo) && (rel <=? hi)) eqn:E; [| eapply IH; eauto].
    eapply IH; [exact H |]. apply Forall_app. split; [exact F |].
    constructor; [| constructor]. cbn.
    apply andb_true_iff in E. destruct E as [E1 E2].
    apply Z.geb_le in E1. apply Z.leb_le in E2. lia.
Qed.

Lemma mergeCandidates_Forall (P : Candidate -> Prop) extracted :
  forall candidates seen,
  Forall P extracted -> Forall P candidates ->
  Forall P (fst (mergeCandidates extracted candidates seen)).
Proof.
  induction extracted as [| c rest IH]; intros candidates seen Fe Fc; cbn.
  - exact Fc.
  - inversion Fe; subst.
    destruct (existsb _ seen); apply IH; auto.
    apply Forall_app. split; auto.
Qed.

Section Run.
Variable toLowerCase : str -> str.
Variable normalizeLabelBase : str -> option str.
Variable buildLabelPageUrl : str -> Z -> str.

Lemma pagesLoop_inRange config net label normalized remaining :
  forall page acc,
  Forall (fun c => inRange config (release_date_listing c)) (lst_candidates acc) ->
  Forall (fun c => inRange config (release_date_listing c))
    (lst_candidates
       (pagesLoop buildLabelPageUrl config net label normalized remaining page acc)).
Proof.
  induction remaining as [| k IH]; intros page acc F; cbn [pagesLoop].
  - exact F.
  - destruct ((page >? 1) && (max_pages_per_label config <=? 1)); [exact F |].
    destruct (fetchHtml config net (buildLabelPageUrl normalized page) (lst_state acc))
      as [html st].
    destruct (usable html) as [h |]; [| apply IH; exact F].
    destruct (as_listing h) as [listing |]; [| apply IH; exact F].
    destruct (extractAlbumCandidatesFromListing listing (name label)
                (date_from config) (date_to config) (stats st))
      as [[[extracted hasPage2] |] s] eqn:E; [| apply IH; exact F].
    assert (Fx : Forall (fun c => inRange config (release_date_listing c)) extracted).
    { unfold extractAlbumCandidatesFromListing in E.
      destruct (candidatesLoop _ _ _ _ _ _ _) as [[cands |] s1] eqn:C; [| discriminate].
      destruct (listingHasPage2 _); [| discriminate].
      injection E as <- <- <-.
      eapply candidatesLoop_inRange; [exact C | constructor]. }
    cbn [lst_candidates lst_seen].
    pose proof (mergeCandidates_Forall _ extracted (lst_candidates acc)
                  (lst_seen acc) Fx F) as M.
    destruct (mergeCandidates extracted (lst_candidates acc) (lst_seen acc))
      as [candidates seen].
    cbn [fst] in M.
    destruct ((page =? 1) && negb hasPage2); [cbn; exact M | apply IH; cbn; exact M].
Qed.

Lemma labelsLoop_inRange config net labels :
  forall acc out,
  labelsLoop normalizeLabelBase buildLabelPageUrl config net labels acc = Some out ->
  Forall (fun c => inRange config (release_date_listing c)) (lst_candidates acc) ->
  Forall (fun c => inRange config (release_date_listing c)) (lst_candidates out).
Proof.
  induction labels as [| label rest IH]; intros acc out H F; cbn [labelsLoop] in H.
  - injection H as <-. exact F.
  - destruct (normalizeLabelBase (url label)) as [normalized |]; [| discriminate].
    eapply IH; [exact H |]. apply pagesLoop_inRange. exact F.
Qed.

(** The filter keeps the range. *)

Lemma laterStages_accepted config cand det finalRelease acc :
  let acc' := laterStages toLowerCase config cand det finalRelease acc in
  acc_missingRows acc' = acc_missingRows acc /\
  sent (acc_state acc') = sent (acc_state acc) /\
  events (acc_state acc') = events (acc_state acc) /\
  (acc_accepted acc' = acc_accepted acc \/
   acc_accepted acc' =
     acc_accepted acc ++
     [{| rec_album_title := title det; rec_main_artists := main_artists det;
         rec_label := label_name cand; rec_album_url := album_url cand;
         rec_release_date := finalRelease |}]).
Proof.
  cbv zeta. unfold laterStages.
  destruct (negb (genreMatchesRoot toLowerCase config det)); [cbn; auto |].
  destruct (total_seconds det <? min_minutes config * 60); cbn; auto.
Qed.

Lemma filterCandidate_inRange config cand det acc :
  inRange config (release_date_listing cand) ->
  Forall (fun r => inRange config (rec_release_date r)) (acc_accepted acc) ->
  Forall (fun r => inRange config (rec_release_date r))
    (acc_accepted (filterCandidate toLowerCase config cand det acc)).
Proof.
  intros Hc F. unfold filterCandidate.
  destruct (release_date_album det) as [d |].
  - destruct (Z.ltb_spec d (date_from config)); [exact F |].
    destruct (d >? date_to config) eqn:G; [exact F |]. cbn [orb].
    destruct (laterStages_accepted config cand det d acc) as (_ & _ & _ & [E | E]);
      rewrite E; [exact F |].
    apply Forall_app. split; [exact F |]. constructor; [| constructor].
    cbn. unfold inRange. rewrite Z.gtb_ltb in G. apply Z.ltb_ge in G. lia.
  - match goal with |- context [laterStages _ _ _ _ _ ?a] =>
      destruct (laterStages_accepted config cand det (release_date_listing cand) a)
        as (_ & _ & _ & [E | E]) end;
      rewrite E; cbn; [exact F |].
    apply Forall_app. split; [exact F |]. constructor; [| constructor].
    exact Hc.
Qed.

Lemma albumStep_inRange config net cand acc :
  inRange config (release_date_listing cand) ->
  Forall (fun r => inRange config (rec_release_date r)) (acc_accepted acc) ->
  Forall (fun r => inRange config (rec_release_date r))
    (acc_accepted (albumStep toLowerCase config net cand acc)).
Proof.
  intros Hc F. unfold albumStep.
  destruct (fetchHtml config net (album_url cand) _) as [html st].
  destruct (usable html) as [h |]; [| exact F].
  destruct (as_album h) as [page |]; [| exact F].
  destruct (parseAlbumDetails toLowerCase page) as [det |]; [| exact F].
  apply filterCandidate_inRange; auto.
Qed.

Lemma albumLoop_inRange config net candidates :
  forall acc,
  Forall (fun c => inRange config (release_date_listing c)) candidates ->
  Forall (fun r => inRange config (rec_release_date r)) (acc_accepted acc) ->
  Forall (fun r => inRange config (rec_release_date r))
    (acc_accepted (albumLoop toLowerCase config net candidates acc)).
Proof.
  unfold albumLoop.
  induction candidates as [| c rest IH]; intros acc Fc F; cbn [fold_left].
  - exact F.
  - inversion Fc; subst. apply IH; auto. apply albumStep_inRange; auto.
Qed.

(** C1: in every run that ends, each candidate of the listing phase has
    its listing date within [date_from, date_to], and so has the release
    date of each accepted record, before and after the deduplication. *)
Theorem accepted_release_dates_in_range config labels net dryRun r :
  runQobuzScraper toLowerCase normalizeLabelBase buildLabelPageUrl
    config labels net dryRun = Some r ->
  Forall (fun c => inRange config (release_date_listing c)) (run_candidates r) /\
  Forall (fun a => inRange config (rec_release_date a)) (run_accepted r) /\
  Forall (fun a => inRange config (rec_release_date a)) (run_records r).
Proof.
  unfold runQobuzScraper.
  destruct (labelsLoop _ _ _ _ _ _) as [listed |] eqn:L; [| discriminate].
  apply labelsLoop_inRange in L; [| constructor].
  match goal with |- context [albumLoop _ _ _ _ ?a] =>
    pose proof (albumLoop_inRange config net (lst_candidates listed) a L
                  (Forall_nil _)) as A;
    set (acc := albumLoop toLowerCase config net (lst_candidates listed) a) in * end.
  pose proof (deduplicate_keepFirst toLowerCase (acc_accepted acc)
                (stats (acc_state acc))) as D.
  cbv zeta in D.
  destruct (deduplicate toLowerCase (acc_accepted acc) (stats (acc_state acc)))
    as [dedup s].
  cbn [fst snd] in D. destruct D as (D1 & _).
  intros H; injection H as <-. cbn.
  repeat split; auto.
  rewrite Forall_forall in *. intros x Hx. apply A.
  rewrite D1 in Hx. eapply keepFirst_sublist; eauto.
Qed.

End Run.

Lemma accepted_release_dates_in_range_witness :
  exists r, exRun = Some r /\ run_records r <> [] /\
    Forall (fun c => inRange exConfig (release_date_listing c))
      (run_candidates r) /\
    Forall (fun a => inRange exConfig (rec_release_date a)) (run_accepted r) /\
    Forall (fun a => inRange exConfig (rec_release_date a)) (run_records r).
Proof.
  eexists. split; [vm_compute; reflexivity |].
  split; [discriminate |].
  apply (accepted_release_dates_in_range asciiToLowerCase exNormalize
           exBuildPage exConfig exLabels exNet false).
  vm_compute. reflexivity.
Defined.

(** ** Counters, the fetch layer and the filter *)

Lemma keeps_refl fields s : keeps fields s s.
Proof. intros f _. reflexivity. Qed.

Lemma keeps_trans fields s1 s2 s3 :
  keeps fields s1 s2 -> keeps fields s2 s3 -> keeps fields s1 s3.
Proof. intros H1 H2 f Hf. rewrite (H2 f Hf). apply H1, Hf. Qed.

Ltac keeps_field :=
  let f := fresh "f" in
  let Hf := fresh "Hf" in
  intros f Hf; cbn [In] in Hf;
  repeat (destruct Hf as [<- | Hf]; [reflexivity |]); contradiction.

Lemma keeps_incl fields fields' s s' :
  incl fields' fields -> keeps fields s s' -> keeps fields' s s'.
Proof. intros I K f Hf. apply K, I, Hf. Qed.

Lemma albumCounters_notHttp : incl albumCounters notHttp.
Proof. intros f Hf. cbn in *. tauto. Qed.

Lemma fetchAttempts_keeps config net u remaining :
  forall attempt st,
  keeps notHttp (stats st)
    (stats (snd (fetchAttempts config net u remaining attempt st))).
Proof.
  induction remaining as [| k IH]; intros attempt st; cbn [fetchAttempts].
  - cbn. keeps_field.
  - unfold request.
    assert (G : forall st0, stats st0 = stats st ->
                keeps notHttp (stats st) (stats (snd (@None Html, updStats incHttpErrors st0)))).
    { intros st0 E. cbn. rewrite E. keeps_field. }
    assert (N : forall ms st0, stats st0 = stats st ->
                keeps notHttp (stats st)
                  (stats (snd (fetchAttempts config net u k (attempt + 1) (sleep ms st0))))).
    { intros ms st0 E. eapply keeps_trans; [| apply IH]. cbn. rewrite E.
      apply keeps_refl. }
    destruct (net (sent st) u) as [| status body].
    + destruct (attempt >? retries config); [apply G | apply N]; reflexivity.
    + destruct (status =? 429); [apply N; reflexivity |].
      destruct ((500 <=? status) && (status <? 600)); [apply N; reflexivity |].
      destruct (negb (status =? 200)); [apply G; reflexivity |].
      destruct body; [apply keeps_refl |].
      destruct (attempt >? retries config); [apply G | apply N]; reflexivity.
Qed.

Lemma fetchHtml_keeps config net u st :
  keeps notHttp (stats st) (stats (snd (fetchHtml config net u st))).
Proof. apply fetchAttempts_keeps. Qed.

(** C3, where the code departs from it: the loop runs for the attempts
    1 to [retries], so with [retries = 0] no request is sent at all,
    whatever the remote side would answer; the call counts an HTTP error
    and returns nothing. *)
Theorem fetchHtml_without_retries_sends_nothing config net u st :
  retries config <= 0 ->
  fetchHtml config net u st = (None, updStats incHttpErrors st) /\
  sent (snd (fetchHtml config net u st)) = sent st /\
  events (snd (fetchHtml config net u st)) = events st /\
  httpErrors (stats (snd (fetchHtml config net u st))) = httpErrors (stats st) + 1.
Proof.
  intros H. unfold fetchHtml.
  replace (Z.to_nat (retries config)) with O by lia.
  cbn. auto.
Qed.

Lemma fetchHtml_without_retries_sends_nothing_witness :
  fetchHtml exConfigNoRetries exNet (lit "https://example.com/album/a1") exState
  = (None, updStats incHttpErrors exState) /\
  sent (snd (fetchHtml exConfigNoRetries exNet
               (lit "https://example.com/album/a1") exState)) = sent exState /\
  events (snd (fetchHtml exConfigNoRetries exNet
                 (lit "https://example.com/album/a1") exState))
  = events exState /\
  httpErrors (stats (snd (fetchHtml exConfigNoRetries exNet
                            (lit "https://example.com/album/a1") exState)))
  = httpErrors (stats exState) + 1.
Proof.
  apply (fetchHtml_without_retries_sends_nothing exConfigNoRetries exNet).
  cbn. lia.
Defined.

(** A body comes back only from a response of status 200. *)
Lemma fetchAttempts_body_on_200 config net u remaining :
  forall attempt st h st',
  fetchAttempts config net u remaining attempt st = (Some h, st') ->
  exists n, (sent st <= n < sent st')%nat /\ net n u = Responds 200 (Some h).
Proof.
  induction remaining as [| k IH]; intros attempt st h st'; cbn [fetchAttempts].
  - discriminate.
  - unfold request.
    assert (N : forall ms,
      fetchAttempts config net u k (attempt + 1)
        (sleep ms {| stats := stats st; sent := S (sent st);
                     events := events st ++ [Request u] |}) = (Some h, st') ->
      exists n, (sent st <= n < sent st')%nat /\ net n u = Responds 200 (Some h)).
    { intros ms H. apply IH in H. destruct H as (n & Hn & E). cbn in Hn.
      exists n. split; [lia | exact E]. }
    destruct (net (sent st) u) as [| status body] eqn:R.
    + destruct (attempt >? retries config); [discriminate | apply N].
    + destruct (Z.eqb_spec status 429); [apply N |].
      destruct ((500 <=? status) && (status <? 600)); [apply N |].
      destruct (Z.eqb_spec status 200) as [-> | ?]; cbn [negb];
        [| discriminate].
      destruct body as [b |].
      * intros H; injection H as <- <-. exists (sent st). cbn.
        split; [lia | exact R].
      * destruct (attempt >? retries config); [discriminate | apply N].
Qed.

(** The number of requests of one call never exceeds [retries]. *)
Lemma fetchAttempts_sent config net u remaining :
  forall attempt st,
  (sent (snd (fetchAttempts config net u remaining attempt st))
   <= sent st + remaining)%nat.
Proof.
  induction remaining as [| k IH]; intros attempt st; cbn [fetchAttempts].
  - cbn. lia.
  - unfold request.
    assert (N : forall ms,
      (sent (snd (fetchAttempts config net u k (attempt + 1)
                    (sleep ms {| stats := stats st; sent := S (sent st);
                                 events := events st ++ [Request u] |})))
       <= sent st + S k)%nat).
    { intros ms. etransitivity; [apply IH |]. cbn. lia. }
    destruct (net (sent st) u) as [| status body].
    + destruct (attempt >? retries config); [cbn; lia | apply N].
    + destruct (status =? 429); [apply N |].
      destruct ((500 <=? status) && (status <? 600)); [apply N |].
      destruct (negb (status =? 200)); [cbn; lia |].
      destruct body; [cbn; lia |].
      destruct (attempt >? retries config); [cbn; lia | apply N].
Qed.

Section Filter.
Variable toLowerCase : str -> str.

Lemma startsWith_prefix s p :
  startsWith s p = true <-> exists rest, s = p ++ rest.
Proof.
  revert s. induction p as [| x p IH]; intros s.
  - split; [intros _; exists s; reflexivity | intros _; destruct s; reflexivity].
  - destruct s as [| y s]; cbn [startsWith app].
    + split; [discriminate | intros [rest E]; discriminate].
    + rewrite andb_true_iff, Z.eqb_eq, IH. split.
      * intros [-> [rest ->]]. exists rest. reflexivity.
      * intros [rest E]. injection E as -> ->. split; [reflexivity |].
        exists rest. reflexivity.
Qed.

Lemma genreMatchesRoot_genreInRoot config det :
  genreMatchesRoot toLowerCase config det = true
  <-> genreInRoot toLowerCase config det.
Proof. unfold genreMatchesRoot, genreInRoot. apply startsWith_prefix. Qed.

(** The four outcomes of the filter, by the tests of the code. *)
Lemma filterCandidate_stages config cand det acc :
  let acc' := filterCandidate toLowerCase config cand det acc in
  let s := stats (acc_state acc) in
  let s' := stats (acc_state acc') in
  (dateMismatch config det = true ->
     rejections s s' = (1, 0, 0) /\ acc_accepted acc' = acc_accepted acc /\
     forall det', release_date_album det' = release_date_album det ->
       filterCandidate toLowerCase config cand det' acc = acc') /\
  (dateMismatch config det = false ->
   genreMatchesRoot toLowerCase config det = false ->
     rejections s s' = (0, 1, 0) /\ acc_accepted acc' = acc_accepted acc /\
     forall secs,
       filterCandidate toLowerCase config cand
         {| title := title det; main_artists := main_artists det;
            total_length_hms := total_length_hms det; total_seconds := secs;
            release_date_album := release_date_album det;
            genre_first := genre_first det |} acc = acc') /\
  (dateMismatch config det = false ->
   genreMatchesRoot toLowerCase config det = true ->
   tooShort config det = true ->
     rejections s s' = (0, 0, 1) /\ acc_accepted acc' = acc_accepted acc) /\
  (dateMismatch config det = false ->
   genreMatchesRoot toLowerCase config det = true ->
   tooShort config det = false ->
     rejections s s' = (0, 0, 0) /\
     acc_accepted acc' = acc_accepted acc ++ [acceptedRecordOf cand det]).
Proof.
  cbv zeta. unfold dateMismatch, tooShort, filterCandidate, laterStages,
    rejections, acceptedRecordOf, finalReleaseOf, genreMatchesRoot.
  cbn [release_date_album genre_first total_seconds].
  destruct (release_date_album det) as [d |] eqn:Ed.
  - destruct ((d <? date_from config) || (d >? date_to config)) eqn:M.
    + repeat split; try discriminate; intros;
        cbn -[trim]; try (repeat f_equal; lia); try reflexivity.
      match goal with H : release_date_album _ = _ |- _ => rewrite H end.
      rewrite M. reflexivity.
    + destruct (startsWith _ _) eqn:G; cbn [negb];
        [destruct (total_seconds det <? min_minutes config * 60) eqn:L |];
        repeat split; try discriminate; intros;
        cbn -[trim]; try (repeat f_equal; lia); try reflexivity.
  - destruct (startsWith _ _) eqn:G; cbn [negb];
      [destruct (total_seconds det <? min_minutes config * 60) eqn:L |];
      repeat split; try discriminate; intros;
      cbn -[trim]; try (repeat f_equal; lia); try reflexivity.
Qed.

(** C2: for a candidate with parsed details the stages run in the order
    date mismatch, genre, length.  A date mismatch counts one
    [rejectedByDateMismatch] and nothing else, whatever the genre and the
    length are; otherwise a genre that does not start with the root counts
    one [rejectedByGenre], whatever the length is; otherwise a length below
    the minimum counts one [rejectedByLength]; otherwise the record is
    accepted and none of the three counters moves. *)
Theorem filter_stages_in_order config cand det acc :
  let acc' := filterCandidate toLowerCase config cand det acc in
  let s := stats (acc_state acc) in
  let s' := stats (acc_state acc') in
  (dateMismatch config det = true ->
     rejections s s' = (1, 0, 0) /\ acc_accepted acc' = acc_accepted acc /\
     forall det', release_date_album det' = release_date_album det ->
       filterCandidate toLowerCase config cand det' acc = acc') /\
  (dateMismatch config det = false ->
   ~ genreInRoot toLowerCase config det ->
     rejections s s' = (0, 1, 0) /\ acc_accepted acc' = acc_accepted acc /\
     forall secs,
       filterCandidate toLowerCase config cand
         {| title := title det; main_artists := main_artists det;
            total_length_hms := total_length_hms det; total_seconds := secs;
            release_date_album := release_date_album det;
            genre_first := genre_first det |} acc = acc') /\
  (dateMismatch config det = false ->
   genreInRoot toLowerCase config det ->
   tooShort config det = true ->
     rejections s s' = (0, 0, 1) /\ acc_accepted acc' = acc_accepted acc) /\
  (dateMismatch config det = false ->
   genreInRoot toLowerCase config det ->
   tooShort config det = false ->
     rejections s s' = (0, 0, 0) /\
     acc_accepted acc' = acc_accepted acc ++ [acceptedRecordOf cand det]).
Proof.
  pose proof (filterCandidate_stages config cand det acc) as H.
  cbv zeta in *. destruct H as (H1 & H2 & H3 & H4).
  split; [exact H1 |]. split; [| split].
  - intros D G. apply H2; [exact D |].
    destruct (genreMatchesRoot toLowerCase config det) eqn:E; [| reflexivity].
    exfalso. apply G, genreMatchesRoot_genreInRoot, E.
  - intros D G T. apply H3; [exact D | | exact T].
    apply genreMatchesRoot_genreInRoot, G.
  - intros D G T. apply H4; [exact D | | exact T].
    apply genreMatchesRoot_genreInRoot, G.
Qed.

Lemma filterCandidate_without_album_date config cand det acc :
  release_date_album det = None ->
  let acc' := filterCandidate toLowerCase config cand det acc in
  let s := stats (acc_state acc) in
  let s' := stats (acc_state acc') in
  missingAlbumDate s' = missingAlbumDate s + 1 /\
  rejectedByDateMismatch s' = rejectedByDateMismatch s /\
  acc_missingRows acc' =
    acc_missingRows acc ++
    [label_name cand ++ [9] ++ album_url cand ++ [9]
     ++ formatPlDate (release_date_listing cand) ++ [9]
     ++ title det ++ [9] ++ main_artists det] /\
  (acc_accepted acc' = acc_accepted acc \/
   acc_accepted acc' =
     acc_accepted acc ++
     [{| rec_album_title := title det; rec_main_artists := main_artists det;
         rec_label := label_name cand; rec_album_url := album_url cand;
         rec_release_date := release_date_listing cand |}]) /\
  (genreMatchesRoot toLowerCase config det = true ->
   tooShort config det = false ->
   acc_accepted acc' =
     acc_accepted acc ++
     [{| rec_album_title := title det; rec_main_artists := main_artists det;
         rec_label := label_name cand; rec_album_url := album_url cand;
         rec_release_date := release_date_listing cand |}]).
Proof.
  intros Ed. cbv zeta. unfold filterCandidate, laterStages, tooShort.
  rewrite Ed.
  destruct (genreMatchesRoot toLowerCase config det); cbn [negb];
    [destruct (total_seconds det <? min_minutes config * 60) |];
    cbn; repeat split; auto; try discriminate.
Qed.

(** C4: when the fetched album page gives details without a release date,
    the step counts one [missingAlbumDate], counts no date mismatch, and
    appends one line (label, album URL, listing date, title, artists) to
    the rows of the missing-date report, which the writer puts out after
    the header; the record, if the genre and length stages pass, carries the
    listing date of the candidate, and no condition on that date is
    involved. *)
Theorem missing_album_date_falls_back config net cand acc h st page det :
  fetchHtml config net (album_url cand)
    (updStats incAlbumsFetched (acc_state acc)) = (Some h, st) ->
  html_empty h = false ->
  as_album h = Some page ->
  parseAlbumDetails toLowerCase page = Some det ->
  release_date_album det = None ->
  let acc' := albumStep toLowerCase config net cand acc in
  let s := stats (acc_state acc) in
  let s' := stats (acc_state acc') in
  let row := label_name cand ++ [9] ++ album_url cand ++ [9]
             ++ formatPlDate (release_date_listing cand) ++ [9]
             ++ title det ++ [9] ++ main_artists det in
  let record :=
    {| rec_album_title := title det; rec_main_artists := main_artists det;
       rec_label := label_name cand; rec_album_url := album_url cand;
       rec_release_date := release_date_listing cand |} in
  missingAlbumDate s' = missingAlbumDate s + 1 /\
  rejectedByDateMismatch s' = rejectedByDateMismatch s /\
  acc_missingRows acc' = acc_missingRows acc ++ [row] /\
  writeMissing (acc_missingRows acc')
  = Some (missingHeader ++ [10]
          ++ join [10] (acc_missingRows acc ++ [row]) ++ [10]) /\
  (acc_accepted acc' = acc_accepted acc \/
   acc_accepted acc' = acc_accepted acc ++ [record]) /\
  (genreMatchesRoot toLowerCase config det = true ->
   tooShort config det = false ->
   acc_accepted acc' = acc_accepted acc ++ [record]).
Proof.
  intros F E A P D. cbv zeta.
  pose proof (fetchHtml_keeps config net (album_url cand)
                (updStats incAlbumsFetched (acc_state acc))) as K.
  unfold albumStep. rewrite F in *. cbn [snd] in K.
  unfold usable. rewrite E, A, P.
  pose proof (filterCandidate_without_album_date config cand det
                (withState st acc) D) as L.
  cbv zeta in L. cbn [withState acc_state acc_accepted acc_missingRows] in L.
  destruct L as (L1 & L2 & L3 & L4 & L5).
  rewrite (K missingAlbumDate) in L1 by (cbn; tauto).
  rewrite (K rejectedByDateMismatch) in L2 by (cbn; tauto).
  cbn [updStats stats incAlbumsFetched missingAlbumDate rejectedByDateMismatch]
    in L1, L2.
  repeat split; auto.
  rewrite L3. unfold writeMissing.
  destruct (acc_missingRows acc ++ _) eqn:R; [| reflexivity].
  apply app_eq_nil in R. destruct R as [_ R]. discriminate.
Qed.

End Filter.

Lemma filter_stages_in_order_witness :
  exCounted (exDetailsOf (Some (civil 2024 2 15)) "Jazz" 600) = (1, 0, 0) /\
  exCounted (exDetailsOf None "Jazz" 600) = (0, 1, 0) /\
  exCounted (exDetailsOf None "Classical" 600) = (0, 0, 1) /\
  exCounted exDetails = (0, 0, 0) /\
  acc_accepted (exFiltered exDetails) = [acceptedRecordOf exCandidate exDetails].
Proof.
  pose proof (filter_stages_in_order asciiToLowerCase exConfig exCandidate
                (exDetailsOf (Some (civil 2024 2 15)) "Jazz" 600) exAcc) as A.
  pose proof (filter_stages_in_order asciiToLowerCase exConfig exCandidate
                (exDetailsOf None "Jazz" 600) exAcc) as B.
  pose proof (filter_stages_in_order asciiToLowerCase exConfig exCandidate
                (exDetailsOf None "Classical" 600) exAcc) as C.
  pose proof (filter_stages_in_order asciiToLowerCase exConfig exCandidate
                exDetails exAcc) as D.
  cbv zeta in A, B, C, D.
  destruct A as (A & _). destruct B as (_ & B & _).
  destruct C as (_ & _ & C & _). destruct D as (_ & _ & _ & D).
  assert (J : ~ genreInRoot asciiToLowerCase exConfig
                  (exDetailsOf None "Jazz" 600)).
  { intros [rest E]. vm_compute in E. discriminate. }
  assert (K : genreInRoot asciiToLowerCase exConfig
                (exDetailsOf None "Classical" 600))
    by (exists []; reflexivity).
  assert (L : genreInRoot asciiToLowerCase exConfig exDetails)
    by (exists []; reflexivity).
  exact (conj (proj1 (A eq_refl))
           (conj (proj1 (B eq_refl J))
              (conj (proj1 (C eq_refl K eq_refl)) (D eq_refl L eq_refl)))).
Defined.

Lemma missing_album_date_falls_back_witness :
  let acc' := albumStep asciiToLowerCase exConfig exNet exCandidate exAcc in
  missingAlbumDate (stats (acc_state acc')) = 1 /\
  rejectedByDateMismatch (stats (acc_state acc')) = 0 /\
  acc_missingRows acc'
  = [lit "Alpha" ++ [9] ++ lit "https://example.com/album/a1" ++ [9]
     ++ lit "10.01.2024" ++ [9] ++ lit "Sonatas" ++ [9] ++ lit "Someone"] /\
  acc_accepted acc' = [acceptedRecordOf exCandidate exDetails].
Proof.
  pose proof (missing_album_date_falls_back asciiToLowerCase exConfig exNet
                exCandidate exAcc exHtml
                (snd (fetchHtml exConfig exNet (album_url exCandidate)
                        (updStats incAlbumsFetched (acc_state exAcc))))
                exAlbum exDetails
                ltac:(vm_compute; reflexivity) ltac:(reflexivity)
                ltac:(reflexivity) ltac:(vm_compute; reflexivity)
                ltac:(reflexivity)) as H.
  cbv zeta in H. destruct H as (H1 & H2 & H3 & _ & _ & H6).
  exact (conj H1 (conj H2 (conj H3 (H6 eq_refl eq_refl)))).
Defined.

(** ** Numeric dates *)

Lemma collapseFrom_id s : forall b,
  forallb (fun c => negb (isWhiteSpace c)) s = true -> collapseFrom b s = s.
Proof.
  induction s as [| c s IH]; intros b H; [reflexivity |].
  cbn in *. apply andb_true_iff in H. destruct H as [H1 H2].
  destruct (isWhiteSpace c); [discriminate |]. rewrite IH; auto.
Qed.

Lemma slash_not_space : isWhiteSpace 47 = false.
Proof. reflexivity. Qed.

Lemma digits_no_space s :
  Forall (fun c => isDigit c = true) s ->
  forallb (fun c => negb (isWhiteSpace c)) s = true.
Proof.
  intros F. apply forallb_forall. rewrite Forall_forall in F.
  intros c Hc. rewrite digit_not_space; auto.
Qed.

Lemma isDigits12_digits a : isDigits12 a -> Forall (fun c => isDigit c = true) a.
Proof. intros [[_ F] | [_ F]]; exact F. Qed.

Lemma numberOfDigits_12 a : isDigits12 a -> 0 <= numberOfDigits a <= 99.
Proof.
  intros [H | H].
  - apply isDigits_1 in H. destruct H as (x & -> & Hx).
    apply isDigit_iff in Hx. unfold numberOfDigits, digitVal. cbn. lia.
  - apply isDigits_2 in H. destruct H as (x & y & -> & Hx & Hy).
    apply isDigit_iff in Hx, Hy. unfold numberOfDigits, digitVal. cbn. lia.
Qed.

Lemma numberOfDigits_bound s :
  Forall (fun c => isDigit c = true) s ->
  0 <= numberOfDigits s < 10 ^ Z.of_nat (List.length s).
Proof.
  unfold numberOfDigits.
  assert (G : forall s acc, Forall (fun c => isDigit c = true) s -> 0 <= acc ->
              0 <= fold_left (fun acc c => acc * 10 + digitVal c) s acc
              < (acc + 1) * 10 ^ Z.of_nat (List.length s)).
  { clear s. induction s as [| c s IH]; intros acc F Ha.
    - cbn. lia.
    - inversion F as [| ? ? Hc F']; subst. apply isDigit_iff in Hc.
      cbn [fold_left List.length]. rewrite Nat2Z.inj_succ, Z.pow_succ_r by lia.
      specialize (IH (acc * 10 + digitVal c) F'). unfold digitVal in *.
      assert (0 < 10 ^ Z.of_nat (List.length s)) by (apply Z.pow_pos_nonneg; lia).
      nia. }
  intros F. specialize (G s 0 F). lia.
Qed.

Lemma numericYear_range y : isYearDigits y -> 100 <= numericYear y <= 9999.
Proof.
  intros [L F]. pose proof (numberOfDigits_bound y F) as B.
  assert (10 ^ Z.of_nat (List.length y) <= 10 ^ 4)
    by (apply Z.pow_le_mono_r; lia).
  unfold numericYear. destruct (Z.ltb_spec (numberOfDigits y) 100); lia.
Qed.

Lemma matchNumericDate_groups a b y :
  isDigits12 a -> isDigits12 b -> isYearDigits y ->
  let text := a ++ [47] ++ b ++ [47] ++ y in
  collapseWhiteSpace (trim text) = text /\ text <> [] /\
  matchNumericDate text = Some (a, b, y).
Proof.
  intros Ha Hb [Ly Fy] text.
  assert (T : trim text = text).
  { unfold text. destruct (isDigits12_head a Ha) as (x & r & -> & Hx).
    destruct y as [| y0 y'] using rev_ind; [cbn in Ly; lia |].
    replace ((x :: r) ++ [47] ++ b ++ [47] ++ y' ++ [y0])
      with (x :: (r ++ [47] ++ b ++ [47] ++ y') ++ [y0]) by (app_norm; reflexivity).
    apply trim_keep; apply digit_not_space; auto.
    rewrite Forall_forall in Fy. apply Fy. apply in_or_app. cbn. auto. }
  repeat split.
  - rewrite T. unfold collapseWhiteSpace. apply collapseFrom_id.
    unfold text. rewrite !forallb_app. cbn [forallb].
    rewrite !digits_no_space; auto using isDigits12_digits.
  - unfold text. destruct (isDigits12_head a Ha) as (x & r & -> & Hx). discriminate.
  - unfold matchNumericDate, text. cbn [app].
    rewrite digits12_app by (auto; reflexivity). cbn [Z.eqb Pos.eqb].
    rewrite digits12_app by (auto; reflexivity). cbn [Z.eqb Pos.eqb andb].
    replace (forallb isDigit y) with true
      by (symmetry; apply forallb_forall; rewrite Forall_forall in Fy; auto).
    replace (2 <=? List.length y)%nat with true by (symmetry; apply Nat.leb_le; lia).
    replace (List.length y <=? 4)%nat with true by (symmetry; apply Nat.leb_le; lia).
    reflexivity.
Qed.

Lemma checkedUTC_civil y m d :
  100 <= y <= 9999 ->
  checkedUTC y (m - 1) d = if validDate y m d then Some (civil y m d) else None.
Proof.
  intros Hy. destruct (validDate y m d) eqn:V.
  - apply checkedUTC_valid; auto. replace (m - 1 + 1) with m by lia. exact V.
  - apply checkedUTC_invalid. replace (m - 1 + 1) with m by lia. exact V.
Qed.

Lemma parseNumericUsDate_month_first a b y :
  isDigits12 a -> isDigits12 b -> isYearDigits y ->
  parseNumericUsDate (a ++ [47] ++ b ++ [47] ++ y) =
  let A := numberOfDigits a in
  let B := numberOfDigits b in
  let Y := numericYear y in
  if validDate Y A B then Some (civil Y A B)
  else if validDate Y B A then Some (civil Y B A)
  else None.
Proof.
  intros Ha Hb Hy. cbv zeta.
  destruct (matchNumericDate_groups a b y Ha Hb Hy) as (C & N & M).
  unfold parseNumericUsDate. rewrite C.
  destruct (a ++ [47] ++ b ++ [47] ++ y) eqn:E; [congruence |]. rewrite <- E in *.
  rewrite M. cbn [fst snd]. fold (numericYear y).
  pose proof (numericYear_range y Hy).
  rewrite !checkedUTC_civil by assumption.
  destruct (validDate _ (numberOfDigits a) _); reflexivity.
Qed.

Lemma civil_getters y m d :
  validDate y m d = true ->
  YearFromTime (civil y m d) = y /\ MonthFromTime (civil y m d) = m - 1 /\
  DateFromTime (civil y m d) = d.
Proof.
  intros V. unfold validDate in V. rewrite !andb_true_iff, !Z.leb_le in V.
  apply getters_MakeDay; [lia |]. replace (m - 1 + 1) with m by lia. lia.
Qed.

(** ** Release phrases *)

Lemma not_occursCI p s i : ~ occursCI p s i -> matchLitCI p (skipn i s) = None.
Proof.
  unfold occursCI. intros H.
  destruct (matchLitCI p (skipn i s)); [exfalso; apply H; discriminate | reflexivity].
Qed.

Lemma wordBefore_last pw p c : wordBefore pw (p ++ [c]) = isWordChar c.
Proof. revert pw. induction p as [| x p IH]; intros pw; cbn; auto. Qed.

Lemma matchLitCI_app p1 p2 s :
  matchLitCI (p1 ++ p2) s =
  match matchLitCI p1 s with
  | Some r => matchLitCI p2 r
  | None => None
  end.
Proof.
  revert s. induction p1 as [| x p1 IH]; intros s; cbn.
  - destruct p2; reflexivity.
  - destruct s as [| y s]; [reflexivity |].
    destruct (eqCI x y); [apply IH | reflexivity].
Qed.

Lemma matchLitCI_fold p q s :
  map lowerAscii p = map lowerAscii q -> matchLitCI p s = matchLitCI q s.
Proof.
  revert q s. induction p as [| x p IH]; intros [| y q] s H; try discriminate.
  - reflexivity.
  - cbn in H. injection H as Hx Hp. destruct s as [| c s]; [reflexivity |].
    cbn. unfold eqCI. rewrite Hx. rewrite (IH q s Hp). reflexivity.
Qed.

Lemma released_prefix (tail : str) s :
  matchLitCI (lit "released") s = None ->
  matchLitCI (lit "Released" ++ tail) s = None.
Proof.
  intros H. rewrite matchLitCI_app.
  rewrite (matchLitCI_fold (lit "Released") (lit "released")) by reflexivity.
  rewrite H. reflexivity.
Qed.

Section Search.
Variable group : str -> option str.
Variable tpl : ReleaseTemplate.

Lemma searchTemplate_none s :
  (forall i, matchTemplate group tpl (skipn i s) = None) ->
  forall pw, searchTemplate group tpl pw s = None.
Proof.
  induction s as [| c s IH]; intros H pw; cbn [searchTemplate].
  - pose proof (H O) as H0. cbn [skipn] in H0. rewrite H0.
    destruct (wordBoundary pw []); reflexivity.
  - pose proof (H O) as H0. cbn [skipn] in H0. rewrite H0.
    destruct (wordBoundary pw (c :: s)); apply IH;
      intros i; apply (H (S i)).
Qed.

Lemma searchTemplate_skip pre rest :
  (forall i, (i < List.length pre)%nat ->
             matchTemplate group tpl (skipn i (pre ++ rest)) = None) ->
  forall pw,
  searchTemplate group tpl pw (pre ++ rest) =
  searchTemplate group tpl (wordBefore pw pre) rest.
Proof.
  induction pre as [| c pre IH]; intros H pw.
  - reflexivity.
  - cbn [app searchTemplate wordBefore].
    pose proof (H O ltac:(cbn; lia)) as H0. cbn [skipn app] in H0. rewrite H0.
    destruct (wordBoundary pw (c :: pre ++ rest)); apply IH;
      intros i Hi; apply (H (S i)); cbn; lia.
Qed.

End Search.

Lemma phraseMay_no_released_by post j :
  (j < 23)%nat ->
  matchLitCI (lit "Released by ") (skipn j (phraseMay ++ post)) = None.
Proof.
  intros Hj.
  do 23 (destruct j as [| j]; [reflexivity |]). lia.
Qed.

Lemma phraseMay_group post :
  wordBoundary false (phraseMay ++ post) = true /\
  matchTemplate groupMonthDate ReleasedOn (phraseMay ++ post)
  = Some (lit "May 3, 2024").
Proof. split; reflexivity. Qed.

Lemma matchLitCI_skipn p s r :
  matchLitCI p s = Some r -> r = skipn (List.length p) s.
Proof.
  intros H. apply matchLitCI_inv in H. destruct H as (l & -> & E).
  apply (f_equal (@List.length Z)) in E. rewrite !length_map in E.
  rewrite <- E, skipn_app, skipn_all, Nat.sub_diag. reflexivity.
Qed.

Lemma lazyOn_eq group s :
  lazyOn group s =
  match match matchLitCI (lit " on ") s with
        | Some r => group r
        | None => None
        end with
  | Some c => Some c
  | None =>
      match s with
      | [] => None
      | c :: r => if isLineTerminator c then None else lazyOn group r
      end
  end.
Proof. destruct s; reflexivity. Qed.

Lemma lazyOn_none group s :
  (forall j r, matchLitCI (lit " on ") (skipn j s) = Some r -> group r = None) ->
  lazyOn group s = None.
Proof.
  induction s as [| c s IH]; intros H; rewrite lazyOn_eq.
  - destruct (matchLitCI (lit " on ") []) as [r |] eqn:M; [| reflexivity].
    rewrite (H O r M). reflexivity.
  - destruct (matchLitCI (lit " on ") (c :: s)) as [r |] eqn:M.
    + rewrite (H O r M). destruct (isLineTerminator c); [reflexivity |].
      apply IH. intros j r' Mj. apply (H (S j) r' Mj).
    + destruct (isLineTerminator c); [reflexivity |].
      apply IH. intros j r' Mj. apply (H (S j) r' Mj).
Qed.

Lemma groupMonthDate_inv s g : groupMonthDate s = Some g -> monthDateAt s.
Proof.
  unfold groupMonthDate.
  pose proof (takeWhile_dropWhile isMonthTokenChar s) as E.
  pose proof (takeWhile_all isMonthTokenChar s) as F.
  destruct (takeWhile isMonthTokenChar s) as [| t0 tok]; [discriminate |].
  destruct (dropWhile isMonthTokenChar s) as [| sp r1]; [discriminate |].
  destruct (Z.eqb_spec sp 32) as [-> | _]; [| discriminate].
  destruct (digits12 r1) as [[d [| c [| sp2 r2]]] |] eqn:D; try discriminate.
  destruct (Z.eqb_spec c 44) as [-> | _]; [| discriminate].
  destruct (Z.eqb_spec sp2 32) as [-> | _]; [| discriminate]. cbn [andb].
  destruct (digitsN 4 r2) as [[y rest] |] eqn:Y; [| discriminate].
  intros _. apply digits12_inv in D. destruct D as (-> & Hd & _).
  apply digitsN_inv in Y. destruct Y as (-> & Hy).
  exists (t0 :: tok), d, y, rest.
  split; [rewrite <- E; app_norm; reflexivity |].
  split; [discriminate |].
  split; [apply Forall_forall; rewrite forallb_forall in F; exact F |].
  split; assumption.
Qed.

Lemma released_by_nowhere pre post :
  (forall i, (i < List.length pre)%nat ->
             ~ occursCI (lit "released") (pre ++ phraseMay ++ post) i) ->
  ~ releasedByOnDate post ->
  forall i,
  matchTemplate groupMonthDate ReleasedByOn (skipn i (pre ++ phraseMay ++ post))
  = None.
Proof.
  intros Ha Hb i. unfold matchTemplate.
  destruct (Nat.lt_ge_cases i (List.length pre)) as [L | L].
  - rewrite (released_prefix (lit " by ")); [reflexivity |].
    apply not_occursCI, Ha, L.
  - rewrite skipn_app, (skipn_all2 pre) by exact L. cbn [app].
    destruct (Nat.lt_ge_cases (i - List.length pre) 23) as [L2 | L2].
    + rewrite phraseMay_no_released_by by exact L2. reflexivity.
    + rewrite skipn_app, (skipn_all2 phraseMay) by exact L2. cbn [app].
      set (k := (i - List.length pre - List.length phraseMay)%nat).
      destruct (matchLitCI (lit "Released by ") (skipn k post)) as [r |] eqn:M;
        [| reflexivity].
      apply lazyOn_none. intros j r' Mj.
      destruct (groupMonthDate r') as [g |] eqn:G; [| reflexivity].
      exfalso. apply Hb. exists k, (j + 12 + k)%nat.
      pose proof (matchLitCI_skipn _ _ _ M) as Er.
      change (List.length (lit "Released by ")) with 12%nat in Er.
      subst r. rewrite !skipn_skipn in Mj.
      split.
      { unfold occursCI.
        rewrite (matchLitCI_fold _ (lit "Released by ")) by reflexivity.
        rewrite M. discriminate. }
      split; [lia |]. split; [unfold occursCI; rewrite Mj; discriminate |].
      apply matchLitCI_skipn in Mj.
      change (List.length (lit " on ")) with 4%nat in Mj.
      rewrite skipn_skipn in Mj.
      replace (j + 12 + k + 4)%nat with (4 + (j + 12 + k))%nat by lia.
      rewrite <- Mj. exact (groupMonthDate_inv r' g G).
Qed.

Lemma extract_phraseMay text pre post :
  trim (collapseWhiteSpace text) = pre ++ phraseMay ++ post ->
  (forall i, (i < List.length pre)%nat ->
             ~ occursCI (lit "released") (pre ++ phraseMay ++ post) i) ->
  ~ releasedByOnDate post ->
  wordBefore false pre = false ->
  extractReleaseDateFromText text = Some (civil 2024 5 3).
Proof.
  intros N Ha Hb Hc.
  unfold extractReleaseDateFromText.
  destruct text as [| t0 text']; [destruct pre; discriminate |].
  rewrite N. unfold RELEASE_PATTERNS_MONTH, RELEASE_PATTERNS_NUM. cbn [tryPatterns].
  rewrite (searchTemplate_none groupMonthDate ReleasedByOn)
    by (apply released_by_nowhere; assumption).
  rewrite (searchTemplate_skip groupMonthDate ReleasedOn).
  2:{ intros i Hi. unfold matchTemplate.
      rewrite (released_prefix (lit " on ")); [reflexivity |].
      apply not_occursCI, Ha, Hi. }
  rewrite Hc.
  replace (searchTemplate groupMonthDate ReleasedOn false (phraseMay ++ post))
    with (Some (lit "May 3, 2024")) by reflexivity.
  reflexivity.
Qed.

(** ** Trimming *)

Lemma dropWhile_head f s :
  match dropWhile f s with
  | [] => True
  | c :: _ => f c = false
  end.
Proof.
  induction s as [| c s IH]; cbn; [exact I |].
  destruct (f c) eqn:E; [exact IH | exact E].
Qed.

Lemma dropWhile_suffix f s : exists l, s = l ++ dropWhile f s.
Proof.
  induction s as [| c s (l & IH)]; cbn.
  - exists []. reflexivity.
  - destruct (f c).
    + exists (c :: l). cbn. rewrite <- IH. reflexivity.
    + exists []. reflexivity.
Qed.

Lemma dropWhile_app_keep f s c :
  f c = false -> dropWhile f (s ++ [c]) = dropWhile f s ++ [c].
Proof.
  intros H. induction s as [| x s IH]; cbn.
  - rewrite H. reflexivity.
  - destruct (f x); [exact IH | reflexivity].
Qed.

Lemma dropWhile_idem f s : dropWhile f (dropWhile f s) = dropWhile f s.
Proof.
  pose proof (dropWhile_head f s) as H.
  destruct (dropWhile f s) as [| c r]; [reflexivity |].
  cbn. rewrite H. reflexivity.
Qed.

Lemma trimEnd_cons c t :
  isWhiteSpace c = false -> trimEnd (c :: t) = c :: trimEnd t.
Proof.
  intros H. unfold trimEnd. cbn [rev].
  rewrite dropWhile_app_keep by exact H.
  rewrite rev_app_distr. reflexivity.
Qed.

Lemma trimEnd_idem s : trimEnd (trimEnd s) = trimEnd s.
Proof.
  unfold trimEnd. rewrite rev_involutive, dropWhile_idem. reflexivity.
Qed.

Lemma trim_idem s : trim (trim s) = trim s.
Proof.
  unfold trim, trimStart.
  pose proof (dropWhile_head isWhiteSpace s) as H.
  destruct (dropWhile isWhiteSpace s) as [| c t]; [reflexivity |].
  rewrite (trimEnd_cons c t H). cbn [dropWhile]. rewrite H.
  rewrite (trimEnd_cons c _ H), trimEnd_idem. reflexivity.
Qed.

Lemma In_trimEnd x s : In x (trimEnd s) -> In x s.
Proof.
  unfold trimEnd. intros H. apply in_rev in H.
  destruct (dropWhile_suffix isWhiteSpace (rev s)) as (l & E).
  apply in_rev. rewrite E. apply in_or_app. right. exact H.
Qed.

Lemma In_trim x s : In x (trim s) -> In x s.
Proof.
  unfold trim, trimStart. intros H. apply In_trimEnd in H.
  destruct (dropWhile_suffix isWhiteSpace s) as (l & E).
  rewrite E. apply in_or_app. right. exact H.
Qed.

Lemma trim_head s : headOk (trim s).
Proof.
  unfold trim, trimStart, headOk.
  pose proof (dropWhile_head isWhiteSpace s) as H.
  destruct (dropWhile isWhiteSpace s) as [| c t]; [exact I |].
  rewrite (trimEnd_cons c t H). exact H.
Qed.

Lemma trim_last s : headOk (rev (trim s)).
Proof.
  unfold trim, trimEnd, headOk. rewrite rev_involutive. apply dropWhile_head.
Qed.

Lemma trim_of_ends s : headOk s -> headOk (rev s) -> trim s = s.
Proof.
  unfold headOk. intros H1 H2. unfold trim, trimStart, trimEnd.
  destruct s as [| c t]; [reflexivity |]. cbn [dropWhile]. rewrite H1.
  destruct (rev (c :: t)) as [| y m] eqn:R.
  - apply (f_equal (@rev Z)) in R. rewrite rev_involutive in R. discriminate.
  - cbn [dropWhile]. rewrite H2. rewrite <- R. apply rev_involutive.
Qed.

(** ** Genres *)

Lemma startsWith_nil s : startsWith s [] = true.
Proof. destruct s; reflexivity. Qed.


Lemma beforeFirst_single d s :
  exists rest, s = beforeFirst [d] s ++ rest /\ ~ In d (beforeFirst [d] s) /\
    (rest = [] \/ exists r, rest = d :: r) /\ (In d s -> exists r, rest = d :: r).
Proof.
  induction s as [| c s IH].
  - exists []. cbn. repeat split; auto. intros [].
  - cbn [beforeFirst startsWith]. rewrite startsWith_nil, andb_true_r.
    destruct (Z.eqb_spec d c) as [-> | N].
    + exists (c :: s). cbn. repeat split; eauto.
    + destruct IH as (rest & E & NI & Sh & I). exists rest.
      cbn [app]. rewrite <- E. repeat split; auto.
      * intros [H | H]; [congruence | tauto].
      * intros [H | H]; [congruence | auto].
Qed.



Section Genre.
Variable toLowerCase : str -> str.








Lemma fromAboutLine_incl lines l :
  fromAboutLine toLowerCase lines = Some l -> incl l lines.
Proof.
  induction lines as [| line rest IH]; cbn [fromAboutLine]; [discriminate |].
  destruct (eqb _ _ || includes _ _).
  - intros H; injection H as <-. apply incl_refl.
  - intros H. apply incl_tl, IH, H.
Qed.


End Genre.



(** ** Numeric release phrases *)

Lemma numericDateText_chars a b y :
  isDigits12 a -> isDigits12 b -> isYearDigits y ->
  Forall (fun c => isDateChar c = true) (numericDateText a b y).
Proof.
  intros Ha Hb [_ Fy]. unfold numericDateText.
  assert (D : forall s, Forall (fun c => isDigit c = true) s ->
                        Forall (fun c => isDateChar c = true) s).
  { intros s F. eapply Forall_impl; [| exact F]. intros c Hc.
    unfold isDateChar. rewrite Hc. reflexivity. }
  repeat (apply Forall_app; split); auto using isDigits12_digits;
    constructor; auto.
Qed.

Lemma Forall_skipn {A} (P : A -> Prop) n l : Forall P l -> Forall P (skipn n l).
Proof.
  revert l. induction n as [| n IH]; intros [| x l] F; cbn; auto.
  inversion F; auto.
Qed.

Lemma matchLitCI_head x p s :
  match s with [] => True | c :: _ => eqCI x c = false end ->
  matchLitCI (x :: p) s = None.
Proof. destruct s as [| c s]; cbn; [reflexivity |]. intros ->. reflexivity. Qed.

Lemma dateChar_not_letter x c :
  isAsciiLetter x = true -> isDateChar c = true -> eqCI x c = false.
Proof.
  unfold isAsciiLetter, isUpper, isLower, isDateChar, isDigit, eqCI, lowerAscii,
    isUpper.
  intros Hx Hc.
  repeat match goal with
         | H : context [?a <=? ?b] |- _ => destruct (Z.leb_spec a b); cbn in H
         | H : context [?a =? ?b] |- _ => destruct (Z.eqb_spec a b); cbn in H
         | |- context [?a <=? ?b] => destruct (Z.leb_spec a b); cbn
         end; try discriminate; apply Z.eqb_neq; lia.
Qed.

Lemma dateChars_no_literal x p s k :
  isAsciiLetter x = true ->
  Forall (fun c => isDateChar c = true) s ->
  matchLitCI (x :: p) (skipn k s) = None.
Proof.
  intros Hx F. apply matchLitCI_head.
  pose proof (Forall_skipn _ k s F) as F'.
  destruct (skipn k s); [exact I |]. inversion F'; subst.
  apply dateChar_not_letter; assumption.
Qed.

Lemma skipn_releasedOn i D :
  (12 <= i)%nat -> skipn i (releasedOn ++ D) = skipn (i - 12) D.
Proof.
  intros H. rewrite skipn_app, (skipn_all2 releasedOn) by exact H. reflexivity.
Qed.

Lemma no_template_in_numeric group tpl D :
  Forall (fun c => isDateChar c = true) D ->
  (tpl = ReleasedOn -> group D = None) ->
  forall i, matchTemplate group tpl (skipn i (releasedOn ++ D)) = None.
Proof.
  intros F G i.
  destruct (Nat.lt_ge_cases i 12) as [L | L].
  - destruct tpl.
    + do 12 (destruct i as [| i]; [reflexivity |]). lia.
    + destruct i as [| i]; [cbn; apply G; reflexivity |].
      do 11 (destruct i as [| i]; [reflexivity |]). lia.
    + do 12 (destruct i as [| i]; [reflexivity |]). lia.
  - rewrite skipn_releasedOn by exact L.
    destruct tpl; unfold matchTemplate;
      match goal with
      | |- context [matchLitCI (lit ?l) _] =>
          let v := eval vm_compute in (lit l) in change (lit l) with v
      end;
      rewrite dateChars_no_literal; auto.
Qed.

Lemma groupMonthDate_digit D x r :
  D = x :: r -> isDateChar x = true -> groupMonthDate D = None.
Proof.
  intros -> Hx. unfold groupMonthDate. cbn [takeWhile].
  replace (isMonthTokenChar x) with false; [reflexivity |].
  symmetry. unfold isMonthTokenChar, isAsciiLetter, isUpper, isLower.
  unfold isDateChar, isDigit in Hx.
  repeat match goal with
         | H : context [?a <=? ?b] |- _ => destruct (Z.leb_spec a b); cbn in H
         | H : context [?a =? ?b] |- _ => destruct (Z.eqb_spec a b); cbn in H
         end; try discriminate;
  repeat match goal with
         | |- context [?a <=? ?b] => destruct (Z.leb_spec a b); try lia
         | |- context [?a =? ?b] => destruct (Z.eqb_spec a b); try lia
         end; reflexivity.
Qed.

Lemma takeWhile_id f s : forallb f s = true -> takeWhile f s = s.
Proof.
  induction s as [| c s IH]; cbn; [reflexivity |].
  destruct (f c); cbn; [intros H; rewrite IH; auto | discriminate].
Qed.

Lemma groupNumDate_whole a b y :
  isDigits12 a -> isDigits12 b -> isYearDigits y ->
  groupNumDate (numericDateText a b y) = Some (numericDateText a b y).
Proof.
  intros Ha Hb [Ly Fy]. unfold groupNumDate, numericDateText. cbn [app].
  rewrite digits12_app by (auto; reflexivity). cbn [Z.eqb Pos.eqb].
  rewrite digits12_app by (auto; reflexivity). cbn [Z.eqb Pos.eqb].
  unfold digits24. rewrite takeWhile_id
    by (apply forallb_forall; rewrite Forall_forall in Fy; auto).
  rewrite firstn_all2 by lia.
  replace (2 <=? List.length y)%nat with true by (symmetry; apply Nat.leb_le; lia).
  reflexivity.
Qed.

Lemma normalized_numeric a b y :
  isDigits12 a -> isDigits12 b -> isYearDigits y ->
  trim (collapseWhiteSpace (releasedOn ++ numericDateText a b y))
  = releasedOn ++ numericDateText a b y.
Proof.
  intros Ha Hb Hy.
  assert (C : collapseWhiteSpace (releasedOn ++ numericDateText a b y)
              = releasedOn ++ numericDateText a b y).
  { change (collapseWhiteSpace (releasedOn ++ numericDateText a b y))
      with (lit "Released on" ++ 32 :: collapseFrom true (numericDateText a b y)).
    rewrite collapseFrom_id; [reflexivity |].
    pose proof (numericDateText_chars a b y Ha Hb Hy) as F.
    apply forallb_forall. rewrite Forall_forall in F. intros c Hc.
    specialize (F c Hc). unfold isDateChar in F.
    apply orb_true_iff in F. destruct F as [F | F].
    - rewrite digit_not_space; auto.
    - apply Z.eqb_eq in F. subst c. reflexivity. }
  rewrite C. destruct Hy as [Ly Fy].
  destruct y as [| y0 y'] using rev_ind; [cbn in Ly; lia |].
  unfold numericDateText.
  replace (releasedOn ++ a ++ [47] ++ b ++ [47] ++ y' ++ [y0])
    with (82 :: (lit "eleased on " ++ a ++ [47] ++ b ++ [47] ++ y') ++ [y0])
    by (unfold releasedOn; cbn; app_norm; reflexivity).
  apply trim_keep; [reflexivity |]. apply digit_not_space.
  rewrite Forall_forall in Fy. apply Fy, in_or_app. cbn. auto.
Qed.

Lemma searchTemplate_here group tpl pw s c :
  wordBoundary pw s = true -> matchTemplate group tpl s = Some c ->
  searchTemplate group tpl pw s = Some c.
Proof. intros W M. destruct s; cbn [searchTemplate]; rewrite W, M; reflexivity. Qed.

Lemma matchTemplate_releasedOn group D :
  wordBoundary false (releasedOn ++ D) = true /\
  matchTemplate group ReleasedOn (releasedOn ++ D) = group D.
Proof. split; reflexivity. Qed.

Lemma extract_numeric a b y :
  isDigits12 a -> isDigits12 b -> isYearDigits y ->
  extractReleaseDateFromText (releasedOn ++ numericDateText a b y)
  = parseNumericUsDate (numericDateText a b y).
Proof.
  intros Ha Hb Hy.
  pose proof (numericDateText_chars a b y Ha Hb Hy) as F.
  unfold extractReleaseDateFromText.
  change (releasedOn ++ numericDateText a b y)
    with (82 :: lit "eleased on " ++ numericDateText a b y) at 1.
  cbv iota. rewrite normalized_numeric by assumption.
  assert (GM : groupMonthDate (numericDateText a b y) = None).
  { destruct (isDigits12_head a Ha) as (x & r & E & Hx).
    eapply (groupMonthDate_digit _ x (r ++ [47] ++ b ++ [47] ++ y)).
    - unfold numericDateText. rewrite E. reflexivity.
    - unfold isDateChar. rewrite Hx. reflexivity. }
  unfold RELEASE_PATTERNS_MONTH, RELEASE_PATTERNS_NUM. cbn [tryPatterns].
  rewrite !(searchTemplate_none groupMonthDate)
    by (apply no_template_in_numeric; auto; discriminate).
  rewrite (searchTemplate_none groupNumDate ReleasedByOn)
    by (apply no_template_in_numeric; auto; discriminate).
  rewrite (searchTemplate_none groupNumDate ToBeReleasedOn)
    by (apply no_template_in_numeric; auto; discriminate).
  rewrite (searchTemplate_here groupNumDate ReleasedOn false _
             (numericDateText a b y)).
  2:{ exact (proj1 (matchTemplate_releasedOn groupNumDate _)). }
  2:{ rewrite (proj2 (matchTemplate_releasedOn _ _)).
      apply groupNumDate_whole; assumption. }
  destruct (parseNumericUsDate (numericDateText a b y)); reflexivity.
Qed.

(** C6, amended: where the phrase "Released on May 3, 2024" is the first
    release phrase of the normalized text (no "released" before it, no
    phrase "Released by ... on Month D, YYYY" after it, and the phrase at
    the start of the text or after a character that is not a word
    character), the extractor returns 2024-05-03, whatever else follows
    the phrase; for a text "Released on a/b/y" with numeric groups it
    returns the date with month [a] and day [b] when that is a date of the
    calendar, else the date with month [b] and day [a] when that is one,
    else nothing, a year below 100 counting from 2000; so "Released on
    5/3/24" gives 2024-05-03. *)
Theorem release_date_of_first_phrase :
  (forall text pre post,
     trim (collapseWhiteSpace text) = pre ++ phraseMay ++ post ->
     (forall i, (i < List.length pre)%nat ->
                ~ occursCI (lit "released") (pre ++ phraseMay ++ post) i) ->
     ~ releasedByOnDate post ->
     wordBefore false pre = false ->
     extractReleaseDateFromText text = Some (civil 2024 5 3)) /\
  (YearFromTime (civil 2024 5 3) = 2024 /\
   MonthFromTime (civil 2024 5 3) = 4 /\
   DateFromTime (civil 2024 5 3) = 3) /\
  (forall a b y,
     isDigits12 a -> isDigits12 b -> isYearDigits y ->
     extractReleaseDateFromText (releasedOn ++ numericDateText a b y) =
     let A := numberOfDigits a in
     let B := numberOfDigits b in
     let Y := numericYear y in
     if validDate Y A B then Some (civil Y A B)
     else if validDate Y B A then Some (civil Y B A)
     else None) /\
  extractReleaseDateFromText (lit "Released on 5/3/24")
  = Some (civil 2024 5 3).
Proof.
  split; [exact extract_phraseMay |].
  split; [apply civil_getters; reflexivity |].
  split; [| reflexivity].
  intros a b y Ha Hb Hy.
  rewrite extract_numeric by assumption.
  apply parseNumericUsDate_month_first; assumption.
Qed.

Lemma release_date_of_first_phrase_witness :
  extractReleaseDateFromText exPhraseThenLabel = Some (civil 2024 5 3) /\
  extractReleaseDateFromText (lit "Released on 25/3/24")
  = Some (civil 2024 3 25).
Proof.
  split.
  - apply (proj1 release_date_of_first_phrase exPhraseThenLabel (lit "New: ")
             (lit ". Released by Alpha on vinyl.")).
    + vm_compute. reflexivity.
    + intros i Hi.
      do 5 (destruct i as [| i]; [vm_compute; congruence |]).
      cbn in Hi. lia.
    + intros (i & j & _ & _ & Hj & (tok & d & y & rest & E & _)).
      assert (Sp : In 32 (skipn (j + 4) (lit ". Released by Alpha on vinyl."))).
      { rewrite E. apply in_or_app. right. left. reflexivity. }
      do 30 (destruct j as [| j];
             [first [ exfalso; apply Hj; vm_compute; reflexivity
                    | vm_compute in Sp;
                      repeat (destruct Sp as [Sp | Sp]; [discriminate |]);
                      contradiction ] |]).
      apply Hj. vm_compute. reflexivity.
    + reflexivity.
  - apply (proj1 (proj2 (proj2 release_date_of_first_phrase))
             (lit "25") (lit "3") (lit "24")).
    + right. split; [reflexivity | repeat constructor].
    + left. split; [reflexivity | repeat constructor].
    + split; [cbn; lia | repeat constructor].
Defined.

(** C6 as stated fails on a text that has the phrase after an earlier
    release phrase, and on one that has it inside a word. *)
Lemma earlier_release_phrase_wins :
  (exists pre, exTwoPhrases = pre ++ phraseMay) /\
  extractReleaseDateFromText exTwoPhrases = Some (civil 2020 1 1) /\
  extractReleaseDateFromText exTwoPhrases <> Some (civil 2024 5 3) /\
  extractReleaseDateFromText (lit "PreReleased on May 3, 2024") = None.
Proof.
  split; [exists (lit "Released by X on Jan 1, 2020. "); reflexivity |].
  split; [vm_compute; reflexivity |].
  split; [vm_compute; discriminate | vm_compute; reflexivity].
Qed.

(** ** Counters of a run *)

Lemma candidatesLoop_keeps links labelName lo hi :
  forall candidates seen st,
  keeps albumCounters st
    (snd (candidatesLoop links labelName lo hi candidates seen st)).
Proof.
  induction links as [| link rest IH]; intros candidates seen st;
    cbn [candidatesLoop].
  - apply keeps_refl.
  - destruct (negb (includes (href link) albumPath)); [apply IH |].
    destruct (resolved link) as [albumUrl |]; [| apply keeps_refl].
    destruct (existsb (eqb albumUrl) seen); [apply IH |].
    destruct (extractListingReleaseDateForLink (climb link) albumUrl 10)
      as [[rel |] |].
    + destruct ((rel >=? lo) && (rel <=? hi)); apply IH.
    + apply IH.
    + eapply keeps_trans; [| apply IH]. keeps_field.
Qed.

Lemma extractAlbumCandidatesFromListing_keeps page labelName lo hi st :
  keeps albumCounters st
    (snd (extractAlbumCandidatesFromListing page labelName lo hi st)).
Proof.
  unfold extractAlbumCandidatesFromListing.
  pose proof (candidatesLoop_keeps (anchors page) labelName lo hi [] [] st) as K.
  destruct (candidatesLoop _ _ _ _ _ _ _) as [[cands |] s]; cbn [snd] in *;
    [destruct (listingHasPage2 _) |]; exact K.
Qed.

Section RunCounters.
Variable toLowerCase : str -> str.
Variable normalizeLabelBase : str -> option str.
Variable buildLabelPageUrl : str -> Z -> str.

Lemma pagesLoop_keeps config net label normalized remaining :
  forall page acc,
  keeps albumCounters (stats (lst_state acc))
    (stats (lst_state
       (pagesLoop buildLabelPageUrl config net label normalized remaining page acc))).
Proof.
  induction remaining as [| k IH]; intros page acc; cbn [pagesLoop].
  - apply keeps_refl.
  - destruct ((page >? 1) && (max_pages_per_label config <=? 1));
      [apply keeps_refl |].
    pose proof (fetchHtml_keeps config net (buildLabelPageUrl normalized page)
                  (lst_state acc)) as KF.
    apply (keeps_incl _ _ _ _ albumCounters_notHttp) in KF.
    destruct (fetchHtml config net (buildLabelPageUrl normalized page) (lst_state acc))
      as [html st]. cbn [snd] in KF.
    assert (Next : forall s cands seen,
      keeps albumCounters (stats st) s ->
      keeps albumCounters (stats (lst_state acc))
        (stats (lst_state
           (pagesLoop buildLabelPageUrl config net label normalized k (page + 1)
              {| lst_state := {| stats := s; sent := sent st; events := events st |};
                 lst_candidates := cands; lst_seen := seen |})))).
    { intros s cands seen Ks. eapply keeps_trans; [| apply IH]. cbn.
      eapply keeps_trans; eauto. }
    destruct (usable html) as [h |].
    2:{ eapply keeps_trans; [exact KF | apply IH]. }
    destruct (as_listing h) as [listing |].
    2:{ apply Next. keeps_field. }
    pose proof (extractAlbumCandidatesFromListing_keeps listing (name label)
                  (date_from config) (date_to config) (stats st)) as KE.
    destruct (extractAlbumCandidatesFromListing _ _ _ _ _)
      as [[[extracted hasPage2] |] s]; cbn [snd] in KE.
    2:{ apply Next. eapply keeps_trans; [exact KE | keeps_field]. }
    cbn [lst_candidates lst_seen].
    destruct (mergeCandidates extracted (lst_candidates acc) (lst_seen acc))
      as [candidates seen].
    destruct ((page =? 1) && negb hasPage2).
    + cbn. eapply keeps_trans; eauto.
    + apply Next. exact KE.
Qed.

Lemma labelsLoop_keeps config net labels :
  forall acc out,
  labelsLoop normalizeLabelBase buildLabelPageUrl config net labels acc = Some out ->
  keeps albumCounters (stats (lst_state acc)) (stats (lst_state out)).
Proof.
  induction labels as [| label rest IH]; intros acc out H; cbn [labelsLoop] in H.
  - injection H as <-. apply keeps_refl.
  - destruct (normalizeLabelBase (url label)) as [normalized |]; [| discriminate].
    apply IH in H. eapply keeps_trans; [| exact H].
    eapply keeps_trans; [| apply pagesLoop_keeps]. cbn. keeps_field.
Qed.

Lemma filterCandidate_invariant config cand det dups acc :
  albumInvariant dups acc ->
  albumInvariant dups (filterCandidate toLowerCase config cand det acc).
Proof.
  unfold albumInvariant, filterCandidate, laterStages. intros [D M].
  destruct (release_date_album det) as [d |].
  - destruct ((d <? date_from config) || (d >? date_to config)); [cbn; auto |].
    destruct (negb (genreMatchesRoot toLowerCase config det)); [cbn; auto |].
    destruct (total_seconds det <? min_minutes config * 60); cbn; auto.
  - destruct (negb (genreMatchesRoot toLowerCase config det));
      [| destruct (total_seconds det <? min_minutes config * 60)];
      cbn; rewrite ?length_app; cbn; split; auto; lia.
Qed.

Lemma albumStep_invariant config net cand dups acc :
  albumInvariant dups acc ->
  albumInvariant dups (albumStep toLowerCase config net cand acc).
Proof.
  intros [D M]. unfold albumStep.
  pose proof (fetchHtml_keeps config net (album_url cand)
                (updStats incAlbumsFetched (acc_state acc))) as KF.
  destruct (fetchHtml config net (album_url cand) _) as [html st].
  cbn [snd] in KF.
  assert (I0 : albumInvariant dups (withState st acc)).
  { split; cbn.
    - rewrite (KF duplicatesRemoved) by (cbn; tauto). exact D.
    - rewrite (KF missingAlbumDate) by (cbn; tauto). exact M. }
  destruct (usable html) as [h |]; [| exact I0].
  destruct (as_album h) as [page |].
  - destruct (parseAlbumDetails toLowerCase page) as [det |]; [| exact I0].
    apply filterCandidate_invariant, I0.
  - destruct I0 as [D0 M0]. split; cbn; auto.
Qed.

Lemma albumLoop_invariant config net candidates dups :
  forall acc,
  albumInvariant dups acc ->
  albumInvariant dups (albumLoop toLowerCase config net candidates acc).
Proof.
  unfold albumLoop.
  induction candidates as [| c rest IH]; intros acc I; cbn [fold_left].
  - exact I.
  - apply IH, albumStep_invariant, I.
Qed.

Lemma run_counters config labels net dryRun r :
  runQobuzScraper toLowerCase normalizeLabelBase buildLabelPageUrl
    config labels net dryRun = Some r ->
  run_records r = keepFirst toLowerCase [] (run_accepted r) /\
  duplicatesRemoved (run_stats r)
  = Z.of_nat (List.length (run_accepted r))
    - Z.of_nat (List.length (run_records r)) /\
  missingAlbumDate (run_stats r) = Z.of_nat (List.length (run_missingRows r)).
Proof.
  unfold runQobuzScraper.
  destruct (labelsLoop _ _ _ _ _ _) as [listed |] eqn:L; [| discriminate].
  apply labelsLoop_keeps in L. cbn [lst_state stats] in L.
  match goal with |- context [albumLoop _ _ _ _ ?a] =>
    assert (I : albumInvariant 0 a);
    [| pose proof (albumLoop_invariant config net (lst_candidates listed) 0 a I) as A;
       set (acc := albumLoop toLowerCase config net (lst_candidates listed) a) in * ]
    end.
  { split; cbn.
    - rewrite (L duplicatesRemoved) by (cbn; tauto). reflexivity.
    - rewrite (L missingAlbumDate) by (cbn; tauto). reflexivity. }
  pose proof (dedupLoop_keepFirst toLowerCase (acc_accepted acc) [] []
                (stats (acc_state acc)) [] ltac:(intros k; reflexivity)) as D.
  cbv zeta in D. fold (deduplicate toLowerCase (acc_accepted acc) (stats (acc_state acc))) in D.
  destruct (deduplicate toLowerCase (acc_accepted acc) (stats (acc_state acc)))
    as [dedup s].
  cbn [fst snd app] in D. destruct D as (D1 & D2 & D3).
  destruct A as [A1 A2].
  intros H; injection H as <-. cbn.
  rewrite D2, A1, <- D1, (D3 missingAlbumDate) by (cbn; tauto).
  repeat split; auto.
Qed.

Lemma keepFirst_keys_fresh earlier records r e :
  In r (keepFirst toLowerCase earlier records) -> In e earlier ->
  recordKey toLowerCase r <> recordKey toLowerCase e.
Proof.
  revert earlier. induction records as [| x rest IH]; intros earlier; cbn;
    [tauto |].
  destruct (existsb _ earlier) eqn:E.
  - intros Hr He. apply (IH (earlier ++ [x])); auto. apply in_or_app. auto.
  - intros [<- | Hr] He.
    + intros K. apply Bool.not_true_iff_false in E. apply E.
      apply existsb_exists. exists e. split; [exact He |].
      apply eqb_eq. exact K.
    + apply (IH (earlier ++ [x])); auto. apply in_or_app. auto.
Qed.

Lemma keepFirst_NoDup earlier records :
  NoDup (map (recordKey toLowerCase) (keepFirst toLowerCase earlier records)).
Proof.
  revert earlier. induction records as [| x rest IH]; intros earlier; cbn;
    [constructor |].
  destruct (existsb _ earlier); [apply IH |].
  cbn. constructor; [| apply IH].
  intros I. apply in_map_iff in I. destruct I as (r & K & Hr).
  apply (keepFirst_keys_fresh _ _ r x) in Hr; [congruence |].
  apply in_or_app. cbn. auto.
Qed.

Lemma keepFirst_covers earlier records r :
  In r records ->
  (exists e, In e earlier /\ recordKey toLowerCase e = recordKey toLowerCase r)
  \/ (exists k, In k (keepFirst toLowerCase earlier records) /\
                recordKey toLowerCase k = recordKey toLowerCase r).
Proof.
  revert earlier. induction records as [| x rest IH]; intros earlier; cbn;
    [tauto |].
  intros [<- | Hr].
  - destruct (existsb _ earlier) eqn:E.
    + left. apply existsb_exists in E. destruct E as (e & He & K).
      apply eqb_eq in K. eauto.
    + right. exists x. cbn. auto.
  - destruct (IH (earlier ++ [x]) Hr) as [(e & He & K) | (k & Hk & K)].
    + apply in_app_or in He. destruct He as [He | [<- | []]].
      * left. eauto.
      * destruct (existsb _ earlier) eqn:E.
        -- left. apply existsb_exists in E. destruct E as (e & He & K').
           apply eqb_eq in K'. exists e. split; [exact He | congruence].
        -- right. exists x. cbn. auto.
    + right. exists k. split; [| exact K].
      destruct (existsb _ earlier); cbn; auto.
Qed.

(** C5: the key of a record is its lower-cased, trimmed and
    white-space-collapsed title, main artists and label, joined by "||".
    The deduplication keeps, in order, the records that no earlier record
    shares its key with: no two kept records have one key, every key of the
    input is the key of a kept record, and [duplicatesRemoved] grows by the
    length of the input minus the length of the output; in a run it is
    exactly that difference. *)
Theorem deduplication_keeps_first_per_key :
  (forall r,
     recordKey toLowerCase r
     = toLowerCase (collapseWhiteSpace (trim (rec_album_title r)))
       ++ lit "||"
       ++ toLowerCase (collapseWhiteSpace (trim (rec_main_artists r)))
       ++ lit "||"
       ++ toLowerCase (collapseWhiteSpace (trim (rec_label r)))) /\
  (forall records st,
     let out := deduplicate toLowerCase records st in
     fst out = keepFirst toLowerCase [] records /\
     NoDup (map (recordKey toLowerCase) (fst out)) /\
     (forall r, In r records ->
        exists k, In k (fst out) /\
                  recordKey toLowerCase k = recordKey toLowerCase r) /\
     (forall k, In k (fst out) -> In k records) /\
     duplicatesRemoved (snd out)
     = duplicatesRemoved st
       + (Z.of_nat (List.length records) - Z.of_nat (List.length (fst out)))) /\
  (forall config labels net dryRun r,
     runQobuzScraper toLowerCase normalizeLabelBase buildLabelPageUrl
       config labels net dryRun = Some r ->
     run_records r = keepFirst toLowerCase [] (run_accepted r) /\
     duplicatesRemoved (run_stats r)
     = Z.of_nat (List.length (run_accepted r))
       - Z.of_nat (List.length (run_records r))).
Proof.
  split; [reflexivity |]. split.
  - intros records st. cbv zeta.
    destruct (deduplicate_keepFirst toLowerCase records st) as (D1 & D2 & _).
    rewrite D1 in *. repeat split; auto.
    + apply keepFirst_NoDup.
    + intros r Hr.
      destruct (keepFirst_covers [] records r Hr) as [(e & [] & _) | H].
      exact H.
    + intros k Hk. eapply keepFirst_sublist; eauto.
  - intros config labels net dryRun r H.
    apply run_counters in H. tauto.
Qed.

End RunCounters.

Lemma deduplication_keeps_first_per_key_witness :
  fst (deduplicate asciiToLowerCase exRecords initialStats)
  = [exRecord "Piano Sonatas" "Someone"; exRecord "Other" "Someone"] /\
  duplicatesRemoved (snd (deduplicate asciiToLowerCase exRecords initialStats))
  = 2 /\
  (exists r, exRun = Some r /\
     duplicatesRemoved (run_stats r)
     = Z.of_nat (List.length (run_accepted r))
       - Z.of_nat (List.length (run_records r))).
Proof.
  pose proof (deduplication_keeps_first_per_key asciiToLowerCase exNormalize
                exBuildPage) as (_ & D & R).
  specialize (D exRecords initialStats). cbv zeta in D.
  destruct D as (D1 & _ & _ & _ & D5).
  split; [rewrite D1; reflexivity |].
  split; [rewrite D5, D1; reflexivity |].
  eexists. split; [vm_compute; reflexivity |].
  apply (R exConfig exLabels exNet false). vm_compute. reflexivity.
Defined.

(** * Further properties of the code *)

(** ** Dates accepted by [parsePlDate] *)

Lemma matchPlDate_plFields v a b c :
  matchPlDate v = Some (a, b, c) ->
  plFields v = Some (numberOfDigits a, numberOfDigits b, numberOfDigits c).
Proof.
  unfold matchPlDate, plFields.
  destruct v as [| d1 [| d2 [| p1 [| m1 [| m2 [| p2 [| y1 [| y2 [| y3 [| y4 [| ? ?]]]]]]]]]]];
    try discriminate.
  destruct (forallb isDigit _ && _ && _); [| discriminate].
  intros H; injection H as <- <- <-.
  unfold numberOfDigits, digitVal. cbn [fold_left].
  apply f_equal. apply f_equal2; [apply f_equal2 |]; lia.
Qed.

Lemma plFields_year_range v d m y :
  plFields v = Some (d, m, y) -> 0 <= y <= 9999.
Proof.
  intros H. apply plFields_inv in H.
  destruct H as (d1 & d2 & m1 & m2 & y1 & y2 & y3 & y4 & _ & F & _ & _ & ->).
  repeat match goal with
         | H : Forall _ (_ :: _) |- _ => inversion H; clear H; subst
         end. lia.
Qed.

(** X1: [parsePlDate] accepts exactly the strings that, once trimmed, have
    the form DD.MM.YYYY and denote a date of the calendar with a year of 100
    or more, and returns midnight UTC of that date. *)
Theorem parsePlDate_accepts_exactly text t :
  parsePlDate text = Ok t <->
  exists d m y, plFields (trim text) = Some (d, m, y) /\
    validDate y m d = true /\ 100 <= y /\ t = civil y m d.
Proof.
  unfold parsePlDate. split.
  - destruct (matchPlDate (trim text)) as [[[a b] c] |] eqn:M; [| discriminate].
    destruct (checkedUTC _ _ _) as [t0 |] eqn:C; [| discriminate].
    intros H; injection H as <-.
    apply matchPlDate_plFields in M.
    pose proof (plFields_year_range _ _ _ _ M) as Y.
    apply checkedUTC_some in C. destruct C as (V & N & E & _).
    replace (numberOfDigits b - 1 + 1) with (numberOfDigits b) in V by lia.
    exists (numberOfDigits a), (numberOfDigits b), (numberOfDigits c).
    repeat split; auto. lia.
  - intros (d & m & y & F & V & Y & ->).
    pose proof (plFields_year_range _ _ _ _ F) as R.
    destruct (matchPlDate_fields _ _ _ _ F) as (_ & a & b & c & M & <- & <- & <-).
    rewrite M, checkedUTC_civil by lia. rewrite V. reflexivity.
Qed.

Lemma parsePlDate_accepts_exactly_witness :
  parsePlDate (lit "  29.02.2024 ") = Ok (civil 2024 2 29).
Proof.
  apply (proj2 (parsePlDate_accepts_exactly (lit "  29.02.2024 ") (civil 2024 2 29))).
  exists 29, 2, 2024. repeat split; try reflexivity. lia.
Defined.

Lemma formatPlDate_civil y m d :
  validDate y m d = true -> 1000 <= y <= 9999 ->
  formatPlDate (civil y m d) =
  [48 + d / 10; 48 + d mod 10; 46; 48 + m / 10; 48 + m mod 10; 46;
   48 + y / 1000; 48 + (y / 100) mod 10; 48 + (y / 10) mod 10; 48 + y mod 10].
Proof.
  intros V Y. destruct (civil_getters y m d V) as (G1 & G2 & G3).
  assert (D : daysInMonth y m <= 31).
  { unfold daysInMonth. destruct (isLeapYear y); split_eqb; cbn [orb]; lia. }
  unfold validDate in V. rewrite !andb_true_iff, !Z.leb_le in V.
  unfold formatPlDate. rewrite G1, G2, G3.
  replace (m - 1 + 1) with m by lia.
  rewrite !stringOfInt_pad2 by lia. rewrite stringOfInt_4 by lia.
  reflexivity.
Qed.

(** X2: formatting a date of the calendar with a year from 1000 to 9999 and
    parsing the text gives the date back. *)
Theorem parsePlDate_formatPlDate y m d :
  validDate y m d = true -> 1000 <= y <= 9999 ->
  parsePlDate (formatPlDate (civil y m d)) = Ok (civil y m d).
Proof.
  intros V Y. rewrite formatPlDate_civil by assumption.
  assert (D : daysInMonth y m <= 31).
  { unfold daysInMonth. destruct (isLeapYear y); split_eqb; cbn [orb]; lia. }
  pose proof V as V'. unfold validDate in V'.
  rewrite !andb_true_iff, !Z.leb_le in V'.
  set (s := [48 + d / 10; _; _; _; _; _; _; _; _; _]).
  assert (F : plFields s = Some (d, m, y)).
  { unfold s, plFields.
    replace (forallb isDigit _) with true.
    2:{ symmetry. apply forallb_forall. intros c Hc. apply isDigit_iff.
        cbn [In] in Hc.
        repeat (destruct Hc as [<- | Hc]; [zdiv |]). contradiction. }
    cbn [andb Z.eqb Pos.eqb].
    apply f_equal. apply f_equal2; [apply f_equal2 |]; zdiv. }
  destruct (matchPlDate_fields _ _ _ _ F) as (T & a & b & c & M & <- & <- & <-).
  unfold parsePlDate. rewrite T, M, checkedUTC_civil by lia.
  rewrite V. reflexivity.
Qed.

Lemma parsePlDate_formatPlDate_witness :
  parsePlDate (formatPlDate (civil 2024 2 29)) = Ok (civil 2024 2 29).
Proof. apply parsePlDate_formatPlDate; [reflexivity | lia]. Defined.

(** ** Dates that the extractor returns *)

Lemma checkedUTC_calendar y mi d t :
  checkedUTC y mi d = Some t -> 0 <= y <= 9999 -> isCalendarDate t.
Proof.
  intros C Y. apply checkedUTC_some in C. destruct C as (V & N & E & _).
  exists y, (mi + 1), d. repeat split; auto; try lia.
  unfold civil. replace (mi + 1 - 1) with mi by lia. exact E.
Qed.

Lemma isDigits_bound n s :
  isDigits n s -> 0 <= numberOfDigits s < 10 ^ Z.of_nat n.
Proof. intros [<- F]. apply numberOfDigits_bound, F. Qed.

Lemma parseEnglishMonthDate_calendar text t :
  parseEnglishMonthDate text = Some t -> isCalendarDate t.
Proof.
  unfold parseEnglishMonthDate.
  destruct (collapseWhiteSpace (trim text)) as [| c0 s0]; [discriminate |].
  match goal with |- context [matchEnglishDate ?s] =>
    destruct (matchEnglishDate s) as [[[m1 m2] m3] |] eqn:M; [| discriminate] end.
  destruct (monthIndex _) as [mi |]; [| discriminate].
  intros C. apply checkedUTC_calendar in C; [exact C |].
  unfold matchEnglishDate in M.
  destruct (takeWhile isAsciiLetter _) as [| n0 n]; [discriminate |].
  destruct (dropWhile isAsciiLetter _) as [| w r2]; [discriminate |].
  destruct (isWhiteSpace w); [| discriminate].
  destruct (digits12 _) as [[dd [| c r3]] |]; try discriminate.
  destruct (c =? 44); [| discriminate].
  destruct (digitsN 4 _) as [[y [| ? ?]] |] eqn:D; try discriminate.
  injection M as <- <- <-.
  apply digitsN_inv in D. destruct D as [_ D].
  apply isDigits_bound in D. change (10 ^ Z.of_nat 4) with 10000 in D. lia.
Qed.

Lemma matchNumericDate_year s a b y :
  matchNumericDate s = Some (a, b, y) -> isYearDigits y.
Proof.
  unfold matchNumericDate.
  destruct (digits12 s) as [[a0 [| c1 r1]] |]; try discriminate.
  destruct (c1 =? 47); [| discriminate].
  destruct (digits12 r1) as [[b0 [| c2 y0]] |]; try discriminate.
  destruct ((c2 =? 47) && forallb isDigit y0 && (2 <=? List.length y0)%nat
            && (List.length y0 <=? 4)%nat) eqn:E; [| discriminate].
  intros H; injection H as <- <- <-.
  rewrite !andb_true_iff in E. destruct E as [[[_ E1] E2] E3].
  apply Nat.leb_le in E2, E3. split; [lia |].
  apply Forall_forall. rewrite forallb_forall in E1. exact E1.
Qed.

Lemma parseNumericUsDate_calendar text t :
  parseNumericUsDate text = Some t -> isCalendarDate t.
Proof.
  unfold parseNumericUsDate.
  destruct (collapseWhiteSpace (trim text)) as [| c0 s0]; [discriminate |].
  destruct (matchNumericDate (c0 :: s0)) as [[[m1 m2] m3] |] eqn:M; [| discriminate].
  apply matchNumericDate_year in M. apply numericYear_range in M.
  fold (numericYear m3). cbn [fst snd].
  destruct (checkedUTC (numericYear m3) (numberOfDigits m1 - 1) (numberOfDigits m2))
    as [t1 |] eqn:C1.
  - intros H; injection H as <-. eapply checkedUTC_calendar; eauto. lia.
  - intros C2. eapply checkedUTC_calendar; eauto. lia.
Qed.

Lemma tryPatterns_some group parse patterns normalized t :
  tryPatterns group parse patterns normalized = Some t ->
  exists m1, parse m1 = Some t.
Proof.
  induction patterns as [| rx rest IH]; cbn [tryPatterns]; [discriminate |].
  destruct (searchTemplate group rx false normalized) as [m1 |]; [| exact IH].
  destruct (parse m1) as [p |] eqn:P; [| exact IH].
  intros H; injection H as <-. eauto.
Qed.

Lemma extractReleaseDateFromText_isCalendarDate text t :
  extractReleaseDateFromText text = Some t -> isCalendarDate t.
Proof.
  unfold extractReleaseDateFromText.
  destruct text as [| c0 r]; [discriminate |].
  destruct (tryPatterns groupMonthDate _ _ _) as [p |] eqn:T1.
  - intros H; injection H as <-. apply tryPatterns_some in T1.
    destruct T1 as (m1 & P). eapply parseEnglishMonthDate_calendar; eauto.
  - intros T2. apply tryPatterns_some in T2.
    destruct T2 as (m1 & P). eapply parseNumericUsDate_calendar; eauto.
Qed.



(** ** Durations that [hmsToSeconds] accepts *)

Lemma matchHms_inv s a b c :
  matchHms s = Some (a, b, c) -> HmsShape s a b c.
Proof.
  unfold matchHms.
  destruct (digits12 s) as [[a0 [| c1 r]] |] eqn:D; try discriminate.
  destruct (Z.eqb_spec c1 58) as [-> | ?]; [| discriminate].
  apply digits12_inv in D. destruct D as (-> & Ha & _).
  destruct (digitsN 2 r) as [[b0 r2] |] eqn:D2; [| discriminate].
  apply digitsN_inv in D2. destruct D2 as (-> & Hb).
  destruct r2 as [| c2 r3].
  - intros H; injection H as <- <- <-. rewrite app_nil_r.
    apply (Hms2 a0 b0); assumption.
  - destruct (Z.eqb_spec c2 58) as [-> | ?]; [| discriminate].
    destruct (digitsN 2 r3) as [[d0 [| ? ?]] |] eqn:D3; try discriminate.
    apply digitsN_inv in D3. destruct D3 as (-> & Hd).
    intros H; injection H as <- <- <-. rewrite app_nil_r.
    apply (Hms3 a0 b0 d0); assumption.
Qed.

(** X4: [hmsToSeconds] accepts exactly the trimmed texts of the forms [a:bb]
    and [a:bb:cc], [a] of one or two digits; none of the parts is checked
    against 59, so the result ranges from 0 to 99:99:99. *)
Theorem hmsToSeconds_accepts_exactly value n :
  hmsToSeconds value = Some n <->
  exists a b c, HmsShape (trim value) a b c /\
    n = match c with
        | None => numberOfDigits a * 60 + numberOfDigits b
        | Some c => numberOfDigits a * 3600 + numberOfDigits b * 60
                    + numberOfDigits c
        end.
Proof.
  split.
  - unfold hmsToSeconds.
    destruct (matchHms (trim value)) as [[[a b] c] |] eqn:M; [| discriminate].
    apply matchHms_inv in M. intros H. exists a, b, c. split; [exact M |].
    destruct c; injection H as <-; reflexivity.
  - intros (a & b & c & Sh & ->). unfold hmsToSeconds.
    rewrite (matchHms_shape _ _ _ _ Sh). destruct c; reflexivity.
Qed.

Lemma hmsToSeconds_accepts_exactly_witness :
  hmsToSeconds (lit " 1:99 ") = Some 159.
Proof.
  apply (proj2 (hmsToSeconds_accepts_exactly (lit " 1:99 ") 159)).
  exists (lit "1"), (lit "99"), None. split; [| reflexivity].
  apply (Hms2 (lit "1") (lit "99")).
  - left. split; [reflexivity | repeat constructor].
  - split; [reflexivity | repeat constructor].
Defined.

(** ** The fetch layer *)

Lemma retried_tail net u from b bases :
  retried net u from (b :: bases) ->
  backoffBase (net from u) = Some b /\ retried net u (S from) bases.
Proof.
  intros R. split.
  - specialize (R O b eq_refl). rewrite Nat.add_0_r in R. exact R.
  - intros j b' H. specialize (R (S j) b' H).
    replace (S from + j)%nat with (from + S j)%nat by lia. exact R.
Qed.

Lemma fetchAttempts_retry config net u k attempt st b :
  attempt <= retries config ->
  backoffBase (net (sent st) u) = Some b ->
  fetchAttempts config net u (S k) attempt st =
  fetchAttempts config net u k (attempt + 1)
    {| stats := stats st; sent := S (sent st);
       events := events st ++ [Request u; Sleep (b * 2 ^ (attempt - 1))] |}.
Proof.
  intros A B. cbn [fetchAttempts]. unfold request, sleep. cbn [stats sent events].
  replace (attempt >? retries config) with false
    by (symmetry; rewrite Z.gtb_ltb; apply Z.ltb_ge; exact A).
  unfold backoffBase in B.
  destruct (net (sent st) u) as [| status body].
  - injection B as <-. rewrite <- app_assoc. reflexivity.
  - destruct (status =? 429);
      [injection B as <-; rewrite <- app_assoc; reflexivity |].
    destruct ((500 <=? status) && (status <? 600));
      [injection B as <-; rewrite <- app_assoc; reflexivity |].
    destruct (status =? 200); [| discriminate]. cbn [negb].
    destruct body; [discriminate |]. injection B as <-.
    rewrite <- app_assoc. reflexivity.
Qed.

Lemma fetchAttempts_retried config net u bases :
  forall remaining attempt st,
  attempt + Z.of_nat remaining = retries config + 1 ->
  (List.length bases <= remaining)%nat ->
  retried net u (sent st) bases ->
  fetchAttempts config net u remaining attempt st =
  fetchAttempts config net u (remaining - List.length bases)
    (attempt + Z.of_nat (List.length bases))
    {| stats := stats st; sent := (sent st + List.length bases)%nat;
       events := events st ++ backoffSchedule u (attempt - 1) bases |}.
Proof.
  induction bases as [| b bases IH]; intros remaining attempt st I L R.
  - cbn [List.length backoffSchedule]. rewrite Nat.sub_0_r, Z.add_0_r,
      Nat.add_0_r, app_nil_r. destruct st; reflexivity.
  - cbn [List.length] in *. destruct remaining as [| k]; [lia |].
    apply retried_tail in R. destruct R as [B R].
    rewrite (fetchAttempts_retry config net u k attempt st b) by (auto; lia).
    rewrite IH; cbn [stats sent events]; auto; try lia.
    cbn [Nat.sub backoffSchedule]. rewrite <- app_assoc. cbn [app].
    replace (attempt + 1 - 1) with (attempt - 1 + 1) by lia.
    replace (attempt + 1 + Z.of_nat (List.length bases))
      with (attempt + Z.of_nat (S (List.length bases))) by lia.
    replace (S (sent st) + List.length bases)%nat
      with (sent st + S (List.length bases))%nat by lia.
    reflexivity.
Qed.

(** X5: when every one of the [retries] attempts is answered by status 429,
    a status 5xx or a rejection, [fetchHtml] sends exactly [retries]
    requests, sleeps after the k-th for base * 2^(k-1) ms (base 2000 for
    429, 1000 otherwise), counts one HTTP error and returns nothing. *)
Theorem fetchHtml_backoff_until_exhausted config net u st bases :
  0 <= retries config ->
  List.length bases = Z.to_nat (retries config) ->
  retried net u (sent st) bases ->
  fetchHtml config net u st =
  (None,
   {| stats := incHttpErrors (stats st);
      sent := (sent st + List.length bases)%nat;
      events := events st ++ backoffSchedule u 0 bases |}).
Proof.
  intros P L R. unfold fetchHtml.
  rewrite (fetchAttempts_retried config net u bases) by (auto; lia).
  rewrite L, Nat.sub_diag. reflexivity.
Qed.

(** X6: when the first attempts are answered by retried outcomes and the
    next one, still within [retries], by status 200 with a body, [fetchHtml]
    returns that body after the back-off sleeps, and changes no counter. *)
Theorem fetchHtml_succeeds_after_retries config net u st bases h :
  (List.length bases < Z.to_nat (retries config))%nat ->
  retried net u (sent st) bases ->
  net (sent st + List.length bases)%nat u = Responds 200 (Some h) ->
  fetchHtml config net u st =
  (Some h,
   {| stats := stats st;
      sent := S (sent st + List.length bases);
      events := events st ++ backoffSchedule u 0 bases ++ [Request u] |}).
Proof.
  intros L R H. unfold fetchHtml.
  rewrite (fetchAttempts_retried config net u bases) by (auto; lia).
  destruct (Z.to_nat (retries config) - List.length bases)%nat as [| k] eqn:E;
    [lia |].
  cbn [fetchAttempts]. unfold request. cbn [stats sent events].
  rewrite H. cbn. rewrite <- app_assoc. reflexivity.
Qed.

(** X7: a status other than 200, 429 and 5xx ends the call at once: no
    further request, no sleep, one HTTP error counted, nothing returned. *)
Theorem fetchHtml_other_status_is_final config net u st bases status body :
  (List.length bases < Z.to_nat (retries config))%nat ->
  retried net u (sent st) bases ->
  net (sent st + List.length bases)%nat u = Responds status body ->
  status <> 200 -> status <> 429 -> ~ (500 <= status < 600) ->
  fetchHtml config net u st =
  (None,
   {| stats := incHttpErrors (stats st);
      sent := S (sent st + List.length bases);
      events := events st ++ backoffSchedule u 0 bases ++ [Request u] |}).
Proof.
  intros L R H N2 N4 N5. unfold fetchHtml.
  rewrite (fetchAttempts_retried config net u bases) by (auto; lia).
  destruct (Z.to_nat (retries config) - List.length bases)%nat as [| k] eqn:E;
    [lia |].
  cbn [fetchAttempts]. unfold request. cbn [stats sent events].
  rewrite H.
  replace (status =? 429) with false by (symmetry; apply Z.eqb_neq; exact N4).
  replace ((500 <=? status) && (status <? 600)) with false.
  2:{ symmetry. destruct (Z.leb_spec 500 status); destruct (Z.ltb_spec status 600);
        cbn; auto; lia. }
  replace (status =? 200) with false by (symmetry; apply Z.eqb_neq; exact N2).
  cbn. rewrite <- app_assoc. reflexivity.
Qed.

Lemma fetchHtml_backoff_until_exhausted_witness :
  fetchHtml exConfig exNet429 (lit "u") exState =
  (None,
   {| stats := incHttpErrors initialStats; sent := 3;
      events := [Request (lit "u"); Sleep 2000; Request (lit "u"); Sleep 4000;
                 Request (lit "u"); Sleep 4000] |}).
Proof.
  apply (fetchHtml_backoff_until_exhausted exConfig exNet429 (lit "u") exState
           [2000; 2000; 1000]).
  - cbn. lia.
  - reflexivity.
  - intros j b H. do 3 (destruct j as [| j]; [injection H as <-; reflexivity |]).
    destruct j; discriminate.
Defined.

Lemma fetchHtml_succeeds_after_retries_witness :
  fetchHtml exConfig (fun n => exNet429 (S n)) (lit "u") exState =
  (Some exHtml,
   {| stats := initialStats; sent := 3;
      events := [Request (lit "u"); Sleep 2000; Request (lit "u"); Sleep 2000;
                 Request (lit "u")] |}).
Proof.
  apply (fetchHtml_succeeds_after_retries exConfig (fun n => exNet429 (S n))
           (lit "u") exState [2000; 1000] exHtml).
  - cbn. lia.
  - intros j b H. do 2 (destruct j as [| j]; [injection H as <-; reflexivity |]).
    destruct j; discriminate.
  - reflexivity.
Defined.

Lemma fetchHtml_other_status_is_final_witness :
  fetchHtml exConfig (fun n => exNet429 (4 + n)%nat) (lit "u") exState =
  (None,
   {| stats := incHttpErrors initialStats; sent := 1;
      events := [Request (lit "u")] |}).
Proof.
  apply (fetchHtml_other_status_is_final exConfig (fun n => exNet429 (4 + n)%nat)
           (lit "u") exState [] 404 None).
  - cbn. lia.
  - intros j b H. destruct j; discriminate.
  - reflexivity.
  - lia.
  - lia.
  - lia.
Defined.

Lemma fetchAttempts_verdict config net u remaining :
  forall attempt st,
  let out := fetchAttempts config net u remaining attempt st in
  (fst out = None /\ stats (snd out) = incHttpErrors (stats st))
  \/ ((exists h, fst out = Some h) /\ stats (snd out) = stats st).
Proof.
  induction remaining as [| k IH]; intros attempt st; cbv zeta;
    cbn [fetchAttempts].
  - left. split; reflexivity.
  - unfold request.
    assert (N : forall ms,
      let st1 := sleep ms {| stats := stats st; sent := S (sent st);
                             events := events st ++ [Request u] |} in
      let out := fetchAttempts config net u k (attempt + 1) st1 in
      (fst out = None /\ stats (snd out) = incHttpErrors (stats st))
      \/ ((exists h, fst out = Some h) /\ stats (snd out) = stats st)).
    { intros ms.
      exact (IH (attempt + 1)
               (sleep ms {| stats := stats st; sent := S (sent st);
                            events := events st ++ [Request u] |})). }
    destruct (net (sent st) u) as [| status body].
    + destruct (attempt >? retries config); [left; split; reflexivity | apply N].
    + destruct (status =? 429); [apply N |].
      destruct ((500 <=? status) && (status <? 600)); [apply N |].
      destruct (negb (status =? 200)); [left; split; reflexivity |].
      destruct body as [b |]; [right; split; [exists b |]; reflexivity |].
      destruct (attempt >? retries config); [left; split; reflexivity | apply N].
Qed.

(** X8: [fetchHtml] returns nothing exactly when it counts one HTTP error;
    when it returns a body no counter changes, and that body is the one of a
    response of status 200 to one of its own requests, of which it sends at
    most [retries]. *)
Theorem fetchHtml_result_and_counters config net u st :
  let out := fetchHtml config net u st in
  ((fst out = None /\ stats (snd out) = incHttpErrors (stats st))
   \/ (exists h n, fst out = Some h /\ stats (snd out) = stats st /\
         (sent st <= n < sent (snd out))%nat /\
         net n u = Responds 200 (Some h)))
  /\ (sent (snd out) <= sent st + Z.to_nat (retries config))%nat.
Proof.
  cbv zeta. unfold fetchHtml. split; [| apply fetchAttempts_sent].
  destruct (fetchAttempts_verdict config net u (Z.to_nat (retries config)) 1 st)
    as [V | [(h & E) S]]; [left; exact V | right].
  destruct (fetchAttempts config net u (Z.to_nat (retries config)) 1 st)
    as [r st'] eqn:F. cbn [fst snd] in *. subst r.
  apply fetchAttempts_body_on_200 in F. destruct F as (n & Hn & R).
  exists h, n. auto.
Qed.

(** ** Counters of a run *)

Lemma listingKept_notHttp : incl listingKept notHttp.
Proof. intros f Hf. cbn in *. tauto. Qed.

Lemma labelsKept_listingKept : incl labelsKept listingKept.
Proof. intros f Hf. cbn in *. tauto. Qed.

Lemma albumKept_notHttp : incl albumKept notHttp.
Proof. intros f Hf. cbn in *. tauto. Qed.

Lemma candidatesLoop_listingKept links labelName lo hi :
  forall candidates seen st,
  keeps listingKept st
    (snd (candidatesLoop links labelName lo hi candidates seen st)).
Proof.
  induction links as [| link rest IH]; intros candidates seen st;
    cbn [candidatesLoop].
  - apply keeps_refl.
  - destruct (negb (includes (href link) albumPath)); [apply IH |].
    destruct (resolved link) as [albumUrl |]; [| apply keeps_refl].
    destruct (existsb (eqb albumUrl) seen); [apply IH |].
    destruct (extractListingReleaseDateForLink (climb link) albumUrl 10)
      as [[rel |] |].
    + destruct ((rel >=? lo) && (rel <=? hi)); apply IH.
    + apply IH.
    + eapply keeps_trans; [| apply IH]. keeps_field.
Qed.

Lemma extractAlbumCandidatesFromListing_listingKept page labelName lo hi st :
  keeps listingKept st
    (snd (extractAlbumCandidatesFromListing page labelName lo hi st)).
Proof.
  unfold extractAlbumCandidatesFromListing.
  pose proof (candidatesLoop_listingKept (anchors page) labelName lo hi [] [] st)
    as K.
  destruct (candidatesLoop _ _ _ _ _ _ _) as [[cands |] s]; cbn [snd] in *;
    [destruct (listingHasPage2 _) |]; exact K.
Qed.

Lemma requestsIn_app a b : requestsIn (a ++ b) = (requestsIn a + requestsIn b)%nat.
Proof. unfold requestsIn. rewrite filter_app, length_app. reflexivity. Qed.

Lemma fetchAttempts_tracked config net u remaining :
  forall attempt st,
  tracked st -> tracked (snd (fetchAttempts config net u remaining attempt st)).
Proof.
  unfold tracked.
  induction remaining as [| k IH]; intros attempt st T; cbn [fetchAttempts].
  - exact T.
  - unfold request.
    assert (T1 : requestsIn (events st ++ [Request u]) = S (sent st)).
    { rewrite requestsIn_app, T. cbn. lia. }
    assert (N : forall ms,
      requestsIn (events (snd (fetchAttempts config net u k (attempt + 1)
        (sleep ms {| stats := stats st; sent := S (sent st);
                     events := events st ++ [Request u] |}))))
      = sent (snd (fetchAttempts config net u k (attempt + 1)
        (sleep ms {| stats := stats st; sent := S (sent st);
                     events := events st ++ [Request u] |})))).
    { intros ms. apply IH. unfold sleep. cbn [events sent].
      rewrite requestsIn_app, T1. cbn. lia. }
    destruct (net (sent st) u) as [| status body].
    + destruct (attempt >? retries config); [exact T1 | apply N].
    + destruct (status =? 429); [apply N |].
      destruct ((500 <=? status) && (status <? 600)); [apply N |].
      destruct (negb (status =? 200)); [exact T1 |].
      destruct body; [exact T1 |].
      destruct (attempt >? retries config); [exact T1 | apply N].
Qed.

Section RunTally.
Variable normalizeLabelBase : str -> option str.
Variable buildLabelPageUrl : str -> Z -> str.

(** What one fetch does to the state, for the loops around it. *)
Lemma fetchHtml_step config net u st :
  let st' := snd (fetchHtml config net u st) in
  keeps notHttp (stats st) (stats st') /\
  (tracked st -> tracked st') /\
  (sent st' <= sent st + Z.to_nat (retries config))%nat.
Proof.
  cbv zeta. repeat split.
  - apply fetchHtml_keeps.
  - apply fetchAttempts_tracked.
  - apply fetchAttempts_sent.
Qed.

Lemma mergeCandidates_seen extracted :
  forall candidates seen,
  candidatesSeen candidates seen ->
  candidatesSeen (fst (mergeCandidates extracted candidates seen))
    (snd (mergeCandidates extracted candidates seen)).
Proof.
  induction extracted as [| c rest IH]; intros candidates seen [K N];
    cbn [mergeCandidates].
  - split; assumption.
  - destruct (existsb (eqb (candidateKey c)) seen) eqn:E.
    + apply IH. split; assumption.
    + apply IH. split.
      * intros k. rewrite existsb_app_one, map_app, in_app_iff, orb_true_iff.
        rewrite K. cbn [map In]. rewrite eqb_eq.
        split; (intros [H | H]; [left; exact H | right]).
        -- left. symmetry. exact H.
        -- destruct H as [H | []]. symmetry. exact H.
      * rewrite map_app. cbn.
        apply NoDup_app_remove_l with (l := []). cbn.
        assert (NI : ~ In (candidateKey c) (map candidateKey candidates)).
        { rewrite <- K. congruence. }
        clear - N NI. induction candidates as [| x l IHl]; cbn in *.
        -- constructor; [tauto | constructor].
        -- inversion N; subst. constructor.
           ++ rewrite in_app_iff. cbn. intros [H | [H | []]]; [tauto |].
              apply NI. left. congruence.
           ++ apply IHl; auto.
Qed.

Lemma listingInv_refl config acc : listingInv config acc 0 acc.
Proof.
  split; [apply keeps_refl |]. split; [tauto |]. split; [lia | tauto].
Qed.

Lemma listingInv_trans config a b c n m :
  listingInv config a n b -> listingInv config b m c ->
  listingInv config a (n + m) c.
Proof.
  intros (K1 & T1 & S1 & C1) (K2 & T2 & S2 & C2).
  split; [eapply keeps_trans; eauto |]. split; [auto |].
  split; [rewrite Nat.mul_add_distr_r; lia | auto].
Qed.

Lemma listingInv_more config a b n m :
  (n <= m)%nat -> listingInv config a n b -> listingInv config a m b.
Proof.
  intros L (K & T & S & C).
  assert (n * Z.to_nat (retries config) <= m * Z.to_nat (retries config))%nat
    by (apply Nat.mul_le_mono_r; exact L).
  split; [exact K |]. split; [exact T |]. split; [lia | exact C].
Qed.

Lemma pagesLoop_listingInv config net label normalized remaining :
  forall page acc,
  listingInv config acc remaining
    (pagesLoop buildLabelPageUrl config net label normalized remaining page acc).
Proof.
  induction remaining as [| k IH]; intros page acc; cbn [pagesLoop].
  - apply listingInv_refl.
  - destruct ((page >? 1) && (max_pages_per_label config <=? 1)).
    { apply (listingInv_more config acc acc 0 (S k));
        [lia | apply listingInv_refl]. }
    destruct (fetchHtml_step config net (buildLabelPageUrl normalized page)
                (lst_state acc)) as (KF & TF & SF).
    apply (keeps_incl _ _ _ _ listingKept_notHttp) in KF.
    destruct (fetchHtml config net (buildLabelPageUrl normalized page) (lst_state acc))
      as [html st]. cbn [snd] in KF, TF, SF.
    assert (Step : forall s cands seen,
      keeps listingKept (stats st) s ->
      (candidatesSeen (lst_candidates acc) (lst_seen acc) ->
       candidatesSeen cands seen) ->
      listingInv config acc 1
        {| lst_state := {| stats := s; sent := sent st; events := events st |};
           lst_candidates := cands; lst_seen := seen |}).
    { intros s cands seen Ks Cs.
      split; [cbn; eapply keeps_trans; eauto |]. split; [exact TF |].
      split; [cbn [lst_state sent]; lia | exact Cs]. }
    assert (Next : forall s cands seen,
      keeps listingKept (stats st) s ->
      (candidatesSeen (lst_candidates acc) (lst_seen acc) ->
       candidatesSeen cands seen) ->
      listingInv config acc (S k)
        (pagesLoop buildLabelPageUrl config net label normalized k (page + 1)
           {| lst_state := {| stats := s; sent := sent st; events := events st |};
              lst_candidates := cands; lst_seen := seen |})).
    { intros s cands seen Ks Cs.
      change (S k) with (1 + k)%nat.
      eapply listingInv_trans; [exact (Step s cands seen Ks Cs) | apply IH]. }
    assert (Same : listingInv config acc (S k)
      (pagesLoop buildLabelPageUrl config net label normalized k (page + 1)
         {| lst_state := st; lst_candidates := lst_candidates acc;
            lst_seen := lst_seen acc |})).
    { specialize (Next (stats st) (lst_candidates acc) (lst_seen acc)
                    (keeps_refl _ _) (fun H => H)).
      destruct st; exact Next. }
    destruct (usable html) as [h |]; [| exact Same].
    destruct (as_listing h) as [listing |].
    2:{ apply Next; [keeps_field | tauto]. }
    pose proof (extractAlbumCandidatesFromListing_listingKept listing (name label)
                  (date_from config) (date_to config) (stats st)) as KE.
    destruct (extractAlbumCandidatesFromListing _ _ _ _ _)
      as [[[extracted hasPage2] |] s]; cbn [snd] in KE.
    2:{ apply Next; [| tauto]. eapply keeps_trans; [exact KE | keeps_field]. }
    cbn [lst_candidates lst_seen].
    pose proof (mergeCandidates_seen extracted (lst_candidates acc) (lst_seen acc))
      as MS.
    destruct (mergeCandidates extracted (lst_candidates acc) (lst_seen acc))
      as [candidates seen]. cbn [fst snd] in MS.
    destruct ((page =? 1) && negb hasPage2).
    + eapply (listingInv_more config acc _ 1 (S k)); [lia |]. apply Step; auto.
    + apply Next; auto.
Qed.

Lemma labelsLoop_listingInv config net labels :
  forall acc out,
  labelsLoop normalizeLabelBase buildLabelPageUrl config net labels acc = Some out ->
  keeps labelsKept (stats (lst_state acc)) (stats (lst_state out)) /\
  labelsProcessed (stats (lst_state out))
  = labelsProcessed (stats (lst_state acc)) + Z.of_nat (List.length labels) /\
  (tracked (lst_state acc) -> tracked (lst_state out)) /\
  (sent (lst_state out)
   <= sent (lst_state acc)
      + List.length labels * (Z.to_nat (max_pages_per_label config)
                              * Z.to_nat (retries config)))%nat /\
  (candidatesSeen (lst_candidates acc) (lst_seen acc) ->
   candidatesSeen (lst_candidates out) (lst_seen out)).
Proof.
  induction labels as [| label rest IH]; intros acc out H; cbn [labelsLoop] in H.
  - injection H as <-.
    split; [apply keeps_refl |]. split; [cbn; lia |]. split; [tauto |].
    split; [cbn; lia | tauto].
  - destruct (normalizeLabelBase (url label)) as [normalized |]; [| discriminate].
    match type of H with labelsLoop _ _ _ _ _ (pagesLoop _ _ _ _ _ ?n ?p ?a) = _ =>
      pose proof (pagesLoop_listingInv config net label normalized n p a)
        as (K1 & T1 & S1 & C1);
      set (mid := pagesLoop buildLabelPageUrl config net label normalized n p a) in *
    end.
    apply IH in H. destruct H as (K2 & P2 & T2 & S2 & C2).
    cbn [lst_state lst_candidates lst_seen updStats stats sent events] in *.
    split.
    { eapply keeps_trans; [| exact K2].
      apply (keeps_incl _ _ _ _ labelsKept_listingKept) in K1.
      eapply keeps_trans; [| exact K1]. keeps_field. }
    split.
    { rewrite P2, (K1 labelsProcessed) by (cbn; tauto).
      cbn [List.length incLabelsProcessed labelsProcessed]. lia. }
    split; [tauto |].
    split; [cbn [List.length]; lia | tauto].
Qed.

(** ** The album loop *)

Variable toLowerCase : str -> str.

Lemma filterCandidate_delta config cand det acc :
  let acc' := filterCandidate toLowerCase config cand det acc in
  albumsFetched (stats (acc_state acc')) = albumsFetched (stats (acc_state acc)) /\
  verdicts acc' <= verdicts acc + 1 /\
  (List.length (acc_missingRows acc') <= S (List.length (acc_missingRows acc)))%nat /\
  rejectedByGenre (stats (acc_state acc))
    <= rejectedByGenre (stats (acc_state acc')) /\
  rejectedByLength (stats (acc_state acc))
    <= rejectedByLength (stats (acc_state acc')) /\
  rejectedByDateMismatch (stats (acc_state acc))
    <= rejectedByDateMismatch (stats (acc_state acc')) /\
  keeps albumKept (stats (acc_state acc)) (stats (acc_state acc')) /\
  sent (acc_state acc') = sent (acc_state acc) /\
  events (acc_state acc') = events (acc_state acc).
Proof.
  cbv zeta. unfold filterCandidate, laterStages, verdicts.
  destruct (release_date_album det) as [d |];
    [destruct ((d <? date_from config) || (d >? date_to config)) |];
    try destruct (negb (genreMatchesRoot toLowerCase config det));
    try destruct (total_seconds det <? min_minutes config * 60);
    cbn; rewrite ?length_app; cbn;
    (split; [reflexivity |]); (split; [lia |]); (split; [lia |]);
    (split; [lia |]); (split; [lia |]); (split; [lia |]);
    (split; [keeps_field |]); split; reflexivity.
Qed.

Lemma albumStep_tally config net cand n acc :
  albumTally n acc ->
  let acc' := albumStep toLowerCase config net cand acc in
  albumTally (n + 1) acc' /\
  keeps albumKept (stats (acc_state acc)) (stats (acc_state acc')) /\
  (tracked (acc_state acc) -> tracked (acc_state acc')) /\
  (sent (acc_state acc')
   <= sent (acc_state acc) + Z.to_nat (retries config))%nat.
Proof.
  intros (A & V & M & G & L & D). cbv zeta. unfold albumStep.
  destruct (fetchHtml_step config net (album_url cand)
              (updStats incAlbumsFetched (acc_state acc))) as (KF & TF & SF).
  destruct (fetchHtml config net (album_url cand) _) as [html st].
  cbn [snd] in KF, TF, SF. unfold tracked in *.
  cbn [updStats stats sent events] in KF, TF, SF.
  pose proof (KF albumsFetched ltac:(cbn; tauto)) as F1.
  pose proof (KF rejectedByGenre ltac:(cbn; tauto)) as F2.
  pose proof (KF rejectedByLength ltac:(cbn; tauto)) as F3.
  pose proof (KF rejectedByDateMismatch ltac:(cbn; tauto)) as F4.
  cbn [incAlbumsFetched albumsFetched rejectedByGenre rejectedByLength
       rejectedByDateMismatch] in F1, F2, F3, F4.
  assert (K0 : keeps albumKept (stats (acc_state acc)) (stats st)).
  { apply (keeps_incl _ _ _ _ albumKept_notHttp) in KF.
    eapply keeps_trans; [| exact KF]. keeps_field. }
  assert (V0 : verdicts (withState st acc) = verdicts acc).
  { unfold verdicts. cbn [withState acc_state acc_accepted]. lia. }
  assert (Base : albumTally (n + 1) (withState st acc) /\
                 keeps albumKept (stats (acc_state acc)) (stats st) /\
                 (requestsIn (events (acc_state acc)) = sent (acc_state acc) ->
                  requestsIn (events st) = sent st) /\
                 (sent st <= sent (acc_state acc) + Z.to_nat (retries config))%nat).
  { split; [| auto]. unfold albumTally. rewrite V0.
    cbn [withState acc_state acc_missingRows].
    split; [lia |]. split; [lia |]. split; [lia |]. split; [lia |].
    split; lia. }
  destruct (usable html) as [h |]; [| exact Base].
  destruct (as_album h) as [page |].
  - destruct (parseAlbumDetails toLowerCase page) as [det |]; [| exact Base].
    destruct (filterCandidate_delta config cand det (withState st acc))
      as (A' & V' & M' & G' & L' & D' & K' & S' & E').
    rewrite V0 in V'.
    cbn [withState acc_state acc_missingRows] in A', M', G', L', D', K', S', E'.
    split.
    { unfold albumTally. split; [lia |]. split; [lia |]. split; [lia |].
      split; [lia |]. split; lia. }
    split; [eapply keeps_trans; eauto |].
    rewrite S', E'. split; [exact TF | exact SF].
  - split.
    { unfold albumTally, verdicts in *.
      cbn [withState acc_state acc_accepted acc_missingRows updStats stats
           incParseErrors albumsFetched rejectedByGenre rejectedByLength
           rejectedByDateMismatch] in *.
      split; [lia |]. split; [lia |]. split; [lia |]. split; [lia |].
      split; lia. }
    split; [eapply keeps_trans; [exact K0 | keeps_field] |].
    cbn [withState acc_state updStats sent events]. split; [exact TF | exact SF].
Qed.

Lemma albumLoop_tally config net candidates :
  forall n acc,
  albumTally n acc ->
  let acc' := albumLoop toLowerCase config net candidates acc in
  albumTally (n + Z.of_nat (List.length candidates)) acc' /\
  keeps albumKept (stats (acc_state acc)) (stats (acc_state acc')) /\
  (tracked (acc_state acc) -> tracked (acc_state acc')) /\
  (sent (acc_state acc')
   <= sent (acc_state acc)
      + List.length candidates * Z.to_nat (retries config))%nat.
Proof.
  unfold albumLoop.
  induction candidates as [| c rest IH]; intros n acc T; cbv zeta;
    cbn [fold_left List.length].
  - rewrite Z.add_0_r. split; [exact T |]. split; [apply keeps_refl |].
    split; [tauto | lia].
  - destruct (albumStep_tally config net c n acc T) as (T1 & K1 & R1 & S1).
    destruct (IH (n + 1) _ T1) as (T2 & K2 & R2 & S2).
    replace (n + Z.of_nat (S (List.length rest)))
      with (n + 1 + Z.of_nat (List.length rest)) by lia.
    split; [exact T2 |]. split; [eapply keeps_trans; eauto |].
    split; [tauto | lia].
Qed.

End RunTally.

Section RunTotals.
Variable toLowerCase : str -> str.
Variable normalizeLabelBase : str -> option str.
Variable buildLabelPageUrl : str -> Z -> str.

(** What a finished run has kept, in one statement for the theorems on
    runs. *)
Lemma run_tally config labels net dryRun r :
  runQobuzScraper toLowerCase normalizeLabelBase buildLabelPageUrl
    config labels net dryRun = Some r ->
  let s := run_stats r in
  let n := Z.of_nat (List.length (run_candidates r)) in
  (labelsTotal s = Z.of_nat (List.length labels) /\
   labelsProcessed s = Z.of_nat (List.length labels) /\
   candidatesTotal s = n /\ albumsFetched s = n /\
   accepted s = Z.of_nat (List.length (run_records r))) /\
  (Z.of_nat (List.length (run_accepted r))
   + rejectedByGenre s + rejectedByLength s + rejectedByDateMismatch s <= n /\
   Z.of_nat (List.length (run_missingRows r)) <= n /\
   0 <= rejectedByGenre s /\ 0 <= rejectedByLength s /\
   0 <= rejectedByDateMismatch s) /\
  NoDup (map candidateKey (run_candidates r)) /\
  (requestsIn (run_events r)
   <= List.length labels * (Z.to_nat (max_pages_per_label config)
                            * Z.to_nat (retries config))
      + List.length (run_candidates r) * Z.to_nat (retries config))%nat.
Proof.
  unfold runQobuzScraper.
  destruct (labelsLoop _ _ _ _ _ _) as [listed |] eqn:L; [| discriminate].
  apply labelsLoop_listingInv in L.
  cbn [lst_state lst_candidates lst_seen stats sent events] in L.
  destruct L as (K & P & T & S & C).
  specialize (T eq_refl).
  destruct C as [_ N].
  { split; [| constructor]. intros k. cbn. split; [discriminate | tauto]. }
  pose proof (K labelsTotal ltac:(cbn; tauto)) as K1.
  pose proof (K albumsFetched ltac:(cbn; tauto)) as K2.
  pose proof (K rejectedByGenre ltac:(cbn; tauto)) as K3.
  pose proof (K rejectedByLength ltac:(cbn; tauto)) as K4.
  pose proof (K rejectedByDateMismatch ltac:(cbn; tauto)) as K5.
  cbn in K1, K2, K3, K4, K5, P.
  match goal with |- context [albumLoop _ _ _ _ ?a] =>
    assert (I : albumTally 0 a);
    [| pose proof (albumLoop_tally toLowerCase config net (lst_candidates listed)
                     0 a I) as A;
       cbv zeta in A;
       set (acc := albumLoop toLowerCase config net (lst_candidates listed) a) in * ]
  end.
  { unfold albumTally, verdicts. cbn. lia. }
  destruct A as ((A1 & A2 & A3 & A4 & A5 & A6) & KA & TA & SA).
  specialize (TA T). unfold tracked in TA.
  cbn [acc_state updStats stats sent events] in KA, SA.
  pose proof (KA labelsTotal ltac:(cbn; tauto)) as B1.
  pose proof (KA labelsProcessed ltac:(cbn; tauto)) as B2.
  pose proof (KA candidatesTotal ltac:(cbn; tauto)) as B3.
  cbn in B1, B2, B3.
  destruct (dedupLoop_keepFirst toLowerCase (acc_accepted acc) [] []
              (stats (acc_state acc)) [] ltac:(intros k; reflexivity))
    as (_ & _ & D).
  fold (deduplicate toLowerCase (acc_accepted acc) (stats (acc_state acc))) in D.
  destruct (deduplicate toLowerCase (acc_accepted acc) (stats (acc_state acc)))
    as [dedup s].
  cbn [snd] in D.
  pose proof (D labelsTotal ltac:(cbn; tauto)) as D1.
  pose proof (D labelsProcessed ltac:(cbn; tauto)) as D2.
  pose proof (D candidatesTotal ltac:(cbn; tauto)) as D3.
  pose proof (D albumsFetched ltac:(cbn; tauto)) as D4.
  pose proof (D rejectedByGenre ltac:(cbn; tauto)) as D5.
  pose proof (D rejectedByLength ltac:(cbn; tauto)) as D6.
  pose proof (D rejectedByDateMismatch ltac:(cbn; tauto)) as D7.
  unfold verdicts in A2.
  intros H; injection H as <-. cbv zeta.
  cbn [run_stats run_candidates run_accepted run_records run_missingRows
       run_events setAccepted labelsTotal labelsProcessed candidatesTotal
       albumsFetched accepted rejectedByGenre rejectedByLength
       rejectedByDateMismatch].
  split.
  { split; [lia |]. split; [lia |]. split; [lia |]. split; lia. }
  split.
  { split; [lia |]. split; [lia |]. split; [lia |]. split; lia. }
  split; [exact N |].
  rewrite TA. lia.
Qed.

(** X9: the counters of a finished run are the lengths of its lists: the two
    label counters are the number of labels, [candidatesTotal] and
    [albumsFetched] the number of candidates, and [accepted] the number of
    records written. *)
Theorem run_counters_are_list_lengths config labels net dryRun r :
  runQobuzScraper toLowerCase normalizeLabelBase buildLabelPageUrl
    config labels net dryRun = Some r ->
  labelsTotal (run_stats r) = Z.of_nat (List.length labels) /\
  labelsProcessed (run_stats r) = Z.of_nat (List.length labels) /\
  candidatesTotal (run_stats r) = Z.of_nat (List.length (run_candidates r)) /\
  albumsFetched (run_stats r) = Z.of_nat (List.length (run_candidates r)) /\
  accepted (run_stats r) = Z.of_nat (List.length (run_records r)).
Proof. intros H. apply run_tally in H. cbv zeta in H. tauto. Qed.

(** X10: every candidate gets at most one verdict: the accepted records, the
    duplicates removed and the three rejection counters add up to at most
    [candidatesTotal], none of them is negative, and no more candidates lack
    an album date than there are candidates. *)
Theorem run_verdicts_within_candidates config labels net dryRun r :
  runQobuzScraper toLowerCase normalizeLabelBase buildLabelPageUrl
    config labels net dryRun = Some r ->
  let s := run_stats r in
  accepted s + duplicatesRemoved s + rejectedByGenre s + rejectedByLength s
  + rejectedByDateMismatch s <= candidatesTotal s /\
  0 <= accepted s /\ 0 <= duplicatesRemoved s /\ 0 <= rejectedByGenre s /\
  0 <= rejectedByLength s /\ 0 <= rejectedByDateMismatch s /\
  0 <= missingAlbumDate s <= candidatesTotal s.
Proof.
  intros H. cbv zeta.
  pose proof (run_counters toLowerCase normalizeLabelBase buildLabelPageUrl
                config labels net dryRun r H) as (R & D & M).
  pose proof (keepFirst_length toLowerCase [] (run_accepted r)) as Len.
  rewrite <- R in Len.
  apply run_tally in H. cbv zeta in H.
  destruct H as ((_ & _ & C & _ & A) & (V & MR & G & L & DM) & _).
  rewrite A, D, M, C. lia.
Qed.

(** X11: no album is fetched twice for one label: the candidates of a run
    have pairwise different keys "album_url||label_name". *)
Theorem run_candidates_have_distinct_keys config labels net dryRun r :
  runQobuzScraper toLowerCase normalizeLabelBase buildLabelPageUrl
    config labels net dryRun = Some r ->
  NoDup (map candidateKey (run_candidates r)).
Proof. intros H. apply run_tally in H. cbv zeta in H. tauto. Qed.

(** X12: a run sends at most [retries] requests for each listing page, of
    which a label has at most [max_pages_per_label], and for each candidate.
    *)
Theorem run_requests_bounded config labels net dryRun r :
  runQobuzScraper toLowerCase normalizeLabelBase buildLabelPageUrl
    config labels net dryRun = Some r ->
  (requestsIn (run_events r)
   <= Z.to_nat (retries config)
      * (List.length labels * Z.to_nat (max_pages_per_label config)
         + List.length (run_candidates r)))%nat.
Proof.
  intros H. apply run_tally in H. cbv zeta in H.
  destruct H as (_ & _ & _ & B). nia.
Qed.

End RunTotals.

Lemma run_counters_are_list_lengths_witness :
  exists r, exRun = Some r /\
    labelsTotal (run_stats r) = 1 /\ labelsProcessed (run_stats r) = 1 /\
    candidatesTotal (run_stats r) = Z.of_nat (List.length (run_candidates r)) /\
    albumsFetched (run_stats r) = Z.of_nat (List.length (run_candidates r)) /\
    accepted (run_stats r) = Z.of_nat (List.length (run_records r)).
Proof.
  destruct exRun as [r |] eqn:E; [| vm_compute in E; discriminate].
  exists r. split; [reflexivity |].
  exact (run_counters_are_list_lengths asciiToLowerCase exNormalize exBuildPage
           exConfig exLabels exNet false r E).
Defined.

Lemma run_verdicts_within_candidates_witness :
  exists r, exRun = Some r /\
    accepted (run_stats r) + duplicatesRemoved (run_stats r)
    + rejectedByGenre (run_stats r) + rejectedByLength (run_stats r)
    + rejectedByDateMismatch (run_stats r) <= candidatesTotal (run_stats r).
Proof.
  destruct exRun as [r |] eqn:E; [| vm_compute in E; discriminate].
  exists r. split; [reflexivity |].
  exact (proj1 (run_verdicts_within_candidates asciiToLowerCase exNormalize
                  exBuildPage exConfig exLabels exNet false r E)).
Defined.

Lemma run_candidates_have_distinct_keys_witness :
  exists r, exRun = Some r /\ NoDup (map candidateKey (run_candidates r)).
Proof.
  destruct exRun as [r |] eqn:E; [| vm_compute in E; discriminate].
  exists r. split; [reflexivity |].
  exact (run_candidates_have_distinct_keys asciiToLowerCase exNormalize
           exBuildPage exConfig exLabels exNet false r E).
Defined.

Lemma run_requests_bounded_witness :
  exists r, exRun = Some r /\
    (requestsIn (run_events r)
     <= Z.to_nat (retries exConfig)
        * (List.length exLabels * Z.to_nat (max_pages_per_label exConfig)
           + List.length (run_candidates r)))%nat.
Proof.
  destruct exRun as [r |] eqn:E; [| vm_compute in E; discriminate].
  exists r. split; [reflexivity |].
  exact (run_requests_bounded asciiToLowerCase exNormalize exBuildPage
           exConfig exLabels exNet false r E).
Defined.

(** ** Listing pages *)

Lemma extractListingReleaseDateForLink_source chain u :
  forall maxHops rel,
  extractListingReleaseDateForLink chain u maxHops = Returns (Some rel) ->
  exists c links,
    In c (firstn maxHops chain) /\
    albumLinksOf (inner_links c) = Returns links /\
    onlyLinkIs u links = true /\
    extractReleaseDateFromText (trim (collapseWhiteSpace (container_text c)))
    = Some rel.
Proof.
  induction chain as [| c parents IH]; intros [| hops] rel H;
    cbn [extractListingReleaseDateForLink] in H; try discriminate.
  destruct (albumLinksOf (inner_links c)) as [links |] eqn:A; [| discriminate].
  assert (Up : extractListingReleaseDateForLink parents u hops = Returns (Some rel) ->
               exists c' links',
                 In c' (firstn (S hops) (c :: parents)) /\
                 albumLinksOf (inner_links c') = Returns links' /\
                 onlyLinkIs u links' = true /\
                 extractReleaseDateFromText
                   (trim (collapseWhiteSpace (container_text c'))) = Some rel).
  { intros U. destruct (IH hops rel U) as (c' & links' & I & R).
    exists c', links'. split; [right; exact I | exact R]. }
  destruct (onlyLinkIs u links) eqn:O; [| exact (Up H)].
  destruct (extractReleaseDateFromText _) as [r |] eqn:E; [| exact (Up H)].
  injection H as ->. exists c, links. cbn [firstn In]. auto.
Qed.

Lemma candidatesLoop_candidates page links labelName lo hi :
  forall candidates seen st out st',
  candidatesLoop links labelName lo hi candidates seen st = (Returns out, st') ->
  incl links (anchors page) ->
  (forall c, In c candidates -> existsb (eqb (album_url c)) seen = true) ->
  NoDup (map album_url candidates) ->
  Forall (candidateOf page labelName lo hi) candidates ->
  NoDup (map album_url out) /\ Forall (candidateOf page labelName lo hi) out.
Proof.
  induction links as [| link rest IH]; intros candidates seen st out st' H I S N F.
  - cbn in H. injection H as <- <-. split; assumption.
  - cbn [candidatesLoop] in H.
    assert (I' : incl rest (anchors page)).
    { intros a Ha. apply I. right. exact Ha. }
    destruct (negb (includes (href link) albumPath)) eqn:P; [eapply IH; eauto |].
    apply negb_false_iff in P.
    destruct (resolved link) as [albumUrl |] eqn:R; [| discriminate].
    destruct (existsb (eqb albumUrl) seen) eqn:E; [eapply IH; eauto |].
    assert (S' : forall c, In c candidates ->
                 existsb (eqb (album_url c)) (seen ++ [albumUrl]) = true).
    { intros c Hc. rewrite existsb_app_one, (S c Hc). reflexivity. }
    destruct (extractListingReleaseDateForLink (climb link) albumUrl 10)
      as [[rel |] |] eqn:X; try (eapply IH; eauto; fail).
    destruct ((rel >=? lo) && (rel <=? hi)) eqn:B; [| eapply IH; eauto].
    eapply IH; [exact H | exact I' | | |].
    + intros c Hc. apply in_app_or in Hc. destruct Hc as [Hc | [<- | []]];
        [exact (S' c Hc) |].
      cbn [album_url]. rewrite existsb_app_one.
      assert (Q : eqb albumUrl albumUrl = true) by (apply eqb_eq; reflexivity).
      rewrite Q. apply orb_true_r.
    + rewrite map_app. cbn [map album_url].
      apply NoDup_app_remove_l with (l := []). cbn [app].
      assert (NI : ~ In albumUrl (map album_url candidates)).
      { intros Hin. apply in_map_iff in Hin. destruct Hin as (c & <- & Hc).
        rewrite (S c Hc) in E. discriminate. }
      clear - N NI. induction candidates as [| x l IHl]; cbn in *.
      * constructor; [tauto | constructor].
      * inversion N; subst. constructor.
        -- rewrite in_app_iff. cbn. intros [Hx | [Hx | []]]; [tauto |].
           apply NI. left. congruence.
        -- apply IHl; auto.
    + apply Forall_app. split; [exact F |]. constructor; [| constructor].
      apply andb_true_iff in B. destruct B as [B1 B2].
      apply Z.geb_le in B1. apply Z.leb_le in B2.
      split; [reflexivity |]. split; [cbn; lia |].
      exists link. split; [apply I; left; reflexivity |].
      split; [exact P |]. split; [exact R |].
      apply extractListingReleaseDateForLink_source in X. exact X.
Qed.

(** X13: the candidates of a listing page have pairwise different album
    URLs; each carries the label of the page, is an album link of the page
    (its [href] contains "/album/"), and has a listing date inside the range
    that was read from one of the ten nearest containers of that link in
    which it is the only album. *)
Theorem extractAlbumCandidatesFromListing_candidates
    page labelName lo hi st candidates hasPage2 st' :
  extractAlbumCandidatesFromListing page labelName lo hi st
  = (Returns (candidates, hasPage2), st') ->
  NoDup (map album_url candidates) /\
  Forall (candidateOf page labelName lo hi) candidates.
Proof.
  unfold extractAlbumCandidatesFromListing. intros H.
  destruct (candidatesLoop (anchors page) labelName lo hi [] [] st)
    as [[out |] s] eqn:L; [| discriminate].
  destruct (listingHasPage2 (anchors page)); [| discriminate].
  injection H as <- _ _.
  exact (candidatesLoop_candidates page (anchors page) labelName lo hi [] [] st
           out s L (incl_refl _) ltac:(intros c []) ltac:(constructor)
           ltac:(constructor)).
Qed.

Lemma extractAlbumCandidatesFromListing_candidates_witness :
  exists candidates,
    fst (extractAlbumCandidatesFromListing exListing (lit "Alpha")
           (civil 2024 1 1) (civil 2024 1 31) initialStats)
    = Returns (candidates, false) /\
    candidates <> [] /\
    NoDup (map album_url candidates) /\
    Forall (candidateOf exListing (lit "Alpha") (civil 2024 1 1)
              (civil 2024 1 31)) candidates.
Proof.
  destruct (extractAlbumCandidatesFromListing exListing (lit "Alpha")
              (civil 2024 1 1) (civil 2024 1 31) initialStats)
    as [[[candidates hasPage2] |] st'] eqn:E;
    [| vm_compute in E; discriminate].
  exists candidates.
  assert (P : hasPage2 = false) by (vm_compute in E; congruence).
  assert (Q : candidates <> []) by (vm_compute in E; congruence).
  split; [cbn [fst]; rewrite P; reflexivity |]. split; [exact Q |].
  exact (extractAlbumCandidatesFromListing_candidates _ _ _ _ _ _ _ _ E).
Defined.

(** ** Deduplication and output *)

Section DedupAgain.
Variable toLowerCase : str -> str.
Variable normalizeLabelBase : str -> option str.
Variable buildLabelPageUrl : str -> Z -> str.

Lemma dedupLoop_fresh records :
  forall dedup seen st,
  NoDup (map (recordKey toLowerCase) records) ->
  (forall r, In r records ->
             existsb (eqb (recordKey toLowerCase r)) seen = false) ->
  dedupLoop toLowerCase records dedup seen st = (dedup ++ records, st).
Proof.
  induction records as [| x rest IH]; intros dedup seen st N F;
    cbn [dedupLoop].
  - rewrite app_nil_r. reflexivity.
  - rewrite (F x) by (left; reflexivity).
    inversion N as [| k l NI N']; subst.
    rewrite IH; [rewrite <- app_assoc; reflexivity | exact N' |].
    intros r Hr. rewrite existsb_app_one, (F r) by (right; exact Hr).
    cbn [orb]. destruct (eqb _ _) eqn:E; [| reflexivity].
    apply eqb_eq in E. exfalso. apply NI. rewrite <- E.
    apply in_map. exact Hr.
Qed.

(** X14: deduplicating a deduplicated list changes nothing: every record is
    kept, in order, and no duplicate is counted. *)
Theorem deduplicate_twice records st st' :
  deduplicate toLowerCase (fst (deduplicate toLowerCase records st)) st'
  = (fst (deduplicate toLowerCase records st), st').
Proof.
  destruct (deduplicate_keepFirst toLowerCase records st) as (D & _).
  rewrite D. unfold deduplicate at 1.
  rewrite dedupLoop_fresh; [reflexivity | apply keepFirst_NoDup |].
  intros r _. reflexivity.
Qed.

Lemma join_lines l rest : join [10] (l :: rest) ++ [10] = linesOf (l :: rest).
Proof.
  unfold linesOf. revert l. induction rest as [| l' rest IH]; intros l.
  - cbn. rewrite app_nil_r. reflexivity.
  - change (join [10] (l :: l' :: rest))
      with (l ++ [10] ++ join [10] (l' :: rest)).
    specialize (IH l').
    change (List.concat (map (fun x => x ++ [10]) (l :: l' :: rest)))
      with ((l ++ [10])
            ++ List.concat (map (fun x => x ++ [10]) (l' :: rest))).
    rewrite <- IH, <- !app_assoc. reflexivity.
Qed.

Lemma writeLinksTxt_lines links : writeLinksTxt links = linesOf links.
Proof.
  unfold writeLinksTxt. destruct links as [| l rest]; [reflexivity |].
  apply join_lines.
Qed.

(** X15: a dry run writes nothing. Any other run writes the URL of each
    record on a line of the link list, in the order of the records, a sheet
    row for each of the [accepted] records, and the missing-date report
    exactly when [missingAlbumDate] is not zero, with a line for each after
    its header. *)
Theorem run_outputs_match_counters config labels net dryRun r :
  runQobuzScraper toLowerCase normalizeLabelBase buildLabelPageUrl
    config labels net dryRun = Some r ->
  if dryRun then run_outputs r = None
  else exists o,
    run_outputs r = Some o /\
    linksTxt o = linesOf (map rec_album_url (run_records r)) /\
    Z.of_nat (List.length (xlsxRows o)) = accepted (run_stats r) /\
    (missingAlbumDate (run_stats r) = 0 -> missingDatesTxt o = None) /\
    (missingAlbumDate (run_stats r) <> 0 ->
     missingDatesTxt o
     = Some (linesOf (missingHeader :: run_missingRows r))).
Proof.
  intros H.
  pose proof (run_counters toLowerCase normalizeLabelBase buildLabelPageUrl
                config labels net dryRun r H) as (_ & _ & M).
  revert H. unfold runQobuzScraper.
  destruct (labelsLoop _ _ _ _ _ _) as [listed |]; [| discriminate].
  destruct (deduplicate _ _ _) as [dedup s].
  intros H. injection H as <-. cbn [run_outputs run_records run_stats
    run_missingRows] in *.
  destruct dryRun; [reflexivity |].
  eexists. split; [reflexivity |]. cbn [linksTxt xlsxRows missingDatesTxt].
  split; [apply writeLinksTxt_lines |].
  split; [unfold writeXlsx; rewrite length_map; reflexivity |].
  rewrite M. unfold writeMissing.
  match goal with |- context [acc_missingRows ?a] =>
    destruct (acc_missingRows a) as [| row rows] end.
  - split; [reflexivity | intros N; exfalso; apply N; reflexivity].
  - split; [cbn [List.length]; lia |]. intros _.
    change (linesOf (missingHeader :: row :: rows))
      with ((missingHeader ++ [10]) ++ linesOf (row :: rows)).
    rewrite <- join_lines, <- !app_assoc. reflexivity.
Qed.

End DedupAgain.

Lemma run_outputs_match_counters_witness :
  exists r o, exRun = Some r /\ run_outputs r = Some o /\
    linksTxt o = linesOf (map rec_album_url (run_records r)) /\
    Z.of_nat (List.length (xlsxRows o)) = accepted (run_stats r).
Proof.
  destruct exRun as [r |] eqn:E; [| vm_compute in E; discriminate].
  destruct (run_outputs_match_counters asciiToLowerCase exNormalize exBuildPage
              exConfig exLabels exNet false r E) as (o & O & L & X & _).
  exists r, o. exact (conj eq_refl (conj O (conj L X))).
Defined.

(** ** Where the records of a run come from *)

Lemma candidateOf_candidateFrom labels label page lo hi c :
  In label labels -> candidateOf page (name label) lo hi c ->
  candidateFrom labels c.
Proof.
  intros I (L & _ & a & _ & _ & _ & (k & links & _ & _ & _ & X)).
  split.
  - rewrite L. apply in_map. exact I.
  - apply extractReleaseDateFromText_isCalendarDate in X. exact X.
Qed.

Lemma firstReleasedLine_calendar lines t :
  firstReleasedLine lines = Some t -> isCalendarDate t.
Proof.
  induction lines as [| line rest IH]; cbn [firstReleasedLine]; [discriminate |].
  destruct (testReleased false line); [| exact IH].
  destruct (extractReleaseDateFromText line) as [p |] eqn:X; [| exact IH].
  intros H; injection H as <-.
  apply extractReleaseDateFromText_isCalendarDate in X. exact X.
Qed.

Lemma parseAlbumReleaseDate_calendar text t :
  parseAlbumReleaseDate text = Some t -> isCalendarDate t.
Proof.
  unfold parseAlbumReleaseDate.
  destruct (firstReleasedLine _) as [p |] eqn:F.
  - intros H; injection H as <-. apply firstReleasedLine_calendar in F. exact F.
  - apply extractReleaseDateFromText_isCalendarDate.
Qed.

Section Provenance.
Variable toLowerCase : str -> str.
Variable normalizeLabelBase : str -> option str.
Variable buildLabelPageUrl : str -> Z -> str.

Lemma pagesLoop_candidateFrom labels config net label normalized remaining :
  In label labels ->
  forall page acc,
  Forall (candidateFrom labels) (lst_candidates acc) ->
  Forall (candidateFrom labels)
    (lst_candidates
       (pagesLoop buildLabelPageUrl config net label normalized remaining page acc)).
Proof.
  intros I.
  induction remaining as [| k IH]; intros page acc F; cbn [pagesLoop].
  - exact F.
  - destruct ((page >? 1) && (max_pages_per_label config <=? 1)); [exact F |].
    destruct (fetchHtml config net (buildLabelPageUrl normalized page) (lst_state acc))
      as [html st].
    destruct (usable html) as [h |]; [| apply IH; exact F].
    destruct (as_listing h) as [listing |]; [| apply IH; exact F].
    destruct (extractAlbumCandidatesFromListing listing (name label)
                (date_from config) (date_to config) (stats st))
      as [[[extracted hasPage2] |] s] eqn:E; [| apply IH; exact F].
    assert (Fx : Forall (candidateFrom labels) extracted).
    { unfold extractAlbumCandidatesFromListing in E.
      destruct (candidatesLoop _ _ _ _ _ _ _) as [[cands |] s1] eqn:C; [| discriminate].
      destruct (listingHasPage2 _); [| discriminate].
      injection E as <- <- <-.
      destruct (candidatesLoop_candidates listing (anchors listing) (name label)
                  (date_from config) (date_to config) [] [] (stats st) cands s1 C
                  (incl_refl _) ltac:(intros c []) ltac:(constructor)
                  ltac:(constructor)) as [_ Fc].
      eapply Forall_impl; [| exact Fc].
      intros c Hc. eapply candidateOf_candidateFrom; eauto. }
    cbn [lst_candidates lst_seen].
    pose proof (mergeCandidates_Forall _ extracted (lst_candidates acc)
                  (lst_seen acc) Fx F) as M.
    destruct (mergeCandidates extracted (lst_candidates acc) (lst_seen acc))
      as [candidates seen].
    cbn [fst] in M.
    destruct ((page =? 1) && negb hasPage2); [cbn; exact M | apply IH; cbn; exact M].
Qed.

Lemma labelsLoop_candidateFrom all config net labels :
  incl labels all ->
  forall acc out,
  labelsLoop normalizeLabelBase buildLabelPageUrl config net labels acc = Some out ->
  Forall (candidateFrom all) (lst_candidates acc) ->
  Forall (candidateFrom all) (lst_candidates out).
Proof.
  induction labels as [| label rest IH]; intros I acc out H F;
    cbn [labelsLoop] in H.
  - injection H as <-. exact F.
  - destruct (normalizeLabelBase (url label)) as [normalized |]; [| discriminate].
    eapply IH; [| exact H |].
    + intros l Hl. apply I. right. exact Hl.
    + apply pagesLoop_candidateFrom; [apply I; left; reflexivity | exact F].
Qed.

Lemma albumStep_recordFrom labels candidates config net cand acc :
  In cand candidates -> candidateFrom labels cand ->
  Forall (recordFrom labels candidates) (acc_accepted acc) ->
  Forall (recordFrom labels candidates)
    (acc_accepted (albumStep toLowerCase config net cand acc)).
Proof.
  intros I [L C] F. unfold albumStep.
  destruct (fetchHtml config net (album_url cand) _) as [html st].
  destruct (usable html) as [h |]; [| exact F].
  destruct (as_album h) as [page |]; [| exact F].
  destruct (parseAlbumDetails toLowerCase page) as [det |] eqn:P; [| exact F].
  apply parseAlbumDetails_inv in P.
  destruct P as (m1 & secs & _ & _ & T & ->).
  assert (New : forall finalRelease, isCalendarDate finalRelease ->
    recordFrom labels candidates
      {| rec_album_title := extractTitle page;
         rec_main_artists := extractMainArtists toLowerCase page;
         rec_label := label_name cand; rec_album_url := album_url cand;
         rec_release_date := finalRelease |}).
  { intros d Hd. split; [exists cand; auto |]. split; [exact L |].
    split; [exact Hd |]. cbn.
    destruct T as [T | T]; [left | right]; intros E; rewrite E in T;
      discriminate. }
  unfold filterCandidate. cbn [release_date_album].
  destruct (parseAlbumReleaseDate (root_text page)) as [d |] eqn:R.
  - apply parseAlbumReleaseDate_calendar in R.
    destruct ((d <? date_from config) || (d >? date_to config)); [exact F |].
    match goal with |- context [laterStages _ _ _ ?det _ ?a] =>
      destruct (laterStages_accepted toLowerCase config cand det d a)
        as (_ & _ & _ & [E | E]) end;
      rewrite E; cbn [acc_accepted withState]; [exact F |].
    apply Forall_app. split; [exact F |]. constructor; [| constructor].
    apply New. exact R.
  - match goal with |- context [laterStages _ _ _ ?det _ ?a] =>
      destruct (laterStages_accepted toLowerCase config cand det
                  (release_date_listing cand) a)
        as (_ & _ & _ & [E | E]) end;
      rewrite E; cbn [acc_accepted withState]; [exact F |].
    apply Forall_app. split; [exact F |]. constructor; [| constructor].
    apply New. exact C.
Qed.

Lemma albumLoop_recordFrom labels all config net candidates :
  incl candidates all ->
  forall acc,
  Forall (candidateFrom labels) candidates ->
  Forall (recordFrom labels all) (acc_accepted acc) ->
  Forall (recordFrom labels all)
    (acc_accepted (albumLoop toLowerCase config net candidates acc)).
Proof.
  unfold albumLoop.
  induction candidates as [| c rest IH]; intros I acc Fc F; cbn [fold_left].
  - exact F.
  - inversion Fc; subst. apply IH; auto.
    + intros x Hx. apply I. right. exact Hx.
    + apply albumStep_recordFrom; auto. apply I. left. reflexivity.
Qed.

(** X16: every record that a run writes was made from a candidate of the
    run, whose album URL and label it has; the label is one of the labels of
    the run, the release date is midnight UTC of a date of the calendar, and
    the record has a title or main artists. *)
Theorem run_records_come_from_candidates config labels net dryRun r :
  runQobuzScraper toLowerCase normalizeLabelBase buildLabelPageUrl
    config labels net dryRun = Some r ->
  Forall (candidateFrom labels) (run_candidates r) /\
  Forall (recordFrom labels (run_candidates r)) (run_records r).
Proof.
  unfold runQobuzScraper.
  destruct (labelsLoop _ _ _ _ _ _) as [listed |] eqn:L; [| discriminate].
  apply (labelsLoop_candidateFrom labels) in L;
    [| apply incl_refl | constructor].
  cbn [lst_candidates] in L.
  match goal with |- context [albumLoop _ _ _ _ ?a] =>
    pose proof (albumLoop_recordFrom labels (lst_candidates listed) config net
                  (lst_candidates listed) (incl_refl _) a L (Forall_nil _)) as A;
    set (acc := albumLoop toLowerCase config net (lst_candidates listed) a) in * end.
  pose proof (deduplicate_keepFirst toLowerCase (acc_accepted acc)
                (stats (acc_state acc))) as D.
  cbv zeta in D.
  destruct (deduplicate toLowerCase (acc_accepted acc) (stats (acc_state acc)))
    as [dedup s].
  cbn [fst snd] in D. destruct D as (D1 & _).
  intros H; injection H as <-. cbn [run_candidates run_records].
  split; [exact L |].
  rewrite Forall_forall in *. intros x Hx. apply A.
  rewrite D1 in Hx. eapply keepFirst_sublist; eauto.
Qed.

End Provenance.

Lemma run_records_come_from_candidates_witness :
  exists r, exRun = Some r /\ run_records r <> [] /\
    Forall (candidateFrom exLabels) (run_candidates r) /\
    Forall (recordFrom exLabels (run_candidates r)) (run_records r).
Proof.
  destruct exRun as [r |] eqn:E; [| vm_compute in E; discriminate].
  exists r. split; [reflexivity |].
  assert (N : run_records r <> [])
    by (vm_compute in E; injection E as <-; discriminate).
  exact (conj N (run_records_come_from_candidates asciiToLowerCase exNormalize
                   exBuildPage exConfig exLabels exNet false r E)).
Defined.

(** ** The labels file *)

Lemma consHead_no_lf c parts :
  c <> 10 -> Forall (fun l => ~ In 10 l) parts ->
  Forall (fun l => ~ In 10 l) (consHead c parts).
Proof.
  intros N F. destruct parts as [| p rest]; cbn.
  - constructor; [| constructor]. cbn. intros [H | []]. congruence.
  - inversion F; subst. constructor; [| assumption].
    cbn. intros [H | H]; [congruence | contradiction].
Qed.

Lemma splitLines_no_lf s : Forall (fun l => ~ In 10 l) (splitLines s).
Proof.
  induction s as [| c r IH]; cbn [splitLines].
  - constructor; [intros [] | constructor].
  - destruct (Z.eqb_spec c 10) as [-> | N].
    + constructor; [intros [] | exact IH].
    + destruct ((c =? 13) && startsWith r [10]); [exact IH |].
      apply consHead_no_lf; assumption.
Qed.

Lemma In_beforeFirst x d s : In x (beforeFirst [d] s) -> In x s /\ x <> d.
Proof.
  destruct (beforeFirst_single d s) as (rest & E & N & _).
  intros H. split.
  - rewrite E. apply in_or_app. left. exact H.
  - intros ->. contradiction.
Qed.

Lemma In_cleanLine x line : In x (cleanLine line) -> In x line /\ x <> 35.
Proof. unfold cleanLine. intros H. apply In_trim, In_beforeFirst in H. exact H. Qed.

Lemma In_skipn_list {A} (x : A) n l : In x (skipn n l) -> In x l.
Proof.
  intros H. rewrite <- (firstn_skipn n l). apply in_or_app. right. exact H.
Qed.

Lemma indexOf_not_zero s sep c r :
  headOk s -> sep = c :: r -> isWhiteSpace c = true ->
  indexOf s sep <> Some O.
Proof.
  intros H -> W. destruct s as [| x s]; cbn.
  - discriminate.
  - cbn in H. destruct (Z.eqb_spec c x) as [-> | N]; [congruence |].
    cbn. destruct (indexOf s (c :: r)); discriminate.
Qed.

Lemma labelOfLine_Invalid line :
  labelOfLine line = Invalid <-> malformedLabelLine line.
Proof.
  unfold labelOfLine, malformedLabelLine.
  pose proof (trim_head (beforeFirst [35] line)) as Hd.
  fold (cleanLine line) in Hd.
  destruct (cleanLine line) as [| c clean] eqn:C; cbn [nonEmpty negb].
  - split; [discriminate | intros [N _]; contradiction].
  - destruct (indexOf (c :: clean) (lit " - ")) as [pos |] eqn:P.
    + assert (Z0 : pos <> O).
      { intros ->. revert P. apply (indexOf_not_zero _ _ 32 [45; 32]); auto. }
      destruct pos as [| p]; [contradiction |]. cbn [firstn].
      cbn in Hd. unfold trim at 1, trimStart. cbn [dropWhile]. rewrite Hd.
      rewrite (trimEnd_cons c _ Hd). cbn [nonEmpty negb orb].
      destruct (isHttpUrl _) eqn:U; cbn [negb].
      * split; [discriminate |]. intros [_ H].
        specialize (H (S p) eq_refl). congruence.
      * split; [| reflexivity]. intros _. split; [discriminate |].
        intros pos' E. injection E as <-. exact U.
    + split; [| reflexivity]. intros _. split; [discriminate |].
      intros pos' E. discriminate.
Qed.

Lemma labelOfLine_Entry line l :
  (forall c, In c line -> c <> 10) ->
  labelOfLine line = Entry l -> wellFormedLabel l.
Proof.
  unfold labelOfLine. intros NL.
  pose proof (trim_head (beforeFirst [35] line)) as Hd.
  fold (cleanLine line) in Hd.
  assert (Ch : forall c, In c (cleanLine line) -> c <> 35 /\ c <> 10).
  { intros c H. apply In_cleanLine in H. destruct H as [H1 H2].
    split; [exact H2 | apply NL; exact H1]. }
  destruct (cleanLine line) as [| c clean] eqn:C; cbn [nonEmpty negb];
    [discriminate |].
  destruct (indexOf (c :: clean) (lit " - ")) as [pos |] eqn:P; [| discriminate].
  destruct (negb (nonEmpty (trim (firstn pos (c :: clean))))
            || negb (isHttpUrl (trim (skipn (pos + 3) (c :: clean))))) eqn:Chk;
    [discriminate |].
  apply orb_false_iff in Chk. destruct Chk as [N U].
  apply negb_false_iff in N, U.
  intros H. injection H as <-. unfold wellFormedLabel. cbn [name url].
  split; [destruct (trim (firstn pos (c :: clean))); [discriminate | discriminate] |].
  split; [apply trim_idem |]. split; [exact U |]. split; [apply trim_idem |].
  intros x Hx. apply Ch. apply in_app_or in Hx. destruct Hx as [Hx | Hx].
  - apply In_trim in Hx. rewrite <- (firstn_skipn pos (c :: clean)).
    apply in_or_app. left. exact Hx.
  - apply In_trim in Hx. apply In_skipn_list in Hx. exact Hx.
Qed.

Lemma labelsOfLines_Loaded lines :
  forall index labels out,
  Forall (fun l => ~ In 10 l) lines ->
  labelsOfLines lines index labels = Loaded out ->
  Forall wellFormedLabel labels -> Forall wellFormedLabel out.
Proof.
  induction lines as [| line rest IH]; intros index labels out NL H F;
    cbn [labelsOfLines] in H.
  - injection H as <-. exact F.
  - inversion NL as [| x xs N1 N2]; subst.
    destruct (labelOfLine line) as [| l |] eqn:E; [| | discriminate].
    + eapply IH; eauto.
    + eapply IH; [exact N2 | exact H |].
      apply Forall_app. split; [exact F |]. constructor; [| constructor].
      apply (labelOfLine_Entry line); [| exact E].
      intros c Hc ->. contradiction.
Qed.

Lemma labelsOfLines_Failed lines :
  forall index labels code details,
  labelsOfLines lines index labels = Failed code details ->
  code = INVALID_LABELS_LINE /\
  exists n line,
    details = AtLine (index + S n) /\
    nth_error lines n = Some line /\
    labelOfLine line = Invalid /\
    (forall i earlier, (i < n)%nat -> nth_error lines i = Some earlier ->
                       labelOfLine earlier <> Invalid).
Proof.
  induction lines as [| line rest IH]; intros index labels code details H;
    cbn [labelsOfLines] in H; [discriminate |].
  assert (Next : forall labels',
    labelsOfLines rest (S index) labels' = Failed code details ->
    labelOfLine line <> Invalid ->
    code = INVALID_LABELS_LINE /\
    exists n line',
      details = AtLine (index + S n) /\
      nth_error (line :: rest) n = Some line' /\
      labelOfLine line' = Invalid /\
      (forall i earlier, (i < n)%nat ->
         nth_error (line :: rest) i = Some earlier ->
         labelOfLine earlier <> Invalid)).
  { intros labels' H' NI. apply IH in H'.
    destruct H' as (-> & n & line' & -> & Hn & Hi & He).
    split; [reflexivity |]. exists (S n), line'.
    split; [f_equal; lia |]. split; [exact Hn |]. split; [exact Hi |].
    intros [| i] earlier Li Ei; cbn in Ei.
    - injection Ei as <-. exact NI.
    - apply (He i); [lia | exact Ei]. }
  destruct (labelOfLine line) as [| l |] eqn:E.
  - apply (Next labels H). discriminate.
  - apply (Next _ H). discriminate.
  - injection H as <- <-. split; [reflexivity |].
    exists O, line. split; [f_equal; lia |]. split; [reflexivity |].
    split; [exact E |]. intros i earlier Li. lia.
Qed.

(** X17: every label that [parseLabelsFile] returns has a name that is not
    empty and a URL that starts with "http://" or "https://" in any letter
    case; neither has white space around it, a "#" or a line feed in it. *)
Theorem parseLabelsFile_labels_well_formed file labels :
  parseLabelsFile file = Loaded labels -> Forall wellFormedLabel labels.
Proof.
  unfold parseLabelsFile. destruct file as [raw |]; [| discriminate].
  intros H.
  apply (labelsOfLines_Loaded (splitLines raw) O [] labels);
    [apply splitLines_no_lf | exact H | constructor].
Qed.

(** X18: [parseLabelsFile] fails in two ways only. Without a file it throws
    LABELS_FILE_NOT_FOUND. Otherwise it throws INVALID_LABELS_LINE with the
    number of the first malformed line, counting every line of the file from
    1: a line that is not blank after its comment is cut off and lacks
    " - ", or has no "http://" or "https://" at the start of what follows
    its first " - ". *)
Theorem parseLabelsFile_reports_first_malformed_line file code details :
  parseLabelsFile file = Failed code details ->
  (file = None /\ code = LABELS_FILE_NOT_FOUND /\ details = NoDetails) \/
  (exists raw n line,
     file = Some raw /\ code = INVALID_LABELS_LINE /\
     details = AtLine (S n) /\
     nth_error (splitLines raw) n = Some line /\
     malformedLabelLine line /\
     (forall i earlier, (i < n)%nat ->
        nth_error (splitLines raw) i = Some earlier ->
        ~ malformedLabelLine earlier)).
Proof.
  unfold parseLabelsFile. destruct file as [raw |].
  - intros H. right. apply labelsOfLines_Failed in H.
    destruct H as (-> & n & line & -> & Hn & Hi & He).
    exists raw, n, line. split; [reflexivity |]. split; [reflexivity |].
    split; [reflexivity |]. split; [exact Hn |].
    split; [apply labelOfLine_Invalid; exact Hi |].
    intros i earlier Li Ei M. apply labelOfLine_Invalid in M.
    exact (He i earlier Li Ei M).
  - intros H. injection H as <- <-. left. auto.
Qed.

Lemma parseLabelsFile_labels_well_formed_witness :
  parseLabelsFile (Some exLabelsFile)
  = Loaded [ {| name := lit "Alpha";
                url := lit "https://example.com/label/alpha" |};
             {| name := lit "Harmonia Mundi";
                url := lit "HTTP://example.com/label/hm" |} ] /\
  Forall wellFormedLabel
    [ {| name := lit "Alpha"; url := lit "https://example.com/label/alpha" |};
      {| name := lit "Harmonia Mundi";
         url := lit "HTTP://example.com/label/hm" |} ].
Proof.
  assert (E : parseLabelsFile (Some exLabelsFile)
              = Loaded [ {| name := lit "Alpha";
                            url := lit "https://example.com/label/alpha" |};
                         {| name := lit "Harmonia Mundi";
                            url := lit "HTTP://example.com/label/hm" |} ])
    by (vm_compute; reflexivity).
  exact (conj E (parseLabelsFile_labels_well_formed _ _ E)).
Defined.

Lemma parseLabelsFile_reports_first_malformed_line_witness :
  parseLabelsFile (Some exBadLabelsFile)
  = Failed INVALID_LABELS_LINE (AtLine 5) /\
  exists line,
    nth_error (splitLines exBadLabelsFile) 4 = Some line /\
    malformedLabelLine line.
Proof.
  assert (E : parseLabelsFile (Some exBadLabelsFile)
              = Failed INVALID_LABELS_LINE (AtLine 5))
    by (vm_compute; reflexivity).
  split; [exact E |].
  destruct (parseLabelsFile_reports_first_malformed_line _ _ _ E)
    as [(F & _) | (raw & n & line & F & _ & D & Hn & M & _)];
    [discriminate |].
  injection F as <-. injection D as <-. exists line. exact (conj Hn M).
Defined.

(** ** Writing a labels file and reading it back *)

Lemma splitLines_line l :
  ~ In 10 l -> ~ In 13 l -> splitLines l = [l].
Proof.
  induction l as [| c l IH]; intros N10 N13; [reflexivity |].
  cbn [splitLines].
  destruct (Z.eqb_spec c 10) as [-> | _]; [exfalso; apply N10; left; reflexivity |].
  destruct (Z.eqb_spec c 13) as [-> | _]; [exfalso; apply N13; left; reflexivity |].
  cbn [andb]. rewrite IH; [reflexivity | |]; intros H; [apply N10 | apply N13];
    right; exact H.
Qed.

Lemma splitLines_app_lf l rest :
  ~ In 10 l -> ~ In 13 l ->
  splitLines (l ++ 10 :: rest) = l :: splitLines rest.
Proof.
  induction l as [| c l IH]; intros N10 N13.
  - cbn. reflexivity.
  - cbn [app splitLines].
    destruct (Z.eqb_spec c 10) as [-> | _]; [exfalso; apply N10; left; reflexivity |].
    destruct (Z.eqb_spec c 13) as [-> | _]; [exfalso; apply N13; left; reflexivity |].
    cbn [andb]. rewrite IH; [reflexivity | |]; intros H; [apply N10 | apply N13];
      right; exact H.
Qed.

Lemma splitLines_join lines :
  Forall (fun l => ~ In 10 l /\ ~ In 13 l) lines -> lines <> [] ->
  splitLines (join [10] lines) = lines.
Proof.
  induction lines as [| l rest IH]; intros F N; [contradiction |].
  inversion F as [| x xs [N10 N13] F']; subst.
  destruct rest as [| l' rest].
  - cbn [join]. apply splitLines_line; assumption.
  - change (join [10] (l :: l' :: rest)) with (l ++ 10 :: join [10] (l' :: rest)).
    rewrite splitLines_app_lf by assumption.
    rewrite IH; [reflexivity | exact F' | discriminate].
Qed.

Lemma startsWith_sep_app a rest :
  a <> [] ->
  startsWith (a ++ [32; 45]) [32; 45; 32] = false ->
  startsWith (a ++ [32; 45; 32] ++ rest) [32; 45; 32] = false.
Proof.
  intros N. destruct a as [| c [| d [| e a]]]; [contradiction | | |];
    cbn [app startsWith]; intros H.
  - destruct (32 =? c); reflexivity.
  - destruct (32 =? c); [| reflexivity]. destruct (45 =? d); [| reflexivity].
    exact H.
  - rewrite startsWith_nil in *. exact H.
Qed.

Lemma indexOf_separator a rest :
  includes (a ++ [32; 45]) [32; 45; 32] = false ->
  indexOf (a ++ [32; 45; 32] ++ rest) [32; 45; 32] = Some (List.length a).
Proof.
  induction a as [| c a IH]; intros H.
  - cbn [app indexOf startsWith List.length]. rewrite startsWith_nil.
    reflexivity.
  - cbn [app includes] in H. apply orb_false_iff in H. destruct H as [H1 H2].
    pose proof (startsWith_sep_app (c :: a) rest ltac:(discriminate) H1) as S1.
    specialize (IH H2). cbn [app] in S1, IH.
    cbn [app indexOf List.length]. rewrite S1, IH. reflexivity.
Qed.

Lemma beforeFirst_absent d s : ~ In d s -> beforeFirst [d] s = s.
Proof.
  induction s as [| c s IH]; intros N; [reflexivity |].
  cbn [beforeFirst startsWith]. rewrite startsWith_nil, andb_true_r.
  destruct (Z.eqb_spec d c) as [-> | _]; [exfalso; apply N; left; reflexivity |].
  rewrite IH; [reflexivity |]. intros H. apply N. right. exact H.
Qed.

Lemma isHttpUrl_nonEmpty u : isHttpUrl u = true -> u <> [].
Proof. intros H ->. discriminate. Qed.

Lemma headOk_fixed s : trim s = s -> headOk s.
Proof. intros <-. apply trim_head. Qed.

Lemma lastOk_fixed s : trim s = s -> headOk (rev s).
Proof. intros <-. apply trim_last. Qed.

Lemma labelOfLine_renderLabel l :
  printableLabel l -> labelOfLine (renderLabel l) = Entry l.
Proof.
  intros ((N & Tn & U & Tu & Ch) & _ & Sep).
  destruct l as [nm u]. cbn [name url] in *. unfold renderLabel. cbn [name url].
  change (lit " - ") with [32; 45; 32] in *.
  change (lit " -") with [32; 45] in *.
  assert (Clean : cleanLine (nm ++ [32; 45; 32] ++ u) = nm ++ [32; 45; 32] ++ u).
  { unfold cleanLine. rewrite beforeFirst_absent.
    - apply trim_of_ends.
      + pose proof (headOk_fixed nm Tn) as H. destruct nm; [contradiction |].
        exact H.
      + pose proof (lastOk_fixed u Tu) as H.
        rewrite !rev_app_distr.
        destruct (rev u) as [| y m] eqn:R; [| exact H].
        apply (f_equal (@rev Z)) in R. rewrite rev_involutive in R.
        apply isHttpUrl_nonEmpty in U. contradiction.
    - intros H. apply in_app_or in H. destruct H as [H | H].
      + destruct (Ch 35); [apply in_or_app; left; exact H | congruence].
      + cbn [app] in H. destruct H as [H | [H | [H | H]]]; try discriminate.
        destruct (Ch 35); [apply in_or_app; right; exact H | congruence]. }
  unfold labelOfLine. rewrite Clean.
  destruct (nm ++ [32; 45; 32] ++ u) as [| c0 r0] eqn:L;
    [destruct nm; discriminate |]. rewrite <- L.
  cbn [nonEmpty negb].
  change (lit " - ") with [32; 45; 32].
  rewrite (indexOf_separator nm u Sep).
  rewrite firstn_app, firstn_all, Nat.sub_diag. cbn [firstn]. rewrite app_nil_r.
  replace (skipn (List.length nm + 3) (nm ++ [32; 45; 32] ++ u)) with u.
  2:{ rewrite skipn_app, skipn_all2 by lia.
      replace (List.length nm + 3 - List.length nm)%nat with 3%nat by lia.
      reflexivity. }
  rewrite Tn, Tu, U. destruct nm; [contradiction | reflexivity].
Qed.

Lemma labelsOfLines_render labels :
  forall index before,
  Forall printableLabel labels ->
  labelsOfLines (map renderLabel labels) index before
  = Loaded (before ++ labels).
Proof.
  induction labels as [| l rest IH]; intros index before F;
    cbn [map labelsOfLines].
  - rewrite app_nil_r. reflexivity.
  - inversion F; subst. rewrite labelOfLine_renderLabel by assumption.
    rewrite IH by assumption. rewrite <- app_assoc. reflexivity.
Qed.

(** X19: reading back a labels file that has one line "name - url" for each
    label gives the labels, when each of them is well formed, has no
    carriage return, and has the first " - " of its line after its name. *)
Theorem parseLabelsFile_reads_back labels :
  Forall printableLabel labels ->
  parseLabelsFile (Some (join [10] (map renderLabel labels))) = Loaded labels.
Proof.
  intros F. unfold parseLabelsFile.
  destruct labels as [| l rest]; [reflexivity |].
  rewrite splitLines_join.
  - apply (labelsOfLines_render (l :: rest) O []). exact F.
  - apply Forall_forall. intros line Hl. apply in_map_iff in Hl.
    destruct Hl as (x & <- & Hx).
    rewrite Forall_forall in F. destruct (F x Hx) as ((_ & _ & _ & _ & Ch) & Cr & _).
    unfold renderLabel.
    assert (Q : forall c, In c (name x ++ lit " - " ++ url x) ->
                          c <> 10 /\ c <> 13).
    { intros c Hc. apply in_app_or in Hc. destruct Hc as [Hc | Hc].
      - split; [apply Ch | apply Cr]; apply in_or_app; left; exact Hc.
      - cbn [app lit] in Hc. cbn in Hc.
        destruct Hc as [<- | [<- | [<- | Hc]]]; try (split; discriminate).
        split; [apply Ch | apply Cr]; apply in_or_app; right; exact Hc. }
    split; intros H; apply Q in H; destruct H; congruence.
  - discriminate.
Qed.

Lemma parseLabelsFile_reads_back_witness :
  Forall printableLabel exLabels /\
  parseLabelsFile (Some (join [10] (map renderLabel exLabels))) = Loaded exLabels.
Proof.
  assert (F : Forall printableLabel exLabels).
  { constructor; [| constructor].
    split; [| split; [| vm_compute; reflexivity]].
    - split; [discriminate |]. split; [vm_compute; reflexivity |].
      split; [vm_compute; reflexivity |]. split; [vm_compute; reflexivity |].
      intros c Hc. vm_compute in Hc.
      repeat (destruct Hc as [<- | Hc]; [split; discriminate |]). contradiction.
    - intros c Hc. vm_compute in Hc.
      repeat (destruct Hc as [<- | Hc]; [discriminate |]). contradiction. }
  exact (conj F (parseLabelsFile_reads_back exLabels F)).
Defined.

(** ** The input file *)

Lemma indexOf_single_inv c s :
  forall i, indexOf s [c] = Some i ->
  s = firstn i s ++ c :: skipn (S i) s /\ ~ In c (firstn i s).
Proof.
  induction s as [| x s IH]; intros i H; cbn [indexOf startsWith] in H.
  - discriminate.
  - rewrite startsWith_nil, andb_true_r in H.
    destruct (Z.eqb_spec c x) as [-> | N].
    + injection H as <-. cbn. split; [reflexivity | tauto].
    + destruct (indexOf s [c]) as [j |] eqn:E; [| discriminate].
      injection H as <-. destruct (IH j eq_refl) as [E1 E2].
      cbn [firstn skipn app]. split; [f_equal; exact E1 |].
      cbn. intros [H | H]; [congruence | contradiction].
Qed.

Lemma indexOf_single_at c key value :
  ~ In c key -> indexOf (key ++ c :: value) [c] = Some (List.length key).
Proof.
  induction key as [| x key IH]; intros N; cbn [app indexOf startsWith List.length].
  - rewrite Z.eqb_refl, startsWith_nil. reflexivity.
  - rewrite startsWith_nil, andb_true_r.
    destruct (Z.eqb_spec c x) as [-> | _]; [exfalso; apply N; left; reflexivity |].
    rewrite IH; [reflexivity |]. intros H. apply N. right. exact H.
Qed.

Lemma dropWhile_nil_all f s : dropWhile f s = [] -> forall c, In c s -> f c = true.
Proof.
  induction s as [| x s IH]; intros H c Hc; [contradiction |].
  cbn in H. destruct (f x) eqn:E; [| discriminate].
  destruct Hc as [<- | Hc]; [exact E | apply IH; assumption].
Qed.

Lemma existsb_false_all (f : Z -> bool) s :
  existsb f s = false <-> forall c, In c s -> f c = false.
Proof.
  induction s as [| x s IH]; cbn.
  - split; [intros _ c [] | reflexivity].
  - rewrite orb_false_iff, IH. split.
    + intros [H1 H2] c [<- | Hc]; auto.
    + intros H. split; [apply H; left; reflexivity |].
      intros c Hc. apply H. right. exact Hc.
Qed.

Lemma last_trimmed pre suf y m :
  trim (pre ++ suf) = pre ++ suf -> rev suf = y :: m -> isWhiteSpace y = false.
Proof.
  intros T R. pose proof (trim_last (pre ++ suf)) as H. rewrite T in H.
  rewrite rev_app_distr, R in H. exact H.
Qed.

Lemma matchKeyValue_Some clean m1 m2 :
  trim clean = clean -> matchKeyValue clean = Some (m1, m2) ->
  exists key value,
    clean = key ++ [61] ++ value /\ key <> [] /\ ~ In 61 key /\
    m2 = trimStart value /\ m2 <> [] /\
    (forall c, In c m2 -> isLineTerminator c = false).
Proof.
  intros T. unfold matchKeyValue.
  destruct (indexOf clean [61]) as [[| i] |] eqn:I; try discriminate.
  apply indexOf_single_inv in I. destruct I as [E N].
  set (key := firstn (S i) clean) in *.
  set (value := skipn (S (S i)) clean) in *.
  assert (K : key <> []).
  { unfold key. destruct clean; [destruct i; discriminate | discriminate]. }
  destruct (dropWhile isWhiteSpace value) as [| c v] eqn:D.
  - destruct (rev value) as [| y m] eqn:R; [discriminate |].
    exfalso.
    assert (Wy : isWhiteSpace y = true).
    { apply (dropWhile_nil_all _ _ D). apply in_rev. rewrite R. left.
      reflexivity. }
    rewrite E in T.
    change (key ++ 61 :: value) with (key ++ [61] ++ value) in T.
    rewrite app_assoc in T.
    rewrite (last_trimmed _ _ _ _ T R) in Wy. discriminate.
  - destruct (existsb isLineTerminator (c :: v)) eqn:X; [discriminate |].
    intros H. injection H as _ <-.
    exists key, value. split; [exact E |]. split; [exact K |].
    split; [exact N |]. split; [symmetry; exact D |].
    split; [discriminate |]. apply existsb_false_all. exact X.
Qed.

Lemma matchKeyValue_of_line clean :
  keyValueLine clean -> exists m, matchKeyValue clean = Some m.
Proof.
  intros (key & value & -> & K & N & V & L). unfold matchKeyValue.
  cbn [app]. rewrite (indexOf_single_at 61 key value N).
  destruct (List.length key) as [| i] eqn:Len;
    [destruct key; [contradiction | discriminate] |].
  rewrite <- Len.
  replace (skipn (S (List.length key)) (key ++ 61 :: value)) with value.
  2:{ change (key ++ 61 :: value) with (key ++ [61] ++ value).
      rewrite app_assoc, skipn_app, skipn_all2 by (rewrite length_app; cbn; lia).
      rewrite length_app. cbn [List.length app].
      replace (S (List.length key) - (List.length key + 1))%nat with O by lia.
      reflexivity. }
  unfold trimStart in V, L.
  destruct (dropWhile isWhiteSpace value) as [| c v]; [contradiction |].
  apply existsb_false_all in L. rewrite L. eexists. reflexivity.
Qed.

Lemma cleanLine_trimmed line : trim (cleanLine line) = cleanLine line.
Proof. apply trim_idem. Qed.

Lemma matchKeyValue_None line :
  matchKeyValue (cleanLine line) = None <-> ~ keyValueLine (cleanLine line).
Proof.
  split.
  - intros H K. apply matchKeyValue_of_line in K. destruct K as (m & K).
    congruence.
  - intros H. destruct (matchKeyValue (cleanLine line)) as [[m1 m2] |] eqn:M;
      [| reflexivity].
    exfalso. apply H.
    destruct (matchKeyValue_Some _ _ _ (cleanLine_trimmed line) M)
      as (key & value & E & K & N & V & V1 & V2).
    exists key, value. rewrite <- V. auto.
Qed.

Section InputFile.
Variable toLowerCase : str -> str.
Variable toNumber : Z -> option Z.
Variable parseFloat : str -> FloatClass.

Lemma parsedOfLines_Failed lines :
  forall idx parsed code details,
  parsedOfLines toLowerCase lines idx parsed = Failed code details ->
  code = INVALID_INPUT_LINE /\
  exists n, details = AtLine (idx + S n) /\
            firstWith malformedInputLine lines n.
Proof.
  induction lines as [| line rest IH]; intros idx parsed code details H;
    cbn [parsedOfLines] in H; [discriminate |].
  assert (Next : forall parsed',
    parsedOfLines toLowerCase rest (S idx) parsed' = Failed code details ->
    ~ malformedInputLine line ->
    code = INVALID_INPUT_LINE /\
    exists n, details = AtLine (idx + S n) /\
              firstWith malformedInputLine (line :: rest) n).
  { intros parsed' H' NI. apply IH in H'.
    destruct H' as (-> & n & -> & (l & Hn & Hl) & He).
    split; [reflexivity |]. exists (S n). split; [f_equal; lia |].
    split; [exists l; auto |].
    intros [| i] earlier Li Ei; cbn in Ei.
    - injection Ei as <-. exact NI.
    - apply (He i); [lia | exact Ei]. }
  destruct (cleanLine line) as [| c clean] eqn:C; cbn [nonEmpty negb] in H.
  - apply (Next parsed H). intros [N _]. rewrite C in N. contradiction.
  - destruct (matchKeyValue (c :: clean)) as [[m1 m2] |] eqn:M.
    + apply (Next _ H). intros [_ N]. rewrite C in N.
      rewrite <- C in M, N. apply matchKeyValue_None in N. congruence.
    + injection H as <- <-. split; [reflexivity |]. exists O.
      split; [f_equal; lia |]. split.
      * exists line. split; [reflexivity |]. split.
        -- rewrite C. discriminate.
        -- apply matchKeyValue_None. rewrite C. exact M.
      * intros i earlier Li. lia.
Qed.

Lemma parsedOfLines_firstWith lines :
  forall idx parsed n,
  firstWith malformedInputLine lines n ->
  parsedOfLines toLowerCase lines idx parsed
  = Failed INVALID_INPUT_LINE (AtLine (idx + S n)).
Proof.
  induction lines as [| line rest IH]; intros idx parsed n ((l & Hn & Hl) & He).
  - destruct n; discriminate.
  - cbn [parsedOfLines]. destruct n as [| n].
    + injection Hn as ->. destruct Hl as [N M].
      apply matchKeyValue_None in M.
      destruct (cleanLine l) as [| c clean]; [contradiction |].
      cbn [nonEmpty negb]. rewrite M. reflexivity.
    + assert (F : firstWith malformedInputLine rest n).
      { split; [exists l; auto |]. intros i earlier Li Ei.
        apply (He (S i)); [lia | exact Ei]. }
      assert (G : ~ malformedInputLine line).
      { apply (He O); [lia | reflexivity]. }
      replace (idx + S (S n))%nat with (S idx + S n)%nat by lia.
      destruct (cleanLine line) as [| c clean] eqn:C; cbn [nonEmpty negb];
        [apply IH; exact F |].
      destruct (matchKeyValue (c :: clean)) as [[m1 m2] |] eqn:M;
        [apply IH; exact F |].
      exfalso. apply G. split; [rewrite C; discriminate |].
      apply matchKeyValue_None. rewrite C. exact M.
Qed.

Lemma parsePlDate_Throw text code :
  parsePlDate text = Throw code -> code = INVALID_DATE_FORMAT.
Proof.
  unfold parsePlDate. destruct (matchPlDate (trim text)) as [[[a b] c] |];
    [destruct (checkedUTC _ _ _) |]; intros H; try discriminate;
    injection H as <-; reflexivity.
Qed.

Lemma dateValue_code parsed key code details :
  dateValue parsed key = Failed code details -> code = INVALID_DATE_FORMAT.
Proof.
  unfold dateValue. destruct (parsePlDate _) eqn:P; [discriminate |].
  intros H. injection H as <- _. apply parsePlDate_Throw in P. exact P.
Qed.

Lemma intValue_code parsed key default min code details :
  intValue toNumber parsed key default min = Failed code details ->
  code = INVALID_NUMERIC_VALUE \/ code = VALUE_OUT_OF_RANGE.
Proof.
  unfold intValue. destruct (parseInt toNumber _) as [v |].
  - destruct (v <? min); [| discriminate]. intros H. injection H as <- _. auto.
  - intros H. injection H as <- _. auto.
Qed.

Lemma floatValue_code parsed key default code details :
  floatValue parseFloat parsed key default = Failed code details ->
  code = INVALID_NUMERIC_VALUE \/ code = VALUE_OUT_OF_RANGE.
Proof.
  unfold floatValue. destruct (parseFloat _); intros H; try discriminate;
    injection H as <- _; auto.
Qed.

Lemma intValue_bound parsed key default min v :
  intValue toNumber parsed key default min = Loaded v -> min <= v.
Proof.
  unfold intValue. destruct (parseInt toNumber _) as [x |]; [| discriminate].
  destruct (x <? min) eqn:E; [discriminate |]. intros H. injection H as <-.
  apply Z.ltb_ge in E. exact E.
Qed.

Lemma textValue_nonEmpty parsed key default :
  lit default <> [] -> textValue parsed key default <> [].
Proof.
  intros N. unfold textValue, orElse.
  destruct (trim _) as [| c v]; [exact N | discriminate].
Qed.

Lemma textValue_trimmed parsed key default :
  trim (lit default) = lit default ->
  trim (textValue parsed key default) = textValue parsed key default.
Proof.
  intros T. unfold textValue.
  pose proof (trim_idem (orElse (Some (rawValue parsed key default))
                           (lit default))) as Tt.
  destruct (trim (orElse (Some (rawValue parsed key default)) (lit default)))
    as [| c v]; cbn [orElse]; [exact T | exact Tt].
Qed.

End InputFile.

Lemma parsePlDate_calendar text t : parsePlDate text = Ok t -> isCalendarDate t.
Proof.
  unfold parsePlDate.
  destruct (matchPlDate (trim text)) as [[[a b] c] |] eqn:M; [| discriminate].
  destruct (checkedUTC _ _ _) as [t0 |] eqn:C; [| discriminate].
  intros H; injection H as <-.
  apply matchPlDate_plFields in M.
  pose proof (plFields_year_range _ _ _ _ M) as Y.
  apply checkedUTC_some in C. destruct C as (V & N & E & _).
  replace (numberOfDigits b - 1 + 1) with (numberOfDigits b) in V by lia.
  exists (numberOfDigits c), (numberOfDigits b), (numberOfDigits a).
  split; [exact V |]. split; [lia | exact E].
Qed.

Section InputConfig.
Variable toLowerCase : str -> str.
Variable toNumber : Z -> option Z.
Variable parseFloat : str -> FloatClass.

Lemma dateValue_calendar parsed key t :
  dateValue parsed key = Loaded t -> isCalendarDate t.
Proof.
  unfold dateValue. destruct (parsePlDate _) as [d |] eqn:P; [| discriminate].
  intros H. injection H as <-. apply parsePlDate_calendar in P. exact P.
Qed.

(** X20: a configuration that [parseInputConfig] returns has two dates of
    the calendar with [date_from] not after [date_to], [min_minutes] and
    [max_pages_per_label] of at least 1, [retries] of at least 0,
    [timeout_ms] of at least 1000, and a genre root, an accepted language, a
    user agent and a name of the labels file that are not empty. *)
Theorem parseInputConfig_result_in_bounds file c :
  parseInputConfig toLowerCase toNumber parseFloat file = Loaded c ->
  date_from (run_config c) <= date_to (run_config c) /\
  isCalendarDate (date_from (run_config c)) /\
  isCalendarDate (date_to (run_config c)) /\
  1 <= min_minutes (run_config c) /\
  1 <= max_pages_per_label (run_config c) /\
  0 <= retries (run_config c) /\
  1000 <= timeout_ms (run_config c) /\
  genre_root (run_config c) <> [] /\
  accept_language (run_config c) <> [] /\
  user_agent (run_config c) <> [] /\
  labels_file c <> [].
Proof.
  unfold parseInputConfig. destruct file as [raw |]; [| discriminate].
  destruct (parsedOfLines toLowerCase (splitLines raw) 0 []) as [parsed |];
    [| discriminate].
  cbn [bind].
  destruct (falsy _ || falsy _); [discriminate |].
  destruct (dateValue parsed "date_from") as [from |] eqn:D1; [| discriminate].
  destruct (dateValue parsed "date_to") as [to |] eqn:D2; [| discriminate].
  cbn [bind].
  apply dateValue_calendar in D1, D2.
  destruct (intValue toNumber parsed "min_minutes" "15" 1) as [minutes |] eqn:I1;
    [| destruct (from >? to); discriminate].
  destruct (floatValue parseFloat parsed "delay_listing" "0.35") as [[] |];
    [| destruct (from >? to); discriminate].
  destruct (floatValue parseFloat parsed "delay_album" "0.55") as [[] |];
    [| destruct (from >? to); discriminate].
  destruct (intValue toNumber parsed "max_pages_per_label" "2" 1)
    as [pages |] eqn:I2; [| destruct (from >? to); discriminate].
  destruct (intValue toNumber parsed "retries" "3" 0) as [tries |] eqn:I3;
    [| destruct (from >? to); discriminate].
  destruct (intValue toNumber parsed "timeout_ms" "20000" 1000)
    as [timeout |] eqn:I4; [| destruct (from >? to); discriminate].
  apply intValue_bound in I1, I2, I3, I4.
  assert (T : forall key default, lit default <> [] ->
                textValue parsed key default <> [])
    by (intros; apply textValue_nonEmpty; assumption).
  destruct (from >? to) eqn:G; cbn [bind]; intros H; injection H as <-;
    cbn [run_config labels_file date_from date_to min_minutes
         max_pages_per_label retries timeout_ms genre_root accept_language
         user_agent];
    (split; [lia |]); (split; [assumption |]); (split; [assumption |]);
    (split; [exact I1 |]); (split; [exact I2 |]); (split; [exact I3 |]);
    (split; [exact I4 |]);
    (split; [apply T; discriminate |]); (split; [apply T; discriminate |]);
    (split; [apply T; discriminate |]); apply T; discriminate.
Qed.

(** X21: [parseInputConfig] throws INVALID_INPUT_LINE exactly when a line of
    the file is malformed, whatever the other lines hold, and reports the
    number of the first such line, counting every line from 1. A line is
    malformed when, cut at its first "#" and trimmed, it is not empty and
    not of the form "key = value". *)
Theorem parseInputConfig_reports_first_malformed_line file details :
  parseInputConfig toLowerCase toNumber parseFloat file
  = Failed INVALID_INPUT_LINE details
  <-> exists raw n, file = Some raw /\ details = AtLine (S n) /\
                    firstWith malformedInputLine (splitLines raw) n.
Proof.
  unfold parseInputConfig. split.
  - destruct file as [raw |]; [| discriminate].
    destruct (parsedOfLines toLowerCase (splitLines raw) 0 [])
      as [parsed | code d] eqn:P; cbn [bind].
    + intros H. exfalso.
      destruct (falsy _ || falsy _); [discriminate |].
      destruct (dateValue parsed "date_from") as [from |] eqn:D1;
        [| apply dateValue_code in D1; cbn [bind] in H; congruence].
      destruct (dateValue parsed "date_to") as [to |] eqn:D2;
        [| apply dateValue_code in D2; cbn [bind] in H; congruence].
      cbn [bind] in H.
      destruct (if from >? to then (to, from) else (from, to)) as [f t].
      destruct (intValue toNumber parsed "min_minutes" "15" 1) eqn:I1;
        [| apply intValue_code in I1; cbn [bind] in H;
           destruct I1; congruence].
      destruct (floatValue parseFloat parsed "delay_listing" "0.35") eqn:F1;
        [| apply floatValue_code in F1; cbn [bind] in H;
           destruct F1; congruence].
      destruct (floatValue parseFloat parsed "delay_album" "0.55") eqn:F2;
        [| apply floatValue_code in F2; cbn [bind] in H;
           destruct F2; congruence].
      destruct (intValue toNumber parsed "max_pages_per_label" "2" 1) eqn:I2;
        [| apply intValue_code in I2; cbn [bind] in H;
           destruct I2; congruence].
      destruct (intValue toNumber parsed "retries" "3" 0) eqn:I3;
        [| apply intValue_code in I3; cbn [bind] in H;
           destruct I3; congruence].
      destruct (intValue toNumber parsed "timeout_ms" "20000" 1000) eqn:I4;
        [| apply intValue_code in I4; cbn [bind] in H;
           destruct I4; congruence].
      cbn [bind] in H. discriminate.
    + intros H. injection H as -> ->.
      apply parsedOfLines_Failed in P. destruct P as (_ & n & -> & F).
      exists raw, n. auto.
  - intros (raw & n & -> & -> & F).
    rewrite (parsedOfLines_firstWith toLowerCase _ O [] n F). reflexivity.
Qed.

End InputConfig.

Lemma parseInputConfig_result_in_bounds_witness :
  exists c,
    parseInputConfig asciiToLowerCase smallToNumber plainParseFloat
      (Some exInputFile) = Loaded c /\
    date_from (run_config c) = civil 2024 1 1 /\
    date_to (run_config c) = civil 2024 1 31 /\
    date_from (run_config c) <= date_to (run_config c) /\
    0 <= retries (run_config c).
Proof.
  destruct (parseInputConfig asciiToLowerCase smallToNumber plainParseFloat
              (Some exInputFile)) as [c |] eqn:E;
    [| vm_compute in E; discriminate].
  exists c. split; [reflexivity |].
  destruct (parseInputConfig_result_in_bounds _ _ _ _ _ E)
    as (B1 & _ & _ & _ & _ & B2 & _).
  assert (F : date_from (run_config c) = civil 2024 1 1)
    by (vm_compute in E; injection E as <-; reflexivity).
  assert (T : date_to (run_config c) = civil 2024 1 31)
    by (vm_compute in E; injection E as <-; reflexivity).
  exact (conj F (conj T (conj B1 B2))).
Defined.

Lemma parseInputConfig_reports_first_malformed_line_witness :
  firstWith malformedInputLine (splitLines exBadInputFile) 2 /\
  parseInputConfig asciiToLowerCase smallToNumber plainParseFloat
    (Some exBadInputFile) = Failed INVALID_INPUT_LINE (AtLine 3).
Proof.
  assert (E : parseInputConfig asciiToLowerCase smallToNumber plainParseFloat
                (Some exBadInputFile) = Failed INVALID_INPUT_LINE (AtLine 3))
    by (vm_compute; reflexivity).
  destruct (proj1 (parseInputConfig_reports_first_malformed_line
                     asciiToLowerCase smallToNumber plainParseFloat
                     (Some exBadInputFile) (AtLine 3)) E)
    as (raw & n & R & D & F).
  injection R as <-. injection D as <-. exact (conj F E).
Defined.

(** ** Dates with the month in letters *)

Lemma tokenChar_not_space c : isMonthTokenChar c = true -> isWhiteSpace c = false.
Proof.
  unfold isMonthTokenChar, isAsciiLetter, isUpper, isLower, isWhiteSpace.
  intros H.
  repeat match goal with
         | H : context [?a <=? ?b] |- _ => destruct (Z.leb_spec a b); cbn in H
         | H : context [?a =? ?b] |- _ => destruct (Z.eqb_spec a b); cbn in H
         end; try discriminate;
  repeat match goal with
         | |- context [?a <=? ?b] => destruct (Z.leb_spec a b); try lia
         | |- context [?a =? ?b] => destruct (Z.eqb_spec a b); try lia
         end; reflexivity.
Qed.

Lemma collapseFrom_app s rest b :
  Forall (fun c => isWhiteSpace c = false) s -> s <> [] ->
  collapseFrom b (s ++ rest) = s ++ collapseFrom false rest.
Proof.
  intros F N. revert b. induction F as [| c s Hc F IH]; [contradiction |].
  intros b. cbn [app collapseFrom]. rewrite Hc. f_equal.
  destruct s as [| c' s']; [reflexivity |]. apply IH. discriminate.
Qed.

Lemma digits_not_space s :
  Forall (fun c => isDigit c = true) s -> Forall (fun c => isWhiteSpace c = false) s.
Proof.
  intros F. eapply Forall_impl; [| exact F]. intros c. apply digit_not_space.
Qed.

Lemma englishDateText_normal tok d y :
  isMonthToken tok -> isDigits12 d -> isDigits 4 y ->
  collapseWhiteSpace (trim (englishDateText tok d y)) = englishDateText tok d y.
Proof.
  intros [Ft Nt] Hd [Ly Fy].
  assert (Nd : Forall (fun c => isWhiteSpace c = false) d)
    by (apply digits_not_space, isDigits12_digits; exact Hd).
  assert (Ny : Forall (fun c => isWhiteSpace c = false) y)
    by (apply digits_not_space; exact Fy).
  assert (Nk : Forall (fun c => isWhiteSpace c = false) tok).
  { eapply Forall_impl; [| exact Ft]. intros c. apply tokenChar_not_space. }
  assert (T0 : tok <> []) by (intros ->; apply Nt; reflexivity).
  assert (D0 : d <> []).
  { destruct (isDigits12_head d Hd) as (x & r & -> & _). discriminate. }
  assert (Y0 : y <> []) by (intros ->; discriminate).
  unfold englishDateText.
  rewrite trim_of_ends.
  - unfold collapseWhiteSpace.
    rewrite (collapseFrom_app tok _ false Nk T0).
    cbn [app collapseFrom]. change (isWhiteSpace 32) with true. cbn iota.
    change (d ++ 44 :: 32 :: y) with (d ++ [44] ++ 32 :: y).
    rewrite app_assoc.
    rewrite (collapseFrom_app (d ++ [44]) _ true).
    + cbn [collapseFrom]. change (isWhiteSpace 32) with true. cbn iota.
      rewrite (collapseFrom_id y true (digits_no_space y Fy)).
      rewrite <- app_assoc. reflexivity.
    + apply Forall_app. split; [exact Nd |]. constructor; [reflexivity | constructor].
    + destruct d; [contradiction | discriminate].
  - destruct tok as [| c tok']; [contradiction |]. cbn.
    inversion Nk; assumption.
  - rewrite !rev_app_distr.
    destruct y as [| y0 y'] using rev_ind; [contradiction |].
    rewrite rev_app_distr. cbn.
    apply Forall_app in Ny. destruct Ny as [_ Ny]. inversion Ny; assumption.
Qed.

Lemma splitAtSpace_token tok rest :
  Forall (fun c => isMonthTokenChar c = true) tok ->
  splitAtSpace (tok ++ 32 :: rest) = Some (tok, 32 :: rest).
Proof.
  induction 1 as [| c tok Hc F IH]; cbn [app splitAtSpace].
  - reflexivity.
  - destruct (Z.eqb_spec c 32) as [-> | _]; [discriminate |].
    rewrite IH. reflexivity.
Qed.

Lemma normalizeMonthToken_letters tok :
  Forall (fun c => isMonthTokenChar c = true) tok ->
  forallb isAsciiLetter (normalizeMonthToken tok) = true.
Proof.
  unfold normalizeMonthToken.
  induction 1 as [| c tok Hc F IH]; cbn [filter]; [reflexivity |].
  destruct (Z.eqb_spec c 46) as [-> | N]; cbn [negb]; [exact IH |].
  cbn [forallb]. rewrite IH, andb_true_r.
  unfold isMonthTokenChar in Hc. apply orb_true_iff in Hc.
  destruct Hc as [Hc | Hc]; [exact Hc |]. apply Z.eqb_eq in Hc. contradiction.
Qed.

Lemma takeWhile_app_stop f s c rest :
  forallb f s = true -> f c = false ->
  takeWhile f (s ++ c :: rest) = s /\ dropWhile f (s ++ c :: rest) = c :: rest.
Proof.
  intros F Hc. induction s as [| x s IH]; cbn.
  - rewrite Hc. auto.
  - cbn in F. apply andb_true_iff in F. destruct F as [Hx F].
    rewrite Hx. destruct (IH F) as [-> ->]. auto.
Qed.

Lemma matchEnglishDate_text w d y :
  w <> [] -> forallb isAsciiLetter w = true ->
  isDigits12 d -> isDigits 4 y ->
  matchEnglishDate (w ++ 32 :: d ++ 44 :: 32 :: y) = Some (w, d, y).
Proof.
  intros Nw Fw Hd Hy. unfold matchEnglishDate.
  destruct (takeWhile_app_stop isAsciiLetter w 32 (d ++ 44 :: 32 :: y) Fw eq_refl)
    as [-> ->].
  destruct w as [| w0 w']; [contradiction |].
  change (isWhiteSpace 32) with true. cbn iota.
  destruct (isDigits12_head d Hd) as (x & r & E & Hx).
  assert (Sd : dropWhile isWhiteSpace (d ++ 44 :: 32 :: y) = d ++ 44 :: 32 :: y).
  { rewrite E. cbn [app dropWhile]. rewrite (digit_not_space x Hx). reflexivity. }
  rewrite Sd, (digits12_app d 44 (32 :: y) Hd eq_refl).
  cbn [Z.eqb Pos.eqb]. cbn [dropWhile]. change (isWhiteSpace 32) with true.
  cbn iota.
  assert (Sy : dropWhile isWhiteSpace y = y).
  { destruct Hy as [Ly Fy]. destruct y as [| y0 y']; [reflexivity |].
    inversion Fy; subst. cbn [dropWhile]. rewrite digit_not_space by assumption.
    reflexivity. }
  rewrite Sy. rewrite <- (app_nil_r y) at 1.
  rewrite (digitsN_app 4 y [] Hy). reflexivity.
Qed.

(** What [replaceSept] does to a date text: nothing, or it shortens a
    token "Sept", which stands for the same month as "Sep". *)
Lemma replaceSept_token tok rest :
  isMonthToken tok ->
  exists tok', replaceSept (tok ++ 32 :: rest) = tok' ++ 32 :: rest /\
               isMonthToken tok' /\ monthOfToken tok' = monthOfToken tok.
Proof.
  intros [Ft Nt]. unfold replaceSept.
  destruct (matchLitCI (lit "Sept") (tok ++ 32 :: rest)) as [[| c r] |] eqn:M;
    try (exists tok; split; [reflexivity | split; [split; assumption | reflexivity]]).
  destruct (isWhiteSpace c) eqn:W;
    [| exists tok; split; [reflexivity | split; [split; assumption | reflexivity]]].
  destruct tok as [| t1 [| t2 [| t3 [| t4 [| t5 tok']]]]];
    cbn [app matchLitCI lit map list_ascii_of_string] in M;
    repeat match type of M with
           | (if ?b then _ else _) = _ => destruct b eqn:?; [| discriminate]
           end; try discriminate.
  - (* a token of four units: "Sept" in some letter case *)
    injection M as <- <-.
    exists (lit "Sep"). split; [reflexivity |]. split.
    + split; [repeat constructor | discriminate].
    + unfold monthOfToken, normalizeMonthToken.
      repeat match goal with
             | H : eqCI _ _ = true |- _ =>
                 unfold eqCI in H; apply Z.eqb_eq in H; cbn in H
             end.
      assert (D : forall t, lowerAscii t <> 46 -> negb (t =? 46) = true).
      { intros t Ht. destruct (Z.eqb_spec t 46) as [-> | _];
          [exfalso; apply Ht; reflexivity | reflexivity]. }
      cbn [filter].
      rewrite !D by (intros E46; congruence).
      cbn [firstn map]. repeat match goal with
                                 | H : _ = lowerAscii _ |- _ => rewrite <- H
                                 end.
      reflexivity.
  - (* a longer token: the unit after "Sept" is not white space *)
    injection M as <- <-.
    repeat match goal with
           | H : Forall _ (_ :: _) |- _ => inversion H; clear H; subst
           end.
    match goal with
    | H : isMonthTokenChar ?x = true, W' : isWhiteSpace ?x = true |- _ =>
        apply tokenChar_not_space in H; congruence
    end.
Qed.

(** X22: on a text "token d, y", with a token of letters and points, a day
    of one or two digits and a year of four, [parseEnglishMonthDate] finds
    the month by the first three letters of the token, whatever follows them
    and in any letter case, and returns the date when the year is 100 or
    more and the month has the day; it returns nothing otherwise. *)
Theorem parseEnglishMonthDate_reads_three_letters tok d y :
  isMonthToken tok -> isDigits12 d -> isDigits 4 y ->
  parseEnglishMonthDate (englishDateText tok d y) =
  match monthOfToken tok with
  | None => None
  | Some mi =>
      if (100 <=? numberOfDigits y)
         && validDate (numberOfDigits y) (mi + 1) (numberOfDigits d)
      then Some (civil (numberOfDigits y) (mi + 1) (numberOfDigits d))
      else None
  end.
Proof.
  intros Ht Hd Hy. unfold parseEnglishMonthDate.
  rewrite (englishDateText_normal tok d y Ht Hd Hy).
  unfold englishDateText at 1.
  destruct (tok ++ [32] ++ d ++ [44; 32] ++ y) as [| c0 s0] eqn:E;
    [destruct tok; discriminate |].
  clear E c0 s0.
  change (englishDateText tok d y) with (tok ++ 32 :: d ++ 44 :: 32 :: y).
  destruct (replaceSept_token tok (d ++ 44 :: 32 :: y) Ht)
    as (tok' & -> & [Ft Nt] & <-).
  rewrite (splitAtSpace_token tok' _ Ft).
  rewrite (matchEnglishDate_text (normalizeMonthToken tok') d y Nt
             (normalizeMonthToken_letters tok' Ft) Hd Hy).
  fold (monthOfToken tok').
  destruct (monthOfToken tok') as [mi |]; [| reflexivity].
  assert (B : 0 <= numberOfDigits y <= 9999).
  { destruct Hy as [Ly Fy]. pose proof (numberOfDigits_bound y Fy) as B.
    rewrite Ly in B. change (10 ^ Z.of_nat 4) with 10000 in B. lia. }
  destruct (Z.leb_spec 100 (numberOfDigits y)) as [Y | Y]; cbn [andb].
  - replace mi with (mi + 1 - 1) at 1 by lia.
    apply checkedUTC_civil. lia.
  - apply checkedUTC_two_digit_year. lia.
Qed.

Lemma parseEnglishMonthDate_reads_three_letters_witness :
  parseEnglishMonthDate (lit "Sept. 31, 2024") = None /\
  parseEnglishMonthDate (lit "Marchuary 3, 2024") = Some (civil 2024 3 3).
Proof.
  assert (D1 : isDigits12 (lit "3")) by (left; split; [reflexivity | repeat constructor]).
  assert (D2 : isDigits12 (lit "31")) by (right; split; [reflexivity | repeat constructor]).
  assert (Y : isDigits 4 (lit "2024")) by (split; [reflexivity | repeat constructor]).
  assert (T1 : isMonthToken (lit "Sept."))
    by (split; [repeat constructor | discriminate]).
  assert (T2 : isMonthToken (lit "Marchuary"))
    by (split; [repeat constructor | discriminate]).
  exact (conj (parseEnglishMonthDate_reads_three_letters _ _ _ T1 D2 Y)
              (parseEnglishMonthDate_reads_three_letters _ _ _ T2 D1 Y)).
Defined.

